(** * Arbitrage Sensei backend: a shallow embedding of the arbitrage
      pipeline and the properties checked against it.

    The development follows the layout of the TypeScript backend:

    - [Calculator]           src/arbitrage/calculator.ts
    - [MarketMappingModel]   src/database/models/marketMapping.ts
    - [Detector]             src/arbitrage/detector.ts
    - [OpinionClient], [PolymarketClient]
                             src/websocket/opinionClient.ts, polymarketClient.ts
    - [Executor]             src/trading/executor.ts
    - [Similarity]           src/matching/similarity.ts
    - [MarketMatcher]        src/matching/marketMatcher.ts
    - [Doubles]              src/arbitrage/calculator.ts on binary64 numbers
    - [ReconnectSteps]       src/websocket/reconnectHandler.ts, step by step
    - [Spec]                 the contract of the specification, in its words
    - [Scenario...]          the concrete runs the theorems refer to

    Conventions.  A JavaScript [number] holding a price, a size or a score is
    an exact rational ([Q]); the comparisons, [Math.min] and [Math.max] of
    the source are then those of [Q], and NaN and rounding are outside the
    model.  [Doubles] gives [calculateArbitrage], [estimateSlippage] and
    the size check of the coordinator once more on what a [number] is, an
    IEEE 754 binary64 float, with rounding, NaN, the infinities and the
    signed zero; what is stated of the numbers the calculator returns is
    stated there.  Wall-clock readings
    ([Date.now()]) are integers (milliseconds) supplied by the caller.  An
    [async] handler runs to completion before the next event is handled;
    [ReconnectSteps] splits the timer callback of the reconnect handler at
    its [await].  Calls to the logger are dropped, except the errors logged
    by the execution coordinator, which are part of its trace.  Where Rocq's
    flat name space asks for it, a field carries a short prefix of its
    record ([ou_bids], [pp_price]). *)

From Stdlib Require Import Floats.
From Stdlib Require Import ZArith QArith Qminmax Qabs String Ascii List Lia Lqa.
From Stdlib Require Import DecimalString DecimalZ.
From stdpp Require Import gmap strings list.

Import ListNotations.
Local Open Scope Q_scope.

(** ** src/arbitrage/types.ts *)

Record Level : Type := mkLevel { price : Q; size : Q }.

Record Orderbook : Type := mkOrderbook {
  marketId : string;
  bids : list Level;
  asks : list Level;
  timestamp : Z
}.

Record MarketPrices : Type := mkMarketPrices {
  mp_marketId : string;
  yesPrice : Q;
  noPrice : Q;
  yesLiquidity : Q;
  noLiquidity : Q;
  mp_timestamp : Z
}.

Inductive Outcome : Type := yes | no.

Inductive BookSide : Type := bid | ask.

Record ArbitrageCalculation : Type := mkCalculation {
  combinedCost : Q;
  profitPotential : Q;
  opinionSide : Outcome;
  polymarketSide : Outcome;
  recommendedSize : Q;
  estimatedFees : Q;
  netProfit : Q
}.

(** ** src/config/config.ts: the [arbitrage] block of the configuration *)

Record ArbitrageConfig : Type := mkConfig {
  threshold : Q;
  minLiquidity : Q;
  autoExecute : bool;
  maxPositionSize : Q
}.

(** The defaults of [loadConfig]. *)
Definition defaultConfig : ArbitrageConfig :=
  {| threshold := 0.98; minLiquidity := 1000; autoExecute := false;
     maxPositionSize := 10000 |}.

(** ** src/arbitrage/calculator.ts *)

Module Calculator.

Definition OPINION_FEE_RATE : Q := 0.02.
Definition POLYMARKET_FEE_RATE : Q := 0.02.

(** [Math.max(...xs)] and [Math.min(...xs)] on a non-empty spread. *)
Definition maxOf (x : Q) (xs : list Q) : Q := fold_left Qmax xs x.
Definition minOf (x : Q) (xs : list Q) : Q := fold_left Qmin xs x.

Definition extractBestPrice (orderbook : Orderbook) (side : BookSide) : option Q :=
  match side with
  | bid =>
      match map price (bids orderbook) with
      | [] => None
      | p :: ps => Some (maxOf p ps)
      end
  | ask =>
      match map price (asks orderbook) with
      | [] => None
      | p :: ps => Some (minOf p ps)
      end
  end.

(** JavaScript truthiness of an optional number: [undefined] and [0] are
    falsy. *)
Definition truthy (maxPrice : option Q) : option Q :=
  match maxPrice with
  | Some p => if Qeq_bool p 0 then None else Some p
  | None => None
  end.

Definition sumSizes (levels : list Level) : Q :=
  fold_left (fun sum l => sum + size l) levels 0.

Definition calculateLiquidity
    (orderbook : Orderbook) (side : BookSide) (maxPrice : option Q) : Q :=
  match side with
  | bid =>
      let relevantBids :=
        match truthy maxPrice with
        | Some p => List.filter (fun b => Qle_bool p (price b)) (bids orderbook)
        | None => bids orderbook
        end in
      sumSizes relevantBids
  | ask =>
      let relevantAsks :=
        match truthy maxPrice with
        | Some p => List.filter (fun a => Qle_bool (price a) p) (asks orderbook)
        | None => asks orderbook
        end in
      sumSizes relevantAsks
  end.

Record PriceLiquidity : Type := mkPL { pl_price : Q; pl_liquidity : Q }.

Definition extractMarketPrices
    (orderbook : Orderbook) (outcome : Outcome) : option PriceLiquidity :=
  let bestBid := extractBestPrice orderbook bid in
  let bestAsk := extractBestPrice orderbook ask in
  match bestBid, bestAsk with
  | Some bestBid, Some bestAsk =>
      let midPrice := (bestBid + bestAsk) / 2 in
      let liquidity :=
        calculateLiquidity orderbook bid None + calculateLiquidity orderbook ask None in
      Some {| pl_price := midPrice; pl_liquidity := liquidity |}
  | _, _ => None
  end.

(** [a < b] and [a <= b] of the source as booleans. *)
Definition Qltb (a b : Q) : bool := negb (Qle_bool b a).

Definition min3 (a b c : Q) : Q := Qmin (Qmin a b) c.

(** The two arbitrage paths: buy YES on Opinion and NO on Polymarket, or
    buy NO on Opinion and YES on Polymarket. *)
Definition path1Cost (opinionPrices polymarketPrices : MarketPrices) : Q :=
  yesPrice opinionPrices + noPrice polymarketPrices.
Definition path2Cost (opinionPrices polymarketPrices : MarketPrices) : Q :=
  noPrice opinionPrices + yesPrice polymarketPrices.

Definition calculateArbitrage
    (config : ArbitrageConfig)
    (opinionPrices polymarketPrices : MarketPrices) : option ArbitrageCalculation :=
  let path1Cost := path1Cost opinionPrices polymarketPrices in
  let path2Cost := path2Cost opinionPrices polymarketPrices in
  let bestPath1 := Qltb path1Cost path2Cost in
  let combinedCost := if bestPath1 then path1Cost else path2Cost in
  if Qle_bool (threshold config) combinedCost then None
  else
    let profitPotential := 1 - combinedCost in
    let opinionSide := if bestPath1 then yes else no in
    let polymarketSide := if bestPath1 then no else yes in
    let opinionLiquidity :=
      match opinionSide with
      | yes => yesLiquidity opinionPrices
      | no => noLiquidity opinionPrices
      end in
    let polymarketLiquidity :=
      match polymarketSide with
      | yes => yesLiquidity polymarketPrices
      | no => noLiquidity polymarketPrices
      end in
    let recommendedSize :=
      min3 opinionLiquidity polymarketLiquidity (maxPositionSize config) in
    if Qltb recommendedSize (minLiquidity config) then None
    else
      let opinionFee := recommendedSize * OPINION_FEE_RATE in
      let polymarketFee := recommendedSize * POLYMARKET_FEE_RATE in
      let estimatedFees := opinionFee + polymarketFee in
      let grossProfit := recommendedSize * profitPotential in
      let netProfit := grossProfit - estimatedFees in
      if Qle_bool netProfit 0 then None
      else
        Some {| combinedCost := combinedCost;
                profitPotential := profitPotential;
                opinionSide := opinionSide;
                polymarketSide := polymarketSide;
                recommendedSize := recommendedSize;
                estimatedFees := estimatedFees;
                netProfit := netProfit |}.

(** [Array.prototype.sort] with a comparator: the stable sort.  [before a b]
    tells that the comparator does not put [a] after [b]. *)
Fixpoint insertSorted (before : Level -> Level -> bool) (x : Level) (l : list Level)
  : list Level :=
  match l with
  | [] => [x]
  | y :: l' => if before x y then x :: y :: l' else y :: insertSorted before x l'
  end.

Definition sortLevels (before : Level -> Level -> bool) (l : list Level) : list Level :=
  fold_right (insertSorted before) [] l.

Inductive TradeSide : Type := buySide | sellSide.

(** The filling loop of [estimateSlippage]: the remaining size, the cost and
    the size filled so far. *)
Fixpoint fillOrders (orders : list Level) (remainingSize totalCost totalSize : Q)
  : Q * Q :=
  match orders with
  | [] => (totalCost, totalSize)
  | order :: rest =>
      if Qle_bool remainingSize 0 then (totalCost, totalSize)
      else
        let fillSize := Qmin remainingSize (size order) in
        fillOrders rest (remainingSize - fillSize)
          (totalCost + fillSize * price order) (totalSize + fillSize)
  end.

Definition estimateSlippage (orderbook : Orderbook) (size : Q) (side : TradeSide) : Q :=
  let sortedOrders :=
    match side with
    | buySide =>
        sortLevels (fun a b => Qle_bool (price a) (price b)) (asks orderbook)
    | sellSide =>
        sortLevels (fun a b => Qle_bool (price b) (price a)) (bids orderbook)
    end in
  let '(totalCost, totalSize) := fillOrders sortedOrders size 0 0 in
  if Qeq_bool totalSize 0 then 0 else totalCost / totalSize.

Definition validateLiquidity (orderbook : Orderbook) (requiredSize : Q)
    (maxPrice : option Q) : bool :=
  let bidLiquidity := calculateLiquidity orderbook bid maxPrice in
  let askLiquidity := calculateLiquidity orderbook ask maxPrice in
  Qle_bool requiredSize (Qmin bidLiquidity askLiquidity).

End Calculator.

(** ** src/database/models/marketMapping.ts

    The [market_mappings] table is a list of rows in table order; [id],
    [created_at] and [updated_at] play no part in what follows and are left
    out.  A column that may be [null] is an [option]. *)

Record MarketMapping : Type := mkMapping {
  canonical_market_id : string;
  opinion_market_id : option string;
  polymarket_market_id : option string;
  market_title : string;
  similarity_score : option Q
}.

Record CreateMarketMappingInput : Type := mkMappingInput {
  in_canonical_market_id : string;
  in_opinion_market_id : option string;
  in_polymarket_market_id : option string;
  in_market_title : string;
  in_similarity_score : option Q
}.

Module MarketMappingModel.

(** [x || null] on an optional string: the empty string is falsy. *)
Definition orNull (x : option string) : option string :=
  match x with
  | Some s => if decide (s = EmptyString) then None else Some s
  | None => None
  end.

(** [x || null] on an optional number: zero is falsy. *)
Definition orNullQ (x : option Q) : option Q :=
  match x with
  | Some q => if Qeq_bool q 0 then None else Some q
  | None => None
  end.

(** [INSERT INTO market_mappings ... RETURNING *].  The insert is refused
    (the model throws) when the [UNIQUE] constraint on
    [canonical_market_id] or the [at_least_one_market] check fails. *)
Definition create (table : list MarketMapping) (input : CreateMarketMappingInput)
  : option (list MarketMapping) :=
  let row := {| canonical_market_id := in_canonical_market_id input;
                opinion_market_id := orNull (in_opinion_market_id input);
                polymarket_market_id := orNull (in_polymarket_market_id input);
                market_title := in_market_title input;
                similarity_score := orNullQ (in_similarity_score input) |} in
  if existsb (fun r => bool_decide (canonical_market_id r = canonical_market_id row)) table
  then None
  else
    match opinion_market_id row, polymarket_market_id row with
    | None, None => None
    | _, _ => Some (table ++ [row])
    end.

(** [SELECT * ... WHERE col = $1] followed by [rows[0] || null]. *)
Definition findByCanonicalId (table : list MarketMapping) (canonicalId : string)
  : option MarketMapping :=
  List.find (fun r => bool_decide (canonical_market_id r = canonicalId)) table.

Definition findByOpinionId (table : list MarketMapping) (opinionId : string)
  : option MarketMapping :=
  List.find (fun r => bool_decide (opinion_market_id r = Some opinionId)) table.

Definition findByPolymarketId (table : list MarketMapping) (polymarketId : string)
  : option MarketMapping :=
  List.find (fun r => bool_decide (polymarket_market_id r = Some polymarketId)) table.

(** [UPDATE market_mappings SET ... WHERE canonical_market_id = $n]: a
    field of [updates] that is [undefined] is left alone. *)
Record Updates : Type := mkUpdates {
  up_opinion_market_id : option string;
  up_polymarket_market_id : option string;
  up_market_title : option string;
  up_similarity_score : option Q
}.

Definition applyUpdates (u : Updates) (r : MarketMapping) : MarketMapping :=
  {| canonical_market_id := canonical_market_id r;
     opinion_market_id :=
       match up_opinion_market_id u with
       | Some v => Some v | None => opinion_market_id r end;
     polymarket_market_id :=
       match up_polymarket_market_id u with
       | Some v => Some v | None => polymarket_market_id r end;
     market_title :=
       match up_market_title u with
       | Some v => v | None => market_title r end;
     similarity_score :=
       match up_similarity_score u with
       | Some v => Some v | None => similarity_score r end |}.

Definition update (table : list MarketMapping) (canonicalId : string) (u : Updates)
  : list MarketMapping :=
  map (fun r => if bool_decide (canonical_market_id r = canonicalId)
                then applyUpdates u r else r) table.

Definition getAll (table : list MarketMapping) : list MarketMapping := table.

End MarketMappingModel.

(** ** src/websocket/opinionClient.ts, polymarketClient.ts: the order-book
       updates the clients emit *)

Record OrderbookUpdate : Type := mkOpinionUpdate {
  ou_marketId : string;
  ou_bids : list Level;
  ou_asks : list Level;
  ou_timestamp : Z
}.

(** Polymarket levels carry their numbers as strings. *)
Record StrLevel : Type := mkStrLevel { s_price : string; s_size : string }.

Record PolymarketOrderbookUpdate : Type := mkPolymarketUpdate {
  pu_marketId : string;
  pu_bids : list StrLevel;
  pu_asks : list StrLevel;
  pu_timestamp : Z
}.

(** ** src/arbitrage/detector.ts *)

Record ArbitrageOpportunity : Type := mkOpportunity {
  op_id : string;
  canonicalMarketId : string;
  opinionMarketId : string;
  polymarketMarketId : string;
  op_combinedCost : Q;
  op_profitPotential : Q;
  opinionYesPrice : Q;
  opinionNoPrice : Q;
  polymarketYesPrice : Q;
  polymarketNoPrice : Q;
  opinionLiquidity : Q;
  polymarketLiquidity : Q;
  op_recommendedSize : Q;
  detectedAt : Z
}.

Record CreateOpportunityInput : Type := mkOpportunityInput {
  ci_canonical_market_id : string;
  ci_combined_cost : Q;
  ci_profit_potential : Q;
  ci_opinion_price_yes : Q;
  ci_opinion_price_no : Q;
  ci_polymarket_price_yes : Q;
  ci_polymarket_price_no : Q;
  ci_liquidity_opinion : Q;
  ci_liquidity_polymarket : Q
}.

Module Detector.

Record MarketOrderbooks : Type := mkBooks {
  mo_opinion : option OrderbookUpdate;
  mo_polymarket : option PolymarketOrderbookUpdate
}.

(** What the detector keeps between events: the fused books per canonical
    id, and the [opportunity] events published so far (oldest first). *)
Record State : Type := mkState {
  orderbooks : gmap string MarketOrderbooks;
  emitted : list ArbitrageOpportunity
}.

Definition initial : State := {| orderbooks := ∅; emitted := [] |}.

(** What the handler of one event reads from outside: the configuration,
    the clock, the mapping table, and the outcome of the insert into
    [arbitrage_opportunities] ([Some id] is the id of the saved row,
    [None] a [DatabaseError]). *)
Record Env : Type := mkEnv {
  config : ArbitrageConfig;
  now : Z;
  mappings : list MarketMapping;
  createOpportunity : CreateOpportunityInput -> option string
}.

Section WithParseFloat.

(** The built-in [parseFloat]. *)
Variable parseFloat : string -> Q.

Definition parseLevel (l : StrLevel) : Level :=
  {| price := parseFloat (s_price l); size := parseFloat (s_size l) |}.

Definition opinionBook (marketId : string) (u : OrderbookUpdate) : Orderbook :=
  {| marketId := marketId; bids := ou_bids u; asks := ou_asks u;
     timestamp := ou_timestamp u |}.

Definition polymarketBook (marketId : string) (u : PolymarketOrderbookUpdate)
  : Orderbook :=
  {| marketId := marketId;
     bids := map parseLevel (pu_bids u);
     asks := map parseLevel (pu_asks u);
     timestamp := pu_timestamp u |}.

(** The [MarketPrices] record [checkArbitrage] builds from the two
    extractions of one venue's book. *)
Definition marketPrices (marketId : string) (clock : Z)
    (pYes pNo : Calculator.PriceLiquidity) : MarketPrices :=
  {| mp_marketId := marketId;
     yesPrice := Calculator.pl_price pYes;
     noPrice := Calculator.pl_price pNo;
     yesLiquidity := Calculator.pl_liquidity pYes;
     noLiquidity := Calculator.pl_liquidity pNo;
     mp_timestamp := clock |}.

(** The part of [checkArbitrage] up to [calculateArbitrage]: the prices
    of both venues and the calculation, when there is one. *)
Definition evaluate (env : Env) (opinionId polymarketId : string)
    (books : MarketOrderbooks)
  : option (MarketPrices * MarketPrices * ArbitrageCalculation) :=
  match mo_opinion books, mo_polymarket books with
  | Some o, Some p =>
      let opinionYes := Calculator.extractMarketPrices (opinionBook opinionId o) yes in
      let opinionNo := Calculator.extractMarketPrices (opinionBook opinionId o) no in
      let polymarketYes :=
        Calculator.extractMarketPrices (polymarketBook polymarketId p) yes in
      let polymarketNo :=
        Calculator.extractMarketPrices (polymarketBook polymarketId p) no in
      match opinionYes, opinionNo, polymarketYes, polymarketNo with
      | Some oy, Some on, Some py, Some pn =>
          let opinionPrices := marketPrices opinionId (now env) oy on in
          let polymarketPrices := marketPrices polymarketId (now env) py pn in
          match Calculator.calculateArbitrage (config env)
                  opinionPrices polymarketPrices with
          | Some calculation => Some (opinionPrices, polymarketPrices, calculation)
          | None => None
          end
      | _, _, _, _ => None
      end
  | _, _ => None
  end.

Definition checkArbitrage (env : Env) (st : State) (canonicalId : string) : State :=
  match orderbooks st !! canonicalId with
  | None => st
  | Some books =>
      match MarketMappingModel.findByCanonicalId (mappings env) canonicalId with
      | None => st
      | Some mapping =>
          match MarketMappingModel.orNull (opinion_market_id mapping),
                MarketMappingModel.orNull (polymarket_market_id mapping) with
          | Some opinionId, Some polymarketId =>
              match evaluate env opinionId polymarketId books with
              | None => st
              | Some (opinionPrices, polymarketPrices, calculation) =>
                  let opLiq := Qmin (yesLiquidity opinionPrices)
                                    (noLiquidity opinionPrices) in
                  let pmLiq := Qmin (yesLiquidity polymarketPrices)
                                    (noLiquidity polymarketPrices) in
                  let input :=
                    {| ci_canonical_market_id := canonicalId;
                       ci_combined_cost := combinedCost calculation;
                       ci_profit_potential := profitPotential calculation;
                       ci_opinion_price_yes := yesPrice opinionPrices;
                       ci_opinion_price_no := noPrice opinionPrices;
                       ci_polymarket_price_yes := yesPrice polymarketPrices;
                       ci_polymarket_price_no := noPrice polymarketPrices;
                       ci_liquidity_opinion := opLiq;
                       ci_liquidity_polymarket := pmLiq |} in
                  match createOpportunity env input with
                  | None => st
                  | Some savedId =>
                      let opportunity :=
                        {| op_id := savedId;
                           canonicalMarketId := canonicalId;
                           opinionMarketId := opinionId;
                           polymarketMarketId := polymarketId;
                           op_combinedCost := combinedCost calculation;
                           op_profitPotential := profitPotential calculation;
                           opinionYesPrice := yesPrice opinionPrices;
                           opinionNoPrice := noPrice opinionPrices;
                           polymarketYesPrice := yesPrice polymarketPrices;
                           polymarketNoPrice := noPrice polymarketPrices;
                           opinionLiquidity := opLiq;
                           polymarketLiquidity := pmLiq;
                           op_recommendedSize := recommendedSize calculation;
                           detectedAt := now env |} in
                      {| orderbooks := orderbooks st;
                         emitted := emitted st ++ [opportunity] |}
                  end
              end
          | _, _ => st
          end
      end
  end.

Definition booksOf (st : State) (canonicalId : string) : MarketOrderbooks :=
  default {| mo_opinion := None; mo_polymarket := None |}
          (orderbooks st !! canonicalId).

Definition handleOpinionOrderbook (env : Env) (st : State) (update : OrderbookUpdate)
  : State :=
  match MarketMappingModel.findByOpinionId (mappings env) (ou_marketId update) with
  | Some mapping =>
      let canonicalId := canonical_market_id mapping in
      let books := booksOf st canonicalId in
      let st' :=
        {| orderbooks :=
             <[canonicalId := {| mo_opinion := Some update;
                                 mo_polymarket := mo_polymarket books |}]>
               (orderbooks st);
           emitted := emitted st |} in
      checkArbitrage env st' canonicalId
  | None => st
  end.

Definition handlePolymarketOrderbook (env : Env) (st : State)
    (update : PolymarketOrderbookUpdate) : State :=
  match MarketMappingModel.findByPolymarketId (mappings env) (pu_marketId update) with
  | Some mapping =>
      let canonicalId := canonical_market_id mapping in
      let books := booksOf st canonicalId in
      let st' :=
        {| orderbooks :=
             <[canonicalId := {| mo_opinion := mo_opinion books;
                                 mo_polymarket := Some update |}]>
               (orderbooks st);
           emitted := emitted st |} in
      checkArbitrage env st' canonicalId
  | None => st
  end.

End WithParseFloat.

(** The order-book events of a run, each with the environment its handler
    sees. *)
Inductive Event : Type :=
| OpinionOrderbook (env : Env) (update : OrderbookUpdate)
| PolymarketOrderbook (env : Env) (update : PolymarketOrderbookUpdate).

Definition step (parseFloat : string -> Q) (st : State) (e : Event) : State :=
  match e with
  | OpinionOrderbook env u => handleOpinionOrderbook parseFloat env st u
  | PolymarketOrderbook env u => handlePolymarketOrderbook parseFloat env st u
  end.

Definition run (parseFloat : string -> Q) (es : list Event) : State :=
  fold_left (step parseFloat) es initial.



(** The environment the handler of an event runs in. *)
Definition envOf (e : Event) : Env :=
  match e with
  | OpinionOrderbook env _ => env
  | PolymarketOrderbook env _ => env
  end.

End Detector.

(** ** [parseFloat] on plain decimal literals

    The built-in is a parameter of the detector; this reading of an optional
    sign, digits, and an optional fraction is what it returns on the
    literals of the scenarios below. *)

Definition digitOf (c : ascii) : option Z :=
  let n := Z.of_nat (nat_of_ascii c) in
  if ((48 <=? n) && (n <=? 57))%Z then Some (n - 48)%Z else None.

Fixpoint parseFrom (s : string) (num : Z) (den : positive) (frac : bool) : Q :=
  match s with
  | EmptyString => num # den
  | String c s' =>
      match digitOf c with
      | Some d => parseFrom s' (num * 10 + d)%Z (if frac then (den * 10)%positive else den) frac
      | None =>
          if (Ascii.eqb c "." && negb frac)%bool then parseFrom s' num den true
          else num # den
      end
  end.

Definition parseDecimal (s : string) : Q :=
  match s with
  | String "-" s' => - parseFrom s' 0 1 false
  | _ => parseFrom s 0 1 false
  end.

(** ** The contract in the words of the specification

    These definitions restate sections 3 and 4.4 of the specification; the
    theorems below compare them with [Calculator.calculateArbitrage], with
    the detector's runs and with the table left by market-sync. *)

Module Spec.

(** "Choose the cheaper; call it combined_cost." *)
Definition combined_cost (a b : MarketPrices) : Q :=
  Qmin (yesPrice a + noPrice b) (noPrice a + yesPrice b).

(** Leg 1 (YES on A, NO on B) is the chosen one when it is strictly
    cheaper, leg 2 otherwise. *)
Definition depth_on_chosen_A_side (a b : MarketPrices) : Q :=
  if Qlt_le_dec (yesPrice a + noPrice b) (noPrice a + yesPrice b)
  then yesLiquidity a else noLiquidity a.

Definition depth_on_chosen_B_side (a b : MarketPrices) : Q :=
  if Qlt_le_dec (yesPrice a + noPrice b) (noPrice a + yesPrice b)
  then noLiquidity b else yesLiquidity b.

(** "recommended_size = min(depth_on_chosen_A_side, depth_on_chosen_B_side,
    max_position_size)". *)
Definition recommended_size (cfg : ArbitrageConfig) (a b : MarketPrices) : Q :=
  Qmin (Qmin (depth_on_chosen_A_side a b) (depth_on_chosen_B_side a b))
       (maxPositionSize cfg).

(** "net_profit = gross_profit − estimated_fees" with both venue fee rates
    at their value of 0.02. *)
Definition venue_a_fee_rate : Q := 0.02.
Definition venue_b_fee_rate : Q := 0.02.

Definition net_profit (cfg : ArbitrageConfig) (a b : MarketPrices) : Q :=
  recommended_size cfg a b * (1 - combined_cost a b)
  - recommended_size cfg a b * (venue_a_fee_rate + venue_b_fee_rate).

(** The three admission conditions. *)
Definition admitted (cfg : ArbitrageConfig) (a b : MarketPrices) : Prop :=
  combined_cost a b < threshold cfg
  /\ minLiquidity cfg <= recommended_size cfg a b
  /\ 0 < net_profit cfg a b.



(** "Each venue_market_id belongs to at most one canonical_id": two rows
    with different canonical ids share neither their Opinion market id nor
    their Polymarket market id. *)
Definition venue_ids_unique (table : list MarketMapping) : Prop :=
  forall r1 r2, r1 ∈ table -> r2 ∈ table ->
    canonical_market_id r1 <> canonical_market_id r2 ->
    (forall v, opinion_market_id r1 = Some v -> opinion_market_id r2 <> Some v)
    /\ (forall v, polymarket_market_id r1 = Some v -> polymarket_market_id r2 <> Some v).

End Spec.

(** ** Scenario data

    The books of scenario S1 of the specification: on Opinion market [A1]
    best bid 0.44 and best ask 0.46 with depth 2000, on Polymarket market
    [B1] best bid 0.49 and best ask 0.51 with depth 3000, the two mapped to
    one canonical market. *)

Module Scenario.

Definition cfg : ArbitrageConfig :=
  {| threshold := 0.98; minLiquidity := 1000; autoExecute := true;
     maxPositionSize := 5000 |}.

Definition opinionUpdate : OrderbookUpdate :=
  {| ou_marketId := "A1";
     ou_bids := [ {| price := 0.44; size := 1000 |} ];
     ou_asks := [ {| price := 0.46; size := 1000 |} ];
     ou_timestamp := 0 |}.

Definition polymarketUpdate : PolymarketOrderbookUpdate :=
  {| pu_marketId := "B1";
     pu_bids := [ {| s_price := "0.49"; s_size := "1500" |} ];
     pu_asks := [ {| s_price := "0.51"; s_size := "1500" |} ];
     pu_timestamp := 0 |}.

Definition opinionBook : Orderbook := Detector.opinionBook "A1" opinionUpdate.

Definition polymarketBook : Orderbook :=
  Detector.polymarketBook parseDecimal "B1" polymarketUpdate.

Definition mapping : MarketMapping :=
  {| canonical_market_id := "market-btc-100k-1700000000000";
     opinion_market_id := Some "A1"%string;
     polymarket_market_id := Some "B1"%string;
     market_title := "Will BTC hit 100k";
     similarity_score := Some 0.9 |}.

(** The environment of a handler running at time [t]; every insert into
    [arbitrage_opportunities] succeeds and the saved row gets id
    [opp-1]. *)
Definition envAt (t : Z) : Detector.Env :=
  {| Detector.config := cfg;
     Detector.now := t;
     Detector.mappings := [mapping];
     Detector.createOpportunity := fun _ => Some "opp-1"%string |}.

(** The prices the detector derives from the two books. *)
Definition opinionPrices : MarketPrices :=
  {| mp_marketId := "A1"; yesPrice := 0.45; noPrice := 0.45;
     yesLiquidity := 2000; noLiquidity := 2000; mp_timestamp := 0 |}.

Definition polymarketPrices : MarketPrices :=
  {| mp_marketId := "B1"; yesPrice := 0.5; noPrice := 0.5;
     yesLiquidity := 3000; noLiquidity := 3000; mp_timestamp := 0 |}.

(** Both books arrive, then the Polymarket book is delivered once more
    100 ms later. *)
Definition events : list Detector.Event :=
  [ Detector.OpinionOrderbook (envAt 0) opinionUpdate;
    Detector.PolymarketOrderbook (envAt 0) polymarketUpdate;
    Detector.PolymarketOrderbook (envAt 100) polymarketUpdate ].

End Scenario.

(** ** src/websocket/opinionClient.ts, src/websocket/polymarketClient.ts

    A client is its fields plus two logs: the frames handed to [ws.send],
    oldest first, and the events it emitted.  [subscribedMarkets] is a
    JavaScript [Set], kept as the list of its elements in insertion order.
    The socket is the [readyState] of the current [WebSocket] object, or
    [None] for [null]; [ws.send] on an open socket does not throw. *)

Inductive ReadyState : Type := CONNECTING | OPEN | CLOSING | CLOSED.

#[global] Instance ReadyState_eq_dec : EqDecision ReadyState.
Proof. solve_decision. Defined.

Inductive Frame : Type :=
| Subscribe (marketId : string)
| Unsubscribe (marketId : string)
| Auth (apiKey : string).

Inductive ClientEvent : Type := connected | disconnected.

(** [Set.prototype.add] and [Set.prototype.delete]. *)
Definition setAdd (x : string) (s : list string) : list string :=
  if bool_decide (x ∈ s) then s else s ++ [x].

Definition setDelete (x : string) (s : list string) : list string :=
  List.filter (fun y => negb (bool_decide (y = x))) s.

Module OpinionClient.

Record Client : Type := mkClient {
  ws : option ReadyState;
  isConnected : bool;
  subscribedMarkets : list string;
  sent : list Frame;
  events : list ClientEvent
}.

Definition initial : Client :=
  {| ws := None; isConnected := false; subscribedMarkets := [];
     sent := []; events := [] |}.

(** [this.isConnected && this.ws && this.ws.readyState === WebSocket.OPEN] *)
Definition streamOpen (c : Client) : bool :=
  isConnected c && bool_decide (ws c = Some OPEN).

Definition subscribeToMarket (marketId : string) (c : Client) : Client :=
  if negb (streamOpen c) then c
  else if bool_decide (marketId ∈ subscribedMarkets c) then c
  else {| ws := ws c; isConnected := isConnected c;
          subscribedMarkets := setAdd marketId (subscribedMarkets c);
          sent := sent c ++ [Subscribe marketId];
          events := events c |}.

Definition unsubscribeFromMarket (marketId : string) (c : Client) : Client :=
  if negb (streamOpen c) then c
  else if negb (bool_decide (marketId ∈ subscribedMarkets c)) then c
  else {| ws := ws c; isConnected := isConnected c;
          subscribedMarkets := setDelete marketId (subscribedMarkets c);
          sent := sent c ++ [Unsubscribe marketId];
          events := events c |}.

(** [for (const marketId of this.subscribedMarkets) this.subscribeToMarket(marketId)] *)
Definition resubscribe (c : Client) : Client :=
  fold_left (fun c marketId => subscribeToMarket marketId c) (subscribedMarkets c) c.

(** [connect()] up to the creation of the socket. *)
Definition connect (c : Client) : Client :=
  if streamOpen c then c
  else {| ws := Some CONNECTING; isConnected := isConnected c;
          subscribedMarkets := subscribedMarkets c;
          sent := sent c; events := events c |}.

(** The socket's [open] handler. *)
Definition onOpen (c : Client) : Client :=
  let c1 := {| ws := Some OPEN; isConnected := true;
               subscribedMarkets := subscribedMarkets c;
               sent := sent c; events := events c |} in
  let c2 := resubscribe c1 in
  {| ws := ws c2; isConnected := isConnected c2;
     subscribedMarkets := subscribedMarkets c2;
     sent := sent c2; events := events c2 ++ [connected] |}.

(** The socket's [close] handler; the reconnect it schedules is a later
    [connect]. *)
Definition onClose (c : Client) : Client :=
  {| ws := Some CLOSED; isConnected := false;
     subscribedMarkets := subscribedMarkets c;
     sent := sent c; events := events c ++ [disconnected] |}.

Definition disconnect (c : Client) : Client :=
  {| ws := None; isConnected := false; subscribedMarkets := [];
     sent := sent c; events := events c |}.

(** A reconnect that succeeds: the stream closes, the scheduled
    [connect()] creates a socket, and that socket opens. *)
Definition reconnect (c : Client) : Client := onOpen (connect (onClose c)).

End OpinionClient.

Module PolymarketClient.

Record Client : Type := mkClient {
  ws : option ReadyState;
  isConnected : bool;
  isAuthenticated : bool;
  subscribedMarkets : list string;
  sent : list Frame;
  events : list ClientEvent
}.

Definition initial : Client :=
  {| ws := None; isConnected := false; isAuthenticated := false;
     subscribedMarkets := []; sent := []; events := [] |}.

Definition streamOpen (c : Client) : bool :=
  isConnected c && bool_decide (ws c = Some OPEN).

Definition subscribeToMarket (marketId : string) (c : Client) : Client :=
  if negb (streamOpen c && isAuthenticated c) then c
  else if bool_decide (marketId ∈ subscribedMarkets c) then c
  else {| ws := ws c; isConnected := isConnected c;
          isAuthenticated := isAuthenticated c;
          subscribedMarkets := setAdd marketId (subscribedMarkets c);
          sent := sent c ++ [Subscribe marketId];
          events := events c |}.

Definition unsubscribeFromMarket (marketId : string) (c : Client) : Client :=
  if negb (streamOpen c) then c
  else if negb (bool_decide (marketId ∈ subscribedMarkets c)) then c
  else {| ws := ws c; isConnected := isConnected c;
          isAuthenticated := isAuthenticated c;
          subscribedMarkets := setDelete marketId (subscribedMarkets c);
          sent := sent c ++ [Unsubscribe marketId];
          events := events c |}.

Definition resubscribe (c : Client) : Client :=
  fold_left (fun c marketId => subscribeToMarket marketId c) (subscribedMarkets c) c.

Definition connect (c : Client) : Client :=
  if streamOpen c then c
  else {| ws := Some CONNECTING; isConnected := isConnected c;
          isAuthenticated := isAuthenticated c;
          subscribedMarkets := subscribedMarkets c;
          sent := sent c; events := events c |}.

(** The socket's [open] handler up to the wait inside [authenticate()]:
    the auth frame carrying the API key has been sent. *)
Definition onOpen (apiKey : string) (c : Client) : Client :=
  {| ws := Some OPEN; isConnected := true;
     isAuthenticated := isAuthenticated c;
     subscribedMarkets := subscribedMarkets c;
     sent := sent c ++ [Auth apiKey]; events := events c |}.

(** The rest of the [open] handler, run when [auth_success] arrives. *)
Definition onAuthSuccess (c : Client) : Client :=
  let c1 := {| ws := ws c; isConnected := isConnected c;
               isAuthenticated := true;
               subscribedMarkets := subscribedMarkets c;
               sent := sent c; events := events c |} in
  let c2 := resubscribe c1 in
  {| ws := ws c2; isConnected := isConnected c2;
     isAuthenticated := isAuthenticated c2;
     subscribedMarkets := subscribedMarkets c2;
     sent := sent c2; events := events c2 ++ [connected] |}.

Definition onClose (c : Client) : Client :=
  {| ws := Some CLOSED; isConnected := false; isAuthenticated := false;
     subscribedMarkets := subscribedMarkets c;
     sent := sent c; events := events c ++ [disconnected] |}.

Definition disconnect (c : Client) : Client :=
  {| ws := None; isConnected := false; isAuthenticated := false;
     subscribedMarkets := []; sent := sent c; events := events c |}.

Definition reconnect (apiKey : string) (c : Client) : Client :=
  onAuthSuccess (onOpen apiKey (connect (onClose c))).

End PolymarketClient.

(** The subscribe frames among the frames sent after the first [n]. *)
Definition isSubscribe (marketId : string) (f : Frame) : bool :=
  match f with
  | Subscribe m => bool_decide (m = marketId)
  | _ => false
  end.

Definition subscribesSince (n : nat) (marketId : string) (frames : list Frame) : nat :=
  length (List.filter (isSubscribe marketId) (drop n frames)).

(** Scenario S5: a client that subscribed to [m1] and [m2] on its open
    stream. *)
Module ScenarioS5.

Definition opinion : OpinionClient.Client :=
  OpinionClient.subscribeToMarket "m2"
    (OpinionClient.subscribeToMarket "m1"
       (OpinionClient.onOpen (OpinionClient.connect OpinionClient.initial))).

Definition polymarket : PolymarketClient.Client :=
  PolymarketClient.subscribeToMarket "m2"
    (PolymarketClient.subscribeToMarket "m1"
       (PolymarketClient.onAuthSuccess
          (PolymarketClient.onOpen "key"
             (PolymarketClient.connect PolymarketClient.initial)))).

End ScenarioS5.

(** ** src/trading/types.ts, src/utils/errors.ts *)

Inductive OrderSide : Type := buy | sell.

Inductive Platform : Type := opinion | polymarket.

Inductive OpportunityStatus : Type := detected | executing | executed | expired.

Record PlaceOrderParams : Type := mkPlaceOrderParams {
  pp_marketId : string;
  pp_side : OrderSide;
  pp_outcome : Outcome;
  pp_amount : Q;
  pp_price : Q
}.

Record Order : Type := mkOrder {
  order_id : string;
  order_params : PlaceOrderParams
}.

(** An [ArbitrageError]: its message and its [code]. *)
Record Error : Type := mkError { err_message : string; err_code : string }.

Definition TradingError (message code : string) : Error :=
  {| err_message := message; err_code := code |}.

Definition DatabaseError (message code : string) : Error :=
  {| err_message := message; err_code := code |}.

(** ** src/trading/executor.ts *)

Module Executor.

Record CreateTradeInput : Type := mkTradeInput {
  arbitrage_opportunity_id : string;
  platform : Platform;
  market_id : string;
  side : Outcome;
  amount : Q;
  trade_price : Q;
  trade_order_id : string
}.

Record TradeRef : Type := mkTradeRef {
  tr_id : string; tr_platform : Platform; tr_orderId : string
}.

Record ExecutionResult : Type := mkResult {
  success : bool;
  opportunityId : string;
  opinionOrderId : option string;
  polymarketOrderId : option string;
  error : option string;
  trades : list TradeRef
}.

(** What the coordinator does to the outside, in order: the statements
    sent to the store, the calls to the venues, the events published and
    the errors logged. *)
Inductive Effect : Type :=
| UpdateStatus (id : string) (status : OpportunityStatus)
| CreateTrade (input : CreateTradeInput)
| PlaceOrder (p : Platform) (params : PlaceOrderParams)
| CancelOrder (p : Platform) (orderId : string)
| Emit (event : string) (result : ExecutionResult)
| LogError (message : string).

(** How the outside answers.  [placeOrder] settles with [inr order] or
    rejects with [inl reason]; [cancelOrder] tells whether the cancel went
    through; [dbFails] tells, from the effects so far with the statement
    just sent as the last one, whether the store throws on it;
    [tradeId n] is the id the store gives to the trade row number [n]. *)
Record Venues : Type := mkVenues {
  placeOrder : Platform -> PlaceOrderParams -> string + Order;
  cancelOrder : Platform -> string -> bool;
  dbFails : list Effect -> bool;
  tradeId : nat -> string
}.

Record World : Type := mkWorld {
  executingOpportunities : gset string;
  statuses : gmap string OpportunityStatus;
  tradeRows : list (string * CreateTradeInput);
  effects : list Effect
}.

(** A computation that may throw. *)
Definition M (A : Type) : Type := World -> (Error + A) * World.

Definition ret {A} (a : A) : M A := fun w => (inr a, w).

Definition bind {A B} (m : M A) (k : A -> M B) : M B :=
  fun w => match m w with
           | (inr a, w') => k a w'
           | (inl e, w') => (inl e, w')
           end.

Definition throw {A} (e : Error) : M A := fun w => (inl e, w).

Definition tryCatch {A} (m : M A) (handler : Error -> M A) : M A :=
  fun w => match m w with
           | (inr a, w') => (inr a, w')
           | (inl e, w') => handler e w'
           end.

Definition finally {A} (m : M A) (cleanup : World -> World) : M A :=
  fun w => let '(r, w') := m w in (r, cleanup w').

Declare Scope exec_scope.
Delimit Scope exec_scope with exec.
Notation "x <- m ;; k" := (bind m (fun x => k))
  (at level 100, m at next level, right associativity) : exec_scope.
Notation "m ;;; k" := (bind m (fun _ => k))
  (at level 100, right associativity) : exec_scope.
Local Open Scope exec_scope.

Definition perform (e : Effect) : M unit :=
  fun w => (inr tt,
            {| executingOpportunities := executingOpportunities w;
               statuses := statuses w; tradeRows := tradeRows w;
               effects := effects w ++ [e] |}).

Definition setStatus (id : string) (status : OpportunityStatus) : M unit :=
  fun w => (inr tt,
            {| executingOpportunities := executingOpportunities w;
               statuses := alter (fun _ => status) id (statuses w);
               tradeRows := tradeRows w; effects := effects w |}).

Definition storeThrows (v : Venues) : M bool :=
  fun w => (inr (dbFails v (effects w)), w).

(** [ArbitrageOpportunityModel.updateStatus]: an [UPDATE ... WHERE id]. *)
Definition updateStatus (v : Venues) (id : string) (status : OpportunityStatus)
  : M unit :=
  perform (UpdateStatus id status) ;;;
  failed <- storeThrows v ;;
  if failed : bool
  then throw (DatabaseError "Failed to update opportunity status" "UPDATE_ERROR")
  else setStatus id status.

(** [TradeModel.create]: the row is inserted with status [pending]. *)
Definition createTrade (v : Venues) (input : CreateTradeInput) : M string :=
  perform (CreateTrade input) ;;;
  failed <- storeThrows v ;;
  if failed : bool
  then throw (DatabaseError "Failed to create trade" "CREATE_ERROR")
  else fun w =>
         let id := tradeId v (length (tradeRows w)) in
         (inr id,
          {| executingOpportunities := executingOpportunities w;
             statuses := statuses w;
             tradeRows := tradeRows w ++ [(id, input)];
             effects := effects w |}).

(** One leg handed to [Promise.allSettled]: the call is issued and its
    settlement kept. *)
Definition place (v : Venues) (p : Platform) (params : PlaceOrderParams)
  : M (string + Order) :=
  perform (PlaceOrder p params) ;;; ret (placeOrder v p params).

Definition cancel (v : Venues) (p : Platform) (orderId : string) : M unit :=
  perform (CancelOrder p orderId) ;;;
  if cancelOrder v p orderId then ret tt
  else throw (TradingError "Failed to cancel order" "ORDER_CANCEL_ERROR").

Definition platformName (p : Platform) : string :=
  match p with opinion => "Opinion" | polymarket => "Polymarket" end.

(** The sides and prices of the two legs, as [executeArbitrage] picks
    them. *)
Definition opinionSideOf (opp : ArbitrageOpportunity) : Outcome :=
  if Calculator.Qltb (op_combinedCost opp) 0.98 then yes else no.

Definition polymarketSideOf (opp : ArbitrageOpportunity) : Outcome :=
  if Calculator.Qltb (op_combinedCost opp) 0.98 then no else yes.

Definition opinionPriceOf (opp : ArbitrageOpportunity) : Q :=
  match opinionSideOf opp with
  | yes => opinionYesPrice opp
  | no => opinionNoPrice opp
  end.

Definition polymarketPriceOf (opp : ArbitrageOpportunity) : Q :=
  match polymarketSideOf opp with
  | yes => polymarketYesPrice opp
  | no => polymarketNoPrice opp
  end.

Definition leg (p : Platform) (opp : ArbitrageOpportunity) : PlaceOrderParams :=
  match p with
  | opinion =>
      {| pp_marketId := opinionMarketId opp; pp_side := buy;
         pp_outcome := opinionSideOf opp;
         pp_amount := op_recommendedSize opp;
         pp_price := opinionPriceOf opp |}
  | polymarket =>
      {| pp_marketId := polymarketMarketId opp; pp_side := buy;
         pp_outcome := polymarketSideOf opp;
         pp_amount := op_recommendedSize opp;
         pp_price := polymarketPriceOf opp |}
  end.

Definition tradeInput (p : Platform) (opp : ArbitrageOpportunity) (o : Order)
  : CreateTradeInput :=
  {| arbitrage_opportunity_id := op_id opp;
     platform := p;
     market_id := pp_marketId (leg p opp);
     side := pp_outcome (leg p opp);
     amount := op_recommendedSize opp;
     trade_price := pp_price (leg p opp);
     trade_order_id := order_id o |}.

(** The handling of one settled leg in the failure branch: a rejected leg
    contributes its error text; a placed leg is cancelled, and a failing
    cancel is logged and goes no further. *)
Definition compensate (v : Venues) (p : Platform) (settled : string + Order)
  : M (list string) :=
  match settled with
  | inl reason => ret [(platformName p ++ " order failed: " ++ reason)%string]
  | inr order =>
      tryCatch (cancel v p (order_id order))
               (fun _ => perform (LogError ("Failed to cancel " ++ platformName p
                                            ++ " order")%string)) ;;;
      ret []
  end.

Definition failedResult (opp : ArbitrageOpportunity) (errors : list string)
  : ExecutionResult :=
  {| success := false; opportunityId := op_id opp;
     opinionOrderId := None; polymarketOrderId := None;
     error := Some (String.concat "; " errors); trades := [] |}.

(** The body of the [try] block.  The size check compares rationals; what
    it does on a NaN is [Doubles.sizeLimitExceeded]. *)
Definition tryBody (v : Venues) (config : ArbitrageConfig)
    (opp : ArbitrageOpportunity) : M ExecutionResult :=
  updateStatus v (op_id opp) executing ;;;
  if Calculator.Qltb (maxPositionSize config) (op_recommendedSize opp)
  then throw (TradingError "Recommended size exceeds maximum position size"
                           "SIZE_LIMIT_EXCEEDED")
  else
    opinionOrder <- place v opinion (leg opinion opp) ;;
    polymarketOrder <- place v polymarket (leg polymarket opp) ;;
    match opinionOrder, polymarketOrder with
    | inr opinionResult, inr polymarketResult =>
        opinionTrade <- createTrade v (tradeInput opinion opp opinionResult) ;;
        polymarketTrade <- createTrade v (tradeInput polymarket opp polymarketResult) ;;
        updateStatus v (op_id opp) executed ;;;
        let result :=
          {| success := true; opportunityId := op_id opp;
             opinionOrderId := Some (order_id opinionResult);
             polymarketOrderId := Some (order_id polymarketResult);
             error := None;
             trades :=
               [ {| tr_id := opinionTrade; tr_platform := opinion;
                    tr_orderId := order_id opinionResult |};
                 {| tr_id := polymarketTrade; tr_platform := polymarket;
                    tr_orderId := order_id polymarketResult |} ] |} in
        perform (Emit "execution_success" result) ;;;
        ret result
    | _, _ =>
        errors1 <- compensate v opinion opinionOrder ;;
        errors2 <- compensate v polymarket polymarketOrder ;;
        updateStatus v (op_id opp) expired ;;;
        let result := failedResult opp (errors1 ++ errors2) in
        perform (Emit "execution_failed" result) ;;;
        perform (LogError "Arbitrage execution failed") ;;;
        throw (TradingError
                 ("Execution failed: " ++ String.concat "; " (errors1 ++ errors2))
                 "EXECUTION_FAILED")
    end.

(** The [catch] block. *)
Definition onError (v : Venues) (opp : ArbitrageOpportunity) (e : Error)
  : M ExecutionResult :=
  perform (LogError "Arbitrage execution error") ;;;
  tryCatch (updateStatus v (op_id opp) expired)
           (fun _ => perform (LogError "Failed to update opportunity status")) ;;;
  throw e.

Definition addExecuting (id : string) (w : World) : World :=
  {| executingOpportunities := executingOpportunities w ∪ {[ id ]};
     statuses := statuses w; tradeRows := tradeRows w; effects := effects w |}.

Definition deleteExecuting (id : string) (w : World) : World :=
  {| executingOpportunities := executingOpportunities w ∖ {[ id ]};
     statuses := statuses w; tradeRows := tradeRows w; effects := effects w |}.

Definition executeArbitrage (v : Venues) (config : ArbitrageConfig)
    (opp : ArbitrageOpportunity) : M ExecutionResult :=
  fun w =>
    if bool_decide (op_id opp ∈ executingOpportunities w)
    then throw (TradingError "Opportunity is already being executed"
                             "DUPLICATE_EXECUTION") w
    else
      finally (tryCatch (tryBody v config opp) (onError v opp))
              (deleteExecuting (op_id opp))
              (addExecuting (op_id opp) w).

Definition other (p : Platform) : Platform :=
  match p with opinion => polymarket | polymarket => opinion end.

(** The effects of a partial failure up to the write that ends the failure
    branch: the status write, both placements, one cancel for the leg that
    was placed (with a log entry when the cancel fails), and the write of
    [expired]. *)
Definition compensationEffects (v : Venues) (opp : ArbitrageOpportunity)
    (p : Platform) (order : Order) : list Effect :=
  [ UpdateStatus (op_id opp) executing;
    PlaceOrder opinion (leg opinion opp);
    PlaceOrder polymarket (leg polymarket opp);
    CancelOrder p (order_id order) ]
  ++ (if cancelOrder v p (order_id order) then []
      else [LogError ("Failed to cancel " ++ platformName p ++ " order")%string])
  ++ [ UpdateStatus (op_id opp) expired ].

(** What follows a write the store accepted: the event, the log entry of
    the branch, and the [catch] block with its log entry and its own write
    of [expired]. *)
Definition reportedFailureEffects (opp : ArbitrageOpportunity) (p : Platform)
    (reason : string) : list Effect :=
  let errors := [(platformName (other p) ++ " order failed: " ++ reason)%string] in
  [ Emit "execution_failed" (failedResult opp errors);
    LogError "Arbitrage execution failed";
    LogError "Arbitrage execution error";
    UpdateStatus (op_id opp) expired ].

(** What follows a write the store refused: the [catch] block alone. *)
Definition maskedFailureEffects (opp : ArbitrageOpportunity) : list Effect :=
  [ LogError "Arbitrage execution error";
    UpdateStatus (op_id opp) expired ].

(** The orders placed, in the order of the calls. *)
Definition placedLegs (es : list Effect) : list (Platform * PlaceOrderParams) :=
  flat_map (fun e => match e with
                     | PlaceOrder p params => [(p, params)]
                     | _ => []
                     end) es.

End Executor.

(** An opportunity the detector publishes from books whose prices lie
    outside [0,1]: Opinion quotes 1.2 / 1.4, Polymarket -0.5 / -0.3.  The
    mid prices 1.3 and -0.4 add up to 0.9, below the threshold. *)
Module ScenarioOutOfRange.

Definition opinionUpdate : OrderbookUpdate :=
  {| ou_marketId := "A1";
     ou_bids := [ {| price := 1.2; size := 1000 |} ];
     ou_asks := [ {| price := 1.4; size := 1000 |} ];
     ou_timestamp := 0 |}.

Definition polymarketUpdate : PolymarketOrderbookUpdate :=
  {| pu_marketId := "B1";
     pu_bids := [ {| s_price := "-0.5"; s_size := "1500" |} ];
     pu_asks := [ {| s_price := "-0.3"; s_size := "1500" |} ];
     pu_timestamp := 0 |}.

Definition events : list Detector.Event :=
  [ Detector.OpinionOrderbook (Scenario.envAt 0) opinionUpdate;
    Detector.PolymarketOrderbook (Scenario.envAt 0) polymarketUpdate ].

(** What the detector publishes in that run. *)
Definition published : list ArbitrageOpportunity :=
  Detector.emitted (Detector.run parseDecimal events).

(** Venues that accept every order and every cancel; the store enforces
    its [valid_price] check on trade rows. *)
Definition venues : Executor.Venues :=
  {| Executor.placeOrder := fun p params =>
       inr {| order_id := match p with opinion => "OA1" | polymarket => "OB1" end;
              order_params := params |};
     Executor.cancelOrder := fun _ _ => true;
     Executor.dbFails := fun es =>
       match last es with
       | Some (Executor.CreateTrade input) =>
           negb (Qle_bool 0 (Executor.trade_price input)
                 && Qle_bool (Executor.trade_price input) 1)
       | _ => false
       end;
     Executor.tradeId := fun n => if Nat.eqb n 0 then "T1" else "T2" |}.

Definition world : Executor.World :=
  {| Executor.executingOpportunities := ∅;
     Executor.statuses := {[ "opp-1"%string := detected ]};
     Executor.tradeRows := [];
     Executor.effects := [] |}.

End ScenarioOutOfRange.

(** Scenario S4: the opportunity of S1 is executed, Opinion accepts its leg
    as order [OA1], Polymarket rejects its leg. *)
Module ScenarioS4.

Definition opportunity : ArbitrageOpportunity :=
  {| op_id := "opp-1";
     canonicalMarketId := "market-btc-100k-1700000000000";
     opinionMarketId := "A1";
     polymarketMarketId := "B1";
     op_combinedCost := 0.95;
     op_profitPotential := 0.05;
     opinionYesPrice := 0.45;
     opinionNoPrice := 0.45;
     polymarketYesPrice := 0.5;
     polymarketNoPrice := 0.5;
     opinionLiquidity := 2000;
     polymarketLiquidity := 3000;
     op_recommendedSize := 2000;
     detectedAt := 0 |}.

Definition venues (cancelOk : bool) : Executor.Venues :=
  {| Executor.placeOrder := fun p params =>
       match p with
       | opinion => inr {| order_id := "OA1"; order_params := params |}
       | polymarket => inl "TradingError: Failed to place order: timeout"%string
       end;
     Executor.cancelOrder := fun _ _ => cancelOk;
     Executor.dbFails := fun _ => false;
     Executor.tradeId := fun _ => "T1"%string |}.

Definition world : Executor.World := ScenarioOutOfRange.world.

End ScenarioS4.

(** Scenario S4 with a store that accepts the write of [executing] and
    refuses every write of [expired]. *)
Module ScenarioStoreRefuses.

Definition venues : Executor.Venues :=
  {| Executor.placeOrder := Executor.placeOrder (ScenarioS4.venues true);
     Executor.cancelOrder := fun _ _ => true;
     Executor.dbFails := fun es =>
       match last es with
       | Some (Executor.UpdateStatus _ expired) => true
       | _ => false
       end;
     Executor.tradeId := fun _ => "T1"%string |}.

End ScenarioStoreRefuses.

(** ** src/matching/types.ts *)

Record Market : Type := mkMarket {
  m_id : string;
  m_title : string;
  m_description : option string;
  m_outcomes : list string;
  m_platform : Platform
}.

(** A [Date] is its [getTime()], milliseconds since the epoch; the invalid
    dates are filtered out by [extractDates] before a [NormalizedMarket] is
    built. *)
Record NormalizedMarket : Type := mkNormalized {
  nm_id : string;
  normalizedTitle : string;
  tokens : list string;
  dates : list Z;
  nm_outcomes : list string;
  nm_platform : Platform;
  original : Market
}.

(** ** src/matching/similarity.ts

    JavaScript strings are taken as strings of ASCII characters. *)

Module Similarity.

Definition Qnat (n : nat) : Q := inject_Z (Z.of_nat n).

Definition isWordChar (c : ascii) : bool :=
  let n := nat_of_ascii c in
  ((48 <=? n) && (n <=? 57) || (65 <=? n) && (n <=? 90)
   || (97 <=? n) && (n <=? 122) || (n =? 95))%nat.

Definition isSpace (c : ascii) : bool :=
  let n := nat_of_ascii c in
  ((n =? 32) || (9 <=? n) && (n <=? 13))%nat.

Definition toLowerCase (c : ascii) : ascii :=
  let n := nat_of_ascii c in
  if ((65 <=? n) && (n <=? 90))%nat then ascii_of_nat (n + 32) else c.

(** [.replace(/\s+/g, ' ')] followed by [.trim()]: runs of white space
    become one space, and none is left at either end. *)
Fixpoint collapse (pending : bool) (started : bool) (s : list ascii) : list ascii :=
  match s with
  | [] => []
  | c :: s' =>
      if isSpace c then collapse started started s'
      else (if pending then [" "%char; c] else [c]) ++ collapse false true s'
  end.

Definition normalizeChars (s : list ascii) : list ascii :=
  let lowered := map toLowerCase s in
  let replaced :=
    map (fun c => if isWordChar c || isSpace c then c else " "%char) lowered in
  collapse false false replaced.

Definition normalizeString (str : string) : string :=
  string_of_list_ascii (normalizeChars (list_ascii_of_string str)).

(** [.split(/\s+/)] on a normalised string, whose only white space is
    single spaces between words. *)
Fixpoint splitSpaces (current : list ascii) (s : list ascii) : list (list ascii) :=
  match s with
  | [] => [rev current]
  | c :: s' =>
      if isSpace c then rev current :: splitSpaces [] s'
      else splitSpaces (c :: current) s'
  end.

Definition isDigit (c : ascii) : bool :=
  let n := nat_of_ascii c in ((48 <=? n) && (n <=? 57))%nat.

(** [/^\d+$/.test(token)] *)
Definition pureNumber (token : list ascii) : bool :=
  match token with
  | [] => false
  | _ => forallb isDigit token
  end.

Definition tokenize (text : string) : list string :=
  let normalized := normalizeChars (list_ascii_of_string text) in
  map string_of_list_ascii
    (List.filter (fun token => negb (pureNumber token))
       (List.filter (fun token => (2 <? length token)%nat)
          (splitSpaces [] normalized))).

(** Modelled from the spec: [levenshtein.get] comes from the npm package
    fast-levenshtein, which is not among the sources.  The specification
    calls it the Levenshtein distance; this is the usual recurrence for
    it. *)
Fixpoint levenshtein (s : list ascii) : list ascii -> nat :=
  match s with
  | [] => fun t => length t
  | a :: s' =>
      fix inner (t : list ascii) : nat :=
        match t with
        | [] => S (length s')
        | b :: t' =>
            Nat.min (Nat.min (S (levenshtein s' t)) (S (inner t')))
                    (levenshtein s' t' + (if bool_decide (a = b) then 0 else 1))
        end
  end.

Definition calculateLevenshteinSimilarity (str1 str2 : string) : Q :=
  let maxLen := Nat.max (String.length str1) (String.length str2) in
  if (maxLen =? 0)%nat then 1
  else
    let distance :=
      levenshtein (list_ascii_of_string str1) (list_ascii_of_string str2) in
    1 - Qnat distance / Qnat maxLen.

(** The flags and the counter of the matching loop of
    [calculateJaroSimilarity]. *)
Record Matching : Type := mkMatching {
  str1Matches : list bool;
  str2Matches : list bool;
  matches : nat
}.

(** [Math.floor(Math.max(str1.length, str2.length) / 2) - 1] *)
Definition matchWindow (len1 len2 : nat) : Z :=
  (Z.of_nat (Nat.max len1 len2) / 2 - 1)%Z.

(** The inner loop: the first [j] among the [n] positions from [j] on
    that is free in [str2Matches] and carries the character [c]. *)
Fixpoint findMatch (c : ascii) (s2 : list ascii) (m2 : list bool) (j n : nat)
  : option nat :=
  match n with
  | O => None
  | S n' =>
      if default false (m2 !! j) || negb (bool_decide (s2 !! j = Some c))
      then findMatch c s2 m2 (S j) n'
      else Some j
  end.

Definition windowStart (w : Z) (i : nat) : nat :=
  Z.to_nat (Z.max 0 (Z.of_nat i - w)).

Definition windowEnd (w : Z) (i len2 : nat) : nat :=
  Z.to_nat (Z.min (Z.of_nat i + w + 1) (Z.of_nat len2)).

(** One round of the outer loop. *)
Definition matchStep (s1 s2 : list ascii) (w : Z) (st : Matching) (i : nat)
  : Matching :=
  match s1 !! i with
  | None => st
  | Some c =>
      let start := windowStart w i in
      let stop := windowEnd w i (length s2) in
      match findMatch c s2 (str2Matches st) start (stop - start) with
      | Some j =>
          {| str1Matches := <[i := true]> (str1Matches st);
             str2Matches := <[j := true]> (str2Matches st);
             matches := S (matches st) |}
      | None => st
      end
  end.

Definition findMatches (s1 s2 : list ascii) : Matching :=
  fold_left (matchStep s1 s2 (matchWindow (length s1) (length s2)))
    (seq 0 (length s1))
    {| str1Matches := replicate (length s1) false;
       str2Matches := replicate (length s2) false;
       matches := 0 |}.

(** [while (!str2Matches[k]) k++] on what is left of the second string
    from [k] on. *)
Fixpoint skipUnmatched (l2 : list (ascii * bool)) : list (ascii * bool) :=
  match l2 with
  | (_, false) :: l2' => skipUnmatched l2'
  | _ => l2
  end.

(** The transposition loop; the second argument is the second string from
    [k] on.  Every flag of [str1Matches] has its partner in
    [str2Matches], so the inner [while] finds one; the branch for an
    exhausted second string is there to make the function total. *)
Fixpoint countTranspositions (l1 l2 : list (ascii * bool)) : nat :=
  match l1 with
  | [] => 0
  | (_, false) :: l1' => countTranspositions l1' l2
  | (c, true) :: l1' =>
      match skipUnmatched l2 with
      | (d, _) :: l2' =>
          (if bool_decide (c = d) then 0 else 1) + countTranspositions l1' l2'
      | [] => 0
      end
  end.

Definition calculateJaroSimilarity (str1 str2 : string) : Q :=
  if bool_decide (str1 = str2) then 1
  else
    let s1 := list_ascii_of_string str1 in
    let s2 := list_ascii_of_string str2 in
    if ((length s1 =? 0) || (length s2 =? 0))%nat then 0
    else
      let st := findMatches s1 s2 in
      if (matches st =? 0)%nat then 0
      else
        let transpositions :=
          countTranspositions (zip s1 (str1Matches st)) (zip s2 (str2Matches st)) in
        (Qnat (matches st) / Qnat (length s1)
         + Qnat (matches st) / Qnat (length s2)
         + (Qnat (matches st) - Qnat transpositions / 2) / Qnat (matches st))
        / 3.

(** The loop of [getCommonPrefixLength], with [n] the number of rounds
    left. *)
Fixpoint commonPrefix (s1 s2 : list ascii) (n : nat) : nat :=
  match n, s1, s2 with
  | S n', a :: s1', b :: s2' =>
      if bool_decide (a = b) then S (commonPrefix s1' s2' n') else 0
  | _, _, _ => 0
  end.

Definition getCommonPrefixLength (str1 str2 : string) (maxLength : nat) : nat :=
  let minLength :=
    Nat.min (Nat.min (String.length str1) (String.length str2)) maxLength in
  commonPrefix (list_ascii_of_string str1) (list_ascii_of_string str2) minLength.

Definition calculateJaroWinklerSimilarity (str1 str2 : string) : Q :=
  let jaro := calculateJaroSimilarity str1 str2 in
  let prefixLength := getCommonPrefixLength str1 str2 4 in
  jaro + 0.1 * Qnat prefixLength * (1 - jaro).

Definition calculateTokenOverlap (tokens1 tokens2 : list string) : Q :=
  let set1 : gset string := list_to_set tokens1 in
  let set2 : gset string := list_to_set tokens2 in
  let intersection := set1 ∩ set2 in
  let union := set1 ∪ set2 in
  if (0 <? base.size union)%nat
  then Qnat (base.size intersection) / Qnat (base.size union) else 0.

Definition closeDates (date1 date2 : Z) : bool :=
  let diff := Z.abs (date1 - date2) in
  let daysDiff := inject_Z diff / inject_Z (1000 * 60 * 60 * 24) in
  Qle_bool daysDiff 1.

Definition calculateDateSimilarity (dates1 dates2 : list Z) : Q :=
  if ((length dates1 =? 0) && (length dates2 =? 0))%nat then 1
  else if ((length dates1 =? 0) || (length dates2 =? 0))%nat then 0.5
  else if existsb (fun date1 => existsb (closeDates date1) dates2) dates1 then 1
  else 0.

Definition calculateSimilarity (market1 market2 : NormalizedMarket) : Q :=
  let titleLevenshtein := 0.2 in
  let titleJaroWinkler := 0.3 in
  let tokenOverlap := 0.3 in
  let dateSimilarity := 0.2 in
  let title1 := normalizedTitle market1 in
  let title2 := normalizedTitle market2 in
  let levenshteinScore := calculateLevenshteinSimilarity title1 title2 in
  let jaroWinklerScore := calculateJaroWinklerSimilarity title1 title2 in
  let tokenOverlapScore := calculateTokenOverlap (tokens market1) (tokens market2) in
  let dateSimilarityScore := calculateDateSimilarity (dates market1) (dates market2) in
  let totalScore :=
    levenshteinScore * titleLevenshtein
    + jaroWinklerScore * titleJaroWinkler
    + tokenOverlapScore * tokenOverlap
    + dateSimilarityScore * dateSimilarity in
  Qmin 1 (Qmax 0 totalScore).

(** [normalizeMarket], with the dates found in the text by [extractDates]
    handed in: they come out of the built-in [Date] parser. *)
Definition normalizeMarket (extractDates : string -> list Z) (market : Market)
  : NormalizedMarket :=
  let fullText :=
    (m_title market ++ " " ++ default "" (m_description market))%string in
  {| nm_id := m_id market;
     normalizedTitle := normalizeString (m_title market);
     tokens := tokenize fullText;
     dates := extractDates fullText;
     nm_outcomes := map normalizeString (m_outcomes market);
     nm_platform := m_platform market;
     original := market |}.

End Similarity.

(** ** Vocabulary for the matching loop of [calculateJaroSimilarity]

    The loop assigns characters of the first string to characters of the
    second; the pairs it forms are not stored by the code, only their two
    projections (the flag arrays) are.  The relations below name them. *)

Module JaroMatching.

Definition countTrue (l : list bool) : nat := length (List.filter id l).

(** Position [a] of [s1] may be matched with position [b] of [s2]: same
    character, at most [w] apart. *)
Definition edge (s1 s2 : list ascii) (w : Z) (a b : nat) : Prop :=
  (Z.of_nat a - w <= Z.of_nat b <= Z.of_nat a + w)%Z
  /\ exists c, s1 !! a = Some c /\ s2 !! b = Some c.

(** What holds of the loop state before round [i], with [R] the pairs
    formed so far. *)
Record Inv (s1 s2 : list ascii) (w : Z) (i : nat) (st : Similarity.Matching)
    (R : nat -> nat -> Prop) : Prop := mkInv {
  inv_len1 : length (Similarity.str1Matches st) = length s1;
  inv_len2 : length (Similarity.str2Matches st) = length s2;
  inv_flag1 : forall a, Similarity.str1Matches st !! a = Some true <-> exists b, R a b;
  inv_flag2 : forall b, Similarity.str2Matches st !! b = Some true <-> exists a, R a b;
  inv_fun : forall a b b', R a b -> R a b' -> b = b';
  inv_inj : forall a a' b, R a b -> R a' b -> a = a';
  inv_edge : forall a b, R a b -> (a < i)%nat /\ edge s1 s2 w a b;
  inv_greedy : forall a b, (a < i)%nat -> edge s1 s2 w a b ->
    (exists b', (b' <= b)%nat /\ R a b') \/ (exists a', (a' < a)%nat /\ R a' b);
  inv_count1 : Similarity.matches st = countTrue (Similarity.str1Matches st);
  inv_count2 : Similarity.matches st = countTrue (Similarity.str2Matches st)
}.

(** The same, read without regard to which string is walked: a one-to-one
    set of admissible pairs in which every admissible pair has one of its
    ends matched at or before the other end. *)
Record Greedy (s1 s2 : list ascii) (w : Z) (R : nat -> nat -> Prop) : Prop :=
  mkGreedy {
  gr_edge : forall a b, R a b -> edge s1 s2 w a b;
  gr_fun : forall a b b', R a b -> R a b' -> b = b';
  gr_inj : forall a a' b, R a b -> R a' b -> a = a';
  gr_first : forall a b, edge s1 s2 w a b ->
    (exists b', (b' <= b)%nat /\ R a b') \/ (exists a', (a' <= a)%nat /\ R a' b)
}.

(** The transposition loop compares, position by position, the flagged
    characters of the two strings. *)
Fixpoint mismatches (x y : list ascii) : nat :=
  match x, y with
  | a :: x', b :: y' => (if bool_decide (a = b) then 0 else 1) + mismatches x' y'
  | _, _ => 0%nat
  end.

Definition flagged (l : list (ascii * bool)) : list ascii :=
  map fst (List.filter snd l).

End JaroMatching.

(** Markets for the similarity and matching scenarios.  Their texts hold no
    digit, so [extractDates] finds no date in them. *)
Module ScenarioMarkets.

Definition noDates : string -> list Z := fun _ => [].

(** A market whose title has no word of more than two letters. *)
Definition up : Market :=
  {| m_id := "o9"; m_title := "Up?"; m_description := None;
     m_outcomes := ["yes"; "no"]%string; m_platform := opinion |}.

Definition upNormalized : NormalizedMarket := Similarity.normalizeMarket noDates up.

Definition opinionBtc : Market :=
  {| m_id := "o1"; m_title := "BTC up?"; m_description := None;
     m_outcomes := ["yes"; "no"]%string; m_platform := opinion |}.

Definition polymarketBtc : Market :=
  {| m_id := "p1"; m_title := "BTC up"; m_description := None;
     m_outcomes := ["yes"; "no"]%string; m_platform := polymarket |}.

End ScenarioMarkets.

(** ** src/matching/marketMatcher.ts *)

Inductive Confidence : Type := high | medium | low.

Record MarketMatch : Type := mkMatch {
  canonicalId : string;
  opinionMarket : option Market;
  polymarketMarket : option Market;
  similarityScore : Q;
  confidence : Confidence
}.

Module MarketMatcher.

Definition similarityThreshold : Q := 0.85.

(** [baseTitle.replace(/\s+/g, '-')] *)
Fixpoint dashes (inSpace : bool) (s : list ascii) : list ascii :=
  match s with
  | [] => []
  | c :: s' =>
      if Similarity.isSpace c
      then (if inSpace then [] else ["-"%char]) ++ dashes true s'
      else c :: dashes false s'
  end.

(** [`market-${hash}-${Date.now()}`], with [now] the reading of the
    clock. *)
Definition generateCanonicalId (now : Z) (market1 market2 : NormalizedMarket)
  : string :=
  let baseTitle :=
    if (String.length (normalizedTitle market1)
        <? String.length (normalizedTitle market2))%nat
    then normalizedTitle market1
    else normalizedTitle market2 in
  let hash :=
    string_of_list_ascii
      (map Similarity.toLowerCase
         (take 50 (dashes false (list_ascii_of_string baseTitle)))) in
  ("market-" ++ hash ++ "-" ++ DecimalString.NilZero.string_of_int (Z.to_int now))%string.

Definition getConfidence (score : Q) : Confidence :=
  if Qle_bool 0.95 score then high
  else if Qle_bool 0.85 score then medium
  else low.

(** The inner loop of [matchMarkets]: the best candidate so far among the
    Polymarket markets not yet matched. *)
Definition considerCandidate (matchedPolymarketIds : list string)
    (opinionMarket : NormalizedMarket)
    (bestMatch : option (NormalizedMarket * Q)) (polymarketMarket : NormalizedMarket)
  : option (NormalizedMarket * Q) :=
  if bool_decide (nm_id polymarketMarket ∈ matchedPolymarketIds) then bestMatch
  else
    let similarity := Similarity.calculateSimilarity opinionMarket polymarketMarket in
    if Qle_bool similarityThreshold similarity
    then match bestMatch with
         | None => Some (polymarketMarket, similarity)
         | Some (_, score) =>
             if Calculator.Qltb score similarity
             then Some (polymarketMarket, similarity)
             else bestMatch
         end
    else bestMatch.

(** The state of the outer loop: the matches found, the Polymarket ids
    used up, and the number of clock readings taken. *)
Record Progress : Type := mkProgress {
  found : list MarketMatch;
  matchedPolymarketIds : list string;
  ticks : nat
}.

Definition matchOne (clock : nat -> Z) (normalizedPolymarket : list NormalizedMarket)
    (pr : Progress) (opinionMarket : NormalizedMarket) : Progress :=
  match fold_left (considerCandidate (matchedPolymarketIds pr) opinionMarket)
                  normalizedPolymarket None with
  | Some (best, score) =>
      let canonicalId := generateCanonicalId (clock (ticks pr)) opinionMarket best in
      {| found := found pr ++
                  [ {| canonicalId := canonicalId;
                       opinionMarket := Some (original opinionMarket);
                       polymarketMarket := Some (original best);
                       similarityScore := score;
                       confidence := getConfidence score |} ];
         matchedPolymarketIds := setAdd (nm_id best) (matchedPolymarketIds pr);
         ticks := S (ticks pr) |}
  | None => pr
  end.

(** [matchMarkets] from the two fetched listings on; [clock n] is what
    the [n]-th call of [Date.now()] returns and [tick] the number of calls
    made before. *)
Definition matchMarkets (extractDates : string -> list Z) (clock : nat -> Z)
    (tick : nat) (opinionMarkets polymarketMarkets : list Market)
  : list MarketMatch * nat :=
  let normalizedOpinion := map (Similarity.normalizeMarket extractDates) opinionMarkets in
  let normalizedPolymarket :=
    map (Similarity.normalizeMarket extractDates) polymarketMarkets in
  let pr := fold_left (matchOne clock normalizedPolymarket) normalizedOpinion
              {| found := []; matchedPolymarketIds := []; ticks := tick |} in
  (found pr, ticks pr).

(** One round of the loop of [saveMatches]; an insert the table refuses
    is logged and the loop goes on. *)
Definition saveMatch (table : list MarketMapping) (m : MarketMatch)
  : list MarketMapping :=
  match MarketMappingModel.findByCanonicalId table (canonicalId m) with
  | Some _ =>
      MarketMappingModel.update table (canonicalId m)
        {| MarketMappingModel.up_opinion_market_id := m_id <$> opinionMarket m;
           MarketMappingModel.up_polymarket_market_id := m_id <$> polymarketMarket m;
           MarketMappingModel.up_market_title := None;
           MarketMappingModel.up_similarity_score := Some (similarityScore m) |}
  | None =>
      let title :=
        match MarketMappingModel.orNull (m_title <$> opinionMarket m) with
        | Some t => t
        | None => default "" (MarketMappingModel.orNull (m_title <$> polymarketMarket m))
        end in
      let input :=
        {| in_canonical_market_id := canonicalId m;
           in_opinion_market_id := m_id <$> opinionMarket m;
           in_polymarket_market_id := m_id <$> polymarketMarket m;
           in_market_title := title;
           in_similarity_score := Some (similarityScore m) |} in
      default table (MarketMappingModel.create table input)
  end.

Definition saveMatches (table : list MarketMapping) (ms : list MarketMatch)
  : list MarketMapping :=
  fold_left saveMatch ms table.

(** [syncMarkets]: what a market-sync run does to the table and the
    clock. *)
Definition syncMarkets (extractDates : string -> list Z) (clock : nat -> Z)
    (opinionMarkets polymarketMarkets : list Market)
    (state : list MarketMapping * nat) : list MarketMapping * nat :=
  let '(table, tick) := state in
  let '(ms, tick') :=
    matchMarkets extractDates clock tick opinionMarkets polymarketMarkets in
  (saveMatches table ms, tick').

End MarketMatcher.

(** Two market-sync runs over the same two listings, one minute apart. *)
Module ScenarioSync.

Definition clock (n : nat) : Z := (1700000000000 + 60000 * Z.of_nat n)%Z.

Definition run (state : list MarketMapping * nat) : list MarketMapping * nat :=
  MarketMatcher.syncMarkets ScenarioMarkets.noDates clock
    [ScenarioMarkets.opinionBtc] [ScenarioMarkets.polymarketBtc] state.

Definition afterOne : list MarketMapping := fst (run ([], 0%nat)).

Definition afterTwo : list MarketMapping := fst (run (run ([], 0%nat))).

(** The row a run stores for the pair under canonical id [cid]. *)
Definition row (cid : string) : MarketMapping :=
  {| canonical_market_id := cid;
     opinion_market_id := Some "o1"%string;
     polymarket_market_id := Some "p1"%string;
     market_title := "BTC up?";
     similarity_score := Some 1 |}.

End ScenarioSync.

(** Books for the slippage scenarios: three ask levels that are not in
    price order, and bids that are. *)
Module ScenarioBook.

Definition book : Orderbook :=
  {| marketId := "A1";
     bids := [ {| price := 0.5; size := 200 |}; {| price := 0.45; size := 100 |} ];
     asks := [ {| price := 0.55; size := 100 |}; {| price := 0.6; size := 200 |};
               {| price := 0.52; size := 150 |} ];
     timestamp := 0 |}.

End ScenarioBook.

(** ** Runs of the stream clients

    The calls made on a client and the socket events delivered to it, in
    the order they happen, starting from a freshly constructed client. *)

Definition isUnsubscribe (marketId : string) (f : Frame) : bool :=
  match f with
  | Unsubscribe m => bool_decide (m = marketId)
  | _ => false
  end.

Definition countFrames (p : Frame -> bool) (frames : list Frame) : nat :=
  length (List.filter p frames).

Inductive OpinionOp : Type :=
| OSubscribe (marketId : string)
| OUnsubscribe (marketId : string)
| OConnect
| OSocketOpen
| OSocketClose
| ODisconnect.

Definition opinionStep (c : OpinionClient.Client) (op : OpinionOp)
  : OpinionClient.Client :=
  match op with
  | OSubscribe m => OpinionClient.subscribeToMarket m c
  | OUnsubscribe m => OpinionClient.unsubscribeFromMarket m c
  | OConnect => OpinionClient.connect c
  | OSocketOpen => OpinionClient.onOpen c
  | OSocketClose => OpinionClient.onClose c
  | ODisconnect => OpinionClient.disconnect c
  end.

Definition opinionRun (ops : list OpinionOp) : OpinionClient.Client :=
  fold_left opinionStep ops OpinionClient.initial.

Inductive PolymarketOp : Type :=
| PSubscribe (marketId : string)
| PUnsubscribe (marketId : string)
| PConnect
| PSocketOpen (apiKey : string)
| PAuthSuccess
| PSocketClose
| PDisconnect.

Definition polymarketStep (c : PolymarketClient.Client) (op : PolymarketOp)
  : PolymarketClient.Client :=
  match op with
  | PSubscribe m => PolymarketClient.subscribeToMarket m c
  | PUnsubscribe m => PolymarketClient.unsubscribeFromMarket m c
  | PConnect => PolymarketClient.connect c
  | PSocketOpen apiKey => PolymarketClient.onOpen apiKey c
  | PAuthSuccess => PolymarketClient.onAuthSuccess c
  | PSocketClose => PolymarketClient.onClose c
  | PDisconnect => PolymarketClient.disconnect c
  end.

Definition polymarketRun (ops : list PolymarketOp) : PolymarketClient.Client :=
  fold_left polymarketStep ops PolymarketClient.initial.

(** ** src/arbitrage/detector.ts: [startMonitoring]

    The subscriptions issued for the rows of [market_mappings]; the
    interval it then starts has an empty body. *)
Module Monitoring.

Definition subscribeMapping
    (clients : OpinionClient.Client * PolymarketClient.Client) (mapping : MarketMapping)
  : OpinionClient.Client * PolymarketClient.Client :=
  let '(opinionClient, polymarketClient) := clients in
  let opinionClient :=
    match MarketMappingModel.orNull (opinion_market_id mapping) with
    | Some id => OpinionClient.subscribeToMarket id opinionClient
    | None => opinionClient
    end in
  let polymarketClient :=
    match MarketMappingModel.orNull (polymarket_market_id mapping) with
    | Some id => PolymarketClient.subscribeToMarket id polymarketClient
    | None => polymarketClient
    end in
  (opinionClient, polymarketClient).

Definition startMonitoring (table : list MarketMapping)
    (clients : OpinionClient.Client * PolymarketClient.Client)
  : OpinionClient.Client * PolymarketClient.Client :=
  fold_left subscribeMapping (MarketMappingModel.getAll table) clients.

End Monitoring.

(** ** src/websocket/reconnectHandler.ts

    [connectFn] is modelled by its outcome: whether the promise it returns
    resolves.  [reconnectTimer] stands for a timer that is armed and has not
    fired; the handle of a timer that has fired is cleared to no effect. *)
Module ReconnectHandler.

Record Options : Type := mkOptions {
  maxRetries : nat;
  initialDelay : Q;
  maxDelay : Q;
  backoffMultiplier : Q
}.

(** The defaults of the constructor. *)
Definition defaultOptions : Options :=
  {| maxRetries := 10; initialDelay := 1000; maxDelay := 30000;
     backoffMultiplier := 2 |}.

Inductive HandlerEvent : Type := maxRetriesReached | reconnected.

Record Handler : Type := mkHandler {
  retryCount : nat;
  reconnectTimer : option Q;
  isReconnecting : bool;
  emitted : list HandlerEvent
}.

Definition initial : Handler :=
  {| retryCount := 0; reconnectTimer := None; isReconnecting := false;
     emitted := [] |}.

(** [Math.pow] with a natural exponent, exact: the overflow of the double
    to [Infinity] is outside this model. *)
Fixpoint pow (base : Q) (exponent : nat) : Q :=
  match exponent with
  | O => 1
  | S n => base * pow base n
  end.

Definition delay (options : Options) (retryCount : nat) : Q :=
  Qmin (initialDelay options * pow (backoffMultiplier options) retryCount)
       (maxDelay options).

Definition scheduleReconnect (options : Options) (h : Handler) : Handler :=
  if isReconnecting h then h
  else if (maxRetries options <=? retryCount h)%nat
  then {| retryCount := retryCount h; reconnectTimer := reconnectTimer h;
          isReconnecting := isReconnecting h;
          emitted := emitted h ++ [maxRetriesReached] |}
  else {| retryCount := retryCount h;
          reconnectTimer := Some (delay options (retryCount h));
          isReconnecting := true;
          emitted := emitted h |}.

Definition reset (h : Handler) : Handler :=
  {| retryCount := 0; reconnectTimer := None; isReconnecting := false;
     emitted := emitted h |}.

Definition cancel (h : Handler) : Handler :=
  {| retryCount := retryCount h; reconnectTimer := None; isReconnecting := false;
     emitted := emitted h |}.

(** The callback of the timer, run when the armed timer fires. *)
Definition timerFires (options : Options) (connectResolves : bool) (h : Handler)
  : Handler :=
  match reconnectTimer h with
  | None => h
  | Some _ =>
      let h1 := {| retryCount := S (retryCount h); reconnectTimer := None;
                   isReconnecting := isReconnecting h; emitted := emitted h |} in
      if connectResolves
      then let h2 := reset h1 in
           {| retryCount := retryCount h2; reconnectTimer := reconnectTimer h2;
              isReconnecting := isReconnecting h2;
              emitted := emitted h2 ++ [reconnected] |}
      else scheduleReconnect options
             {| retryCount := retryCount h1; reconnectTimer := reconnectTimer h1;
                isReconnecting := false; emitted := emitted h1 |}
  end.

(** What happens to a handler, in order. *)
Inductive Op : Type :=
| Schedule
| TimerFires (connectResolves : bool)
| Reset
| Cancel.

Definition step (options : Options) (h : Handler) (op : Op) : Handler :=
  match op with
  | Schedule => scheduleReconnect options h
  | TimerFires ok => timerFires options ok h
  | Reset => reset h
  | Cancel => cancel h
  end.

Definition run (options : Options) (ops : list Op) : Handler :=
  fold_left (step options) ops initial.


End ReconnectHandler.

(** A store that refuses every insert into [trades] and accepts the status
    writes, with venues that accept both legs of scenario S4's
    opportunity. *)
Module ScenarioOrphan.

Definition venues : Executor.Venues :=
  {| Executor.placeOrder := fun p params =>
       inr {| order_id := match p with opinion => "OA1" | polymarket => "OB1" end;
              order_params := params |};
     Executor.cancelOrder := fun _ _ => true;
     Executor.dbFails := fun es =>
       match last es with
       | Some (Executor.CreateTrade _) => true
       | _ => false
       end;
     Executor.tradeId := fun n => if Nat.eqb n 0 then "T1" else "T2" |}.

End ScenarioOrphan.

(** ** src/api/routes.ts: [POST /execute/:opportunityId]

    The route from the rows [getActiveOpportunities] returned on. *)
Module Routes.

(** A row of [arbitrage_opportunities]. *)
Record OpportunityRow : Type := mkOpportunityRow {
  row_id : string;
  row_canonical_market_id : string;
  row_combined_cost : Q;
  row_profit_potential : Q;
  row_opinion_price_yes : option Q;
  row_opinion_price_no : option Q;
  row_polymarket_price_yes : option Q;
  row_polymarket_price_no : option Q;
  row_liquidity_opinion : option Q;
  row_liquidity_polymarket : option Q;
  row_detected_at : Z
}.

(** [x ? parseFloat(x.toString()) : 0] on a nullable number. *)
Definition orZero (x : option Q) : Q :=
  match x with
  | Some q => if Qeq_bool q 0 then 0 else q
  | None => 0
  end.

(** "Convert database model to arbitrage opportunity format". *)
Definition arbOpportunity (config : ArbitrageConfig) (targetOpportunity : OpportunityRow)
  : ArbitrageOpportunity :=
  {| op_id := row_id targetOpportunity;
     canonicalMarketId := row_canonical_market_id targetOpportunity;
     opinionMarketId := "";
     polymarketMarketId := "";
     op_combinedCost := row_combined_cost targetOpportunity;
     op_profitPotential := row_profit_potential targetOpportunity;
     opinionYesPrice := orZero (row_opinion_price_yes targetOpportunity);
     opinionNoPrice := orZero (row_opinion_price_no targetOpportunity);
     polymarketYesPrice := orZero (row_polymarket_price_yes targetOpportunity);
     polymarketNoPrice := orZero (row_polymarket_price_no targetOpportunity);
     opinionLiquidity := orZero (row_liquidity_opinion targetOpportunity);
     polymarketLiquidity := orZero (row_liquidity_polymarket targetOpportunity);
     op_recommendedSize :=
       Calculator.min3 (orZero (row_liquidity_opinion targetOpportunity))
                       (orZero (row_liquidity_polymarket targetOpportunity))
                       (maxPositionSize config);
     detectedAt := row_detected_at targetOpportunity |}.

Inductive Response : Type :=
| Json (result : Executor.ExecutionResult)
| Status (code : nat) (error : string).

(** [error.message || 'Failed to execute arbitrage'] *)
Definition messageOf (e : Error) : string :=
  if decide (err_message e = EmptyString) then "Failed to execute arbitrage"
  else err_message e.

Definition execute (v : Executor.Venues) (config : ArbitrageConfig)
    (active : list OpportunityRow) (opportunityId : string)
  : Executor.World -> Response * Executor.World :=
  fun w =>
    if negb (autoExecute config) then (Status 403 "Auto-execution is disabled", w)
    else
      match List.find (fun o => bool_decide (row_id o = opportunityId)) active with
      | None => (Status 404 "Opportunity not found or not active", w)
      | Some targetOpportunity =>
          match Executor.executeArbitrage v config
                  (arbOpportunity config targetOpportunity) w with
          | (inr result, w') => (Json result, w')
          | (inl e, w') => (Status 500 (messageOf e), w')
          end
      end.

End Routes.

(** ** src/trading/executor.ts: [cancelExecution] and [checkOrderStatuses]

    The [trades] table is kept oldest row first, so [ORDER BY created_at
    DESC] reads it backwards.  The venues and the store answer as [Outside]
    says: whether a cancel goes through, what [getOrderStatus] returns
    ([None] when it throws), and which statements the store refuses. *)

Inductive TradeStatus : Type := tradePending | tradeFilled | tradeCancelled | tradeFailed.

Inductive OrderStatus : Type :=
  orderPending | orderOpen | orderFilled | orderCancelled | orderFailed.

Module ExecutorTrades.

Record Trade : Type := mkTrade {
  trade_id : string;
  trade_opportunity_id : option string;
  trade_platform : Platform;
  trade_order_id : option string;
  trade_status : TradeStatus;
  executed_at : bool
}.

Inductive Call : Type :=
| CancelOrder (p : Platform) (orderId : string)
| GetOrderStatus (p : Platform) (orderId : string)
| UpdateTrade (id : string) (status : TradeStatus)
| UpdateOpportunity (id : string) (status : OpportunityStatus)
| LogError (message : string).

Record Outside : Type := mkOutside {
  cancelOrder : Platform -> string -> bool;
  getOrderStatus : Platform -> string -> option (OrderStatus * string);
  queryFails : bool;
  tradeUpdateFails : string -> bool;
  opportunityUpdateFails : bool
}.

Record Desk : Type := mkDesk {
  trades : list Trade;
  opportunities : gmap string OpportunityStatus;
  calls : list Call
}.

Definition call (c : Call) (d : Desk) : Desk :=
  {| trades := trades d; opportunities := opportunities d; calls := calls d ++ [c] |}.

(** [TradeModel.updateStatus(id, status, orderId?)]: [order_id] is set when
    an order id is given, [executed_at] when the status is [filled]. *)
Definition setStatus (status : TradeStatus) (orderId : option string) (t : Trade)
  : Trade :=
  {| trade_id := trade_id t;
     trade_opportunity_id := trade_opportunity_id t;
     trade_platform := trade_platform t;
     trade_order_id :=
       match orderId with Some o => Some o | None => trade_order_id t end;
     trade_status := status;
     executed_at :=
       match status with tradeFilled => true | _ => executed_at t end |}.

Definition updateStatus (id : string) (status : TradeStatus) (orderId : option string)
    (table : list Trade) : list Trade :=
  map (fun t => if bool_decide (trade_id t = id) then setStatus status orderId t else t)
      table.

(** [TradeModel.getByOpportunityId] *)
Definition getByOpportunityId (table : list Trade) (opportunityId : string)
  : list Trade :=
  rev (List.filter (fun t => bool_decide (trade_opportunity_id t = Some opportunityId))
         table).

(** The write of a new status for one trade, inside the [try] of the loop
    body: a refused update is logged by the [catch]. *)
Definition writeStatus (o : Outside) (failure : string) (trade : Trade)
    (status : TradeStatus) (orderId : option string) (d : Desk) : Desk :=
  let d1 := call (UpdateTrade (trade_id trade) status) d in
  if tradeUpdateFails o (trade_id trade) then call (LogError failure) d1
  else {| trades := updateStatus (trade_id trade) status orderId (trades d1);
          opportunities := opportunities d1; calls := calls d1 |}.

(** The body of the loop of [cancelExecution]. *)
Definition cancelTrade (o : Outside) (d : Desk) (trade : Trade) : Desk :=
  match trade_status trade, MarketMappingModel.orNull (trade_order_id trade) with
  | tradePending, Some orderId =>
      let d1 := call (CancelOrder (trade_platform trade) orderId) d in
      if cancelOrder o (trade_platform trade) orderId
      then writeStatus o "Failed to cancel order" trade tradeCancelled None d1
      else call (LogError "Failed to cancel order") d1
  | _, _ => d
  end.

Definition cancelExecution (o : Outside) (opportunityId : string) (d : Desk)
  : option Error * Desk :=
  if queryFails o
  then (Some (DatabaseError "Failed to get trades" "QUERY_ERROR"),
        call (LogError "Failed to cancel execution") d)
  else
    let d1 := fold_left (cancelTrade o) (getByOpportunityId (trades d) opportunityId) d in
    let d2 := call (UpdateOpportunity opportunityId expired) d1 in
    if opportunityUpdateFails o
    then (Some (DatabaseError "Failed to update opportunity status" "UPDATE_ERROR"),
          call (LogError "Failed to cancel execution") d2)
    else (None,
          {| trades := trades d2;
             opportunities := alter (fun _ => expired) opportunityId (opportunities d2);
             calls := calls d2 |}).

(** The body of the loop of [checkOrderStatuses]. *)
Definition checkTrade (o : Outside) (d : Desk) (trade : Trade) : Desk :=
  match trade_status trade, MarketMappingModel.orNull (trade_order_id trade) with
  | tradePending, Some orderId =>
      let d1 := call (GetOrderStatus (trade_platform trade) orderId) d in
      match getOrderStatus o (trade_platform trade) orderId with
      | None => call (LogError "Failed to check order status") d1
      | Some (orderFilled, id) =>
          writeStatus o "Failed to check order status" trade tradeFilled (Some id) d1
      | Some (orderCancelled, id) =>
          writeStatus o "Failed to check order status" trade tradeCancelled (Some id) d1
      | Some (orderFailed, id) =>
          writeStatus o "Failed to check order status" trade tradeFailed (Some id) d1
      | Some (_, _) => d1
      end
  | _, _ => d
  end.

Definition checkOrderStatuses (o : Outside) (opportunityId : string) (d : Desk) : Desk :=
  if queryFails o then call (LogError "Failed to check order statuses") d
  else fold_left (checkTrade o) (getByOpportunityId (trades d) opportunityId) d.

(** The order the two loops act on for a row of the table: the row belongs
    to the opportunity, is [pending] and has an order id. *)
Definition live (opportunityId : string) (t : Trade) : option string :=
  if bool_decide (trade_opportunity_id t = Some opportunityId)
  then match trade_status t with
       | tradePending => MarketMappingModel.orNull (trade_order_id t)
       | _ => None
       end
  else None.


(** The cancels sent to the venues, in the order of the calls. *)
Definition cancelCalls (cs : list Call) : list (Platform * string) :=
  flat_map (fun c => match c with
                     | CancelOrder p orderId => [(p, orderId)]
                     | _ => []
                     end) cs.

End ExecutorTrades.

(** Two trades of opportunity [opp-1], as [executeArbitrage] records them,
    and one settled trade of another opportunity. *)
Module ScenarioTrades.

Definition table : list ExecutorTrades.Trade :=
  [ {| ExecutorTrades.trade_id := "T0";
       ExecutorTrades.trade_opportunity_id := Some "opp-0"%string;
       ExecutorTrades.trade_platform := opinion;
       ExecutorTrades.trade_order_id := Some "OA0"%string;
       ExecutorTrades.trade_status := tradeFilled;
       ExecutorTrades.executed_at := true |};
    {| ExecutorTrades.trade_id := "T1";
       ExecutorTrades.trade_opportunity_id := Some "opp-1"%string;
       ExecutorTrades.trade_platform := opinion;
       ExecutorTrades.trade_order_id := Some "OA1"%string;
       ExecutorTrades.trade_status := tradePending;
       ExecutorTrades.executed_at := false |};
    {| ExecutorTrades.trade_id := "T2";
       ExecutorTrades.trade_opportunity_id := Some "opp-1"%string;
       ExecutorTrades.trade_platform := polymarket;
       ExecutorTrades.trade_order_id := Some "OB1"%string;
       ExecutorTrades.trade_status := tradePending;
       ExecutorTrades.executed_at := false |} ].

Definition desk : ExecutorTrades.Desk :=
  {| ExecutorTrades.trades := table;
     ExecutorTrades.opportunities := {[ "opp-1"%string := executed ]};
     ExecutorTrades.calls := [] |}.

(** Opinion's cancel goes through, Polymarket's does not; Opinion reports
    its order filled, Polymarket reports its order open. *)
Definition outside : ExecutorTrades.Outside :=
  {| ExecutorTrades.cancelOrder := fun p _ =>
       match p with opinion => true | polymarket => false end;
     ExecutorTrades.getOrderStatus := fun p orderId =>
       match p with
       | opinion => Some (orderFilled, orderId)
       | polymarket => Some (orderOpen, orderId)
       end;
     ExecutorTrades.queryFails := false;
     ExecutorTrades.tradeUpdateFails := fun _ => false;
     ExecutorTrades.opportunityUpdateFails := false |}.

End ScenarioTrades.

(** ** src/arbitrage/calculator.ts on binary64 numbers

    [calculateArbitrage] and [estimateSlippage] once more, with a [number]
    as the IEEE 754 double it is: [+], [-], [*] and [/] round to nearest, a
    comparison with NaN is false, [x === 0] holds of both zeros, and a
    decimal literal of the source is the double nearest to it. *)
Module Doubles.

Local Open Scope float_scope.
Local Set Warnings "-inexact-float".

Record Level : Type := mkLevel { price : float; size : float }.

Record Orderbook : Type := mkOrderbook {
  marketId : string;
  bids : list Level;
  asks : list Level;
  timestamp : Z
}.

Record MarketPrices : Type := mkMarketPrices {
  mp_marketId : string;
  yesPrice : float;
  noPrice : float;
  yesLiquidity : float;
  noLiquidity : float;
  mp_timestamp : Z
}.

Record ArbitrageCalculation : Type := mkCalculation {
  combinedCost : float;
  profitPotential : float;
  opinionSide : Outcome;
  polymarketSide : Outcome;
  recommendedSize : float;
  estimatedFees : float;
  netProfit : float
}.

Record ArbitrageConfig : Type := mkConfig {
  threshold : float;
  minLiquidity : float;
  autoExecute : bool;
  maxPositionSize : float
}.

Definition OPINION_FEE_RATE : float := 0.02.
Definition POLYMARKET_FEE_RATE : float := 0.02.

(** [Math.min(...numbers)]: starting from [+Infinity], a NaN argument makes
    the result NaN, [-0] counts as below [+0], and a smaller argument
    replaces the lowest so far. *)
Definition minStep (lowest number : float) : float :=
  if is_nan lowest || is_nan number then nan
  else if number <? lowest then number
  else if is_zero number && is_zero lowest && get_sign number then number
  else lowest.

Definition mathMin (numbers : list float) : float :=
  fold_left minStep numbers infinity.

Definition path1Cost (opinionPrices polymarketPrices : MarketPrices) : float :=
  yesPrice opinionPrices + noPrice polymarketPrices.
Definition path2Cost (opinionPrices polymarketPrices : MarketPrices) : float :=
  noPrice opinionPrices + yesPrice polymarketPrices.

Definition calculateArbitrage
    (config : ArbitrageConfig)
    (opinionPrices polymarketPrices : MarketPrices) : option ArbitrageCalculation :=
  let path1Cost := path1Cost opinionPrices polymarketPrices in
  let path2Cost := path2Cost opinionPrices polymarketPrices in
  let bestPath1 := path1Cost <? path2Cost in
  let combinedCost := if bestPath1 then path1Cost else path2Cost in
  if threshold config <=? combinedCost then None
  else
    let profitPotential := 1 - combinedCost in
    let opinionSide := if bestPath1 then yes else no in
    let polymarketSide := if bestPath1 then no else yes in
    let opinionLiquidity :=
      match opinionSide with
      | yes => yesLiquidity opinionPrices
      | no => noLiquidity opinionPrices
      end in
    let polymarketLiquidity :=
      match polymarketSide with
      | yes => yesLiquidity polymarketPrices
      | no => noLiquidity polymarketPrices
      end in
    let recommendedSize :=
      mathMin [opinionLiquidity; polymarketLiquidity; maxPositionSize config] in
    if recommendedSize <? minLiquidity config then None
    else
      let opinionFee := recommendedSize * OPINION_FEE_RATE in
      let polymarketFee := recommendedSize * POLYMARKET_FEE_RATE in
      let estimatedFees := opinionFee + polymarketFee in
      let grossProfit := recommendedSize * profitPotential in
      let netProfit := grossProfit - estimatedFees in
      if netProfit <=? 0 then None
      else
        Some {| combinedCost := combinedCost;
                profitPotential := profitPotential;
                opinionSide := opinionSide;
                polymarketSide := polymarketSide;
                recommendedSize := recommendedSize;
                estimatedFees := estimatedFees;
                netProfit := netProfit |}.

(** The values [bestPath], [combinedCost], the two chosen liquidities,
    [recommendedSize] and [netProfit] take in a call, as functions of its
    arguments. *)
Definition bestPath1 (opinionPrices polymarketPrices : MarketPrices) : bool :=
  path1Cost opinionPrices polymarketPrices <? path2Cost opinionPrices polymarketPrices.






(** [Array.prototype.sort] with a comparator: the stable sort, as an
    insertion from the right.  [comparator a b] is the number the
    comparator returns; [a] stays before [b] unless that number is
    positive (a NaN counts as zero). *)
Fixpoint insertSorted (comparator : Level -> Level -> float) (x : Level)
    (l : list Level) : list Level :=
  match l with
  | [] => [x]
  | y :: l' =>
      if 0 <? comparator x y then y :: insertSorted comparator x l'
      else x :: y :: l'
  end.

Definition sortLevels (comparator : Level -> Level -> float) (l : list Level)
  : list Level :=
  fold_right (insertSorted comparator) [] l.

(** The filling loop of [estimateSlippage]. *)
Fixpoint fillOrders (orders : list Level) (remainingSize totalCost totalSize : float)
  : float * float :=
  match orders with
  | [] => (totalCost, totalSize)
  | order :: rest =>
      if remainingSize <=? 0 then (totalCost, totalSize)
      else
        let fillSize := mathMin [remainingSize; size order] in
        fillOrders rest (remainingSize - fillSize)
          (totalCost + fillSize * price order) (totalSize + fillSize)
  end.

Definition estimateSlippage (orderbook : Orderbook) (size : float)
    (side : Calculator.TradeSide) : float :=
  let orders :=
    match side with
    | Calculator.buySide => asks orderbook
    | Calculator.sellSide => bids orderbook
    end in
  let sortedOrders :=
    match side with
    | Calculator.buySide => sortLevels (fun a b => price a - price b) orders
    | Calculator.sellSide => sortLevels (fun a b => price b - price a) orders
    end in
  let '(totalCost, totalSize) := fillOrders sortedOrders size 0 0 in
  if totalSize =? 0 then 0 else totalCost / totalSize.

(** The size check of [executeArbitrage] (src/trading/executor.ts):
    [opportunity.recommendedSize > config.arbitrage.maxPositionSize]. *)
Definition sizeLimitExceeded (recommendedSize maxPositionSize : float) : bool :=
  maxPositionSize <? recommendedSize.




End Doubles.



(** Calls of [Doubles.calculateArbitrage]: the configuration of scenario
    S1, and one that allows a negative minimum liquidity; a venue whose YES
    and NO prices are [price] and whose liquidities are [liquidity]. *)
Module ScenarioDoubles.

Local Open Scope float_scope.
Local Set Warnings "-inexact-float".

Definition cfg : Doubles.ArbitrageConfig :=
  {| Doubles.threshold := 0.98; Doubles.minLiquidity := 1000;
     Doubles.autoExecute := true; Doubles.maxPositionSize := 5000 |}.


Definition prices (marketId : string) (price liquidity : float)
  : Doubles.MarketPrices :=
  {| Doubles.mp_marketId := marketId;
     Doubles.yesPrice := price; Doubles.noPrice := price;
     Doubles.yesLiquidity := liquidity; Doubles.noLiquidity := liquidity;
     Doubles.mp_timestamp := 0 |}.

(** Scenario S1 (mid prices 0.45 and 0.5, depths 2000 and 3000), and three
    variations of it: a NaN price on Opinion; liquidities of -5 at a combined
    cost of 0.97; an Opinion price of 0.46, which puts the profit per contract
    at the two fees. *)
Definition opinionPrices : Doubles.MarketPrices := prices "A1" 0.45 2000.
Definition polymarketPrices : Doubles.MarketPrices := prices "B1" 0.5 3000.




(** Scenario S1 with an Opinion book whose sizes do not parse: its depth is
    NaN. *)
Definition opinionNoDepth : Doubles.MarketPrices := prices "A1" 0.45 nan.

(** One ask of 3 contracts at 0.1. *)
Definition thinBook : Doubles.Orderbook :=
  {| Doubles.marketId := "A1"; Doubles.bids := [];
     Doubles.asks := [ {| Doubles.price := 0.1; Doubles.size := 3 |} ];
     Doubles.timestamp := 0 |}.

End ScenarioDoubles.

(** ** src/websocket/reconnectHandler.ts, step by step

    The timer callback of [scheduleReconnect] awaits [connectFn()]: between
    the increment of [retryCount] and the outcome of the attempt other calls
    reach the handler.  Timers are numbered in the order they are armed;
    [armed] holds those that have neither fired nor been cleared, with
    their delays; [reconnectTimer] is the handle kept in the field, which
    firing does not clear; [attempts] counts the callbacks waiting at the
    [await]. *)
Module ReconnectSteps.

Import ReconnectHandler.

Record Handler : Type := mkHandler {
  retryCount : nat;
  reconnectTimer : option nat;
  isReconnecting : bool;
  armed : list (nat * Q);
  nextTimer : nat;
  attempts : nat;
  emitted : list HandlerEvent
}.

Definition initial : Handler :=
  {| retryCount := 0; reconnectTimer := None; isReconnecting := false;
     armed := []; nextTimer := 0; attempts := 0; emitted := [] |}.

(** [clearTimeout] of a handle. *)
Definition clearTimeout (handle : option nat) (timers : list (nat * Q))
  : list (nat * Q) :=
  match handle with
  | Some t => List.filter (fun timer => negb (Nat.eqb (fst timer) t)) timers
  | None => timers
  end.

Definition scheduleReconnect (options : Options) (h : Handler) : Handler :=
  if isReconnecting h then h
  else if (maxRetries options <=? retryCount h)%nat
  then {| retryCount := retryCount h; reconnectTimer := reconnectTimer h;
          isReconnecting := isReconnecting h; armed := armed h;
          nextTimer := nextTimer h; attempts := attempts h;
          emitted := emitted h ++ [maxRetriesReached] |}
  else {| retryCount := retryCount h;
          reconnectTimer := Some (nextTimer h);
          isReconnecting := true;
          armed := armed h ++ [(nextTimer h, delay options (retryCount h))];
          nextTimer := S (nextTimer h); attempts := attempts h;
          emitted := emitted h |}.

Definition reset (h : Handler) : Handler :=
  {| retryCount := 0; reconnectTimer := None; isReconnecting := false;
     armed := clearTimeout (reconnectTimer h) (armed h);
     nextTimer := nextTimer h; attempts := attempts h; emitted := emitted h |}.

Definition cancel (h : Handler) : Handler :=
  {| retryCount := retryCount h; reconnectTimer := None; isReconnecting := false;
     armed := clearTimeout (reconnectTimer h) (armed h);
     nextTimer := nextTimer h; attempts := attempts h; emitted := emitted h |}.

(** Timer [t] fires: the callback counts the retry, calls [connectFn] and
    waits for its promise. *)
Definition timerFires (t : nat) (h : Handler) : Handler :=
  if existsb (fun timer => Nat.eqb (fst timer) t) (armed h)
  then {| retryCount := S (retryCount h); reconnectTimer := reconnectTimer h;
          isReconnecting := isReconnecting h;
          armed := clearTimeout (Some t) (armed h);
          nextTimer := nextTimer h; attempts := S (attempts h);
          emitted := emitted h |}
  else h.

(** The promise of one waiting callback settles. *)
Definition connectSettles (options : Options) (resolved : bool) (h : Handler)
  : Handler :=
  match attempts h with
  | O => h
  | S n =>
      let h1 := {| retryCount := retryCount h; reconnectTimer := reconnectTimer h;
                   isReconnecting := isReconnecting h; armed := armed h;
                   nextTimer := nextTimer h; attempts := n;
                   emitted := emitted h |} in
      if resolved
      then let h2 := reset h1 in
           {| retryCount := retryCount h2; reconnectTimer := reconnectTimer h2;
              isReconnecting := isReconnecting h2; armed := armed h2;
              nextTimer := nextTimer h2; attempts := attempts h2;
              emitted := emitted h2 ++ [reconnected] |}
      else scheduleReconnect options
             {| retryCount := retryCount h1; reconnectTimer := reconnectTimer h1;
                isReconnecting := false; armed := armed h1;
                nextTimer := nextTimer h1; attempts := attempts h1;
                emitted := emitted h1 |}
  end.

Inductive Op : Type :=
| Schedule
| Fire (t : nat)
| Settle (resolved : bool)
| Reset
| Cancel.

Definition step (options : Options) (h : Handler) (op : Op) : Handler :=
  match op with
  | Schedule => scheduleReconnect options h
  | Fire t => timerFires t h
  | Settle resolved => connectSettles options resolved h
  | Reset => reset h
  | Cancel => cancel h
  end.

Definition run (options : Options) (ops : list Op) : Handler :=
  fold_left (step options) ops initial.

(** The steps that make up one operation of [ReconnectHandler] when no
    call reaches the handler during an attempt: the timer that fires is the
    one armed, and its attempt settles at once. *)
Definition stepsOf (h : Handler) (op : ReconnectHandler.Op) : list Op :=
  match op with
  | ReconnectHandler.Schedule => [Schedule]
  | ReconnectHandler.TimerFires ok =>
      match armed h with
      | (t, _) :: _ => [Fire t; Settle ok]
      | [] => []
      end
  | ReconnectHandler.Reset => [Reset]
  | ReconnectHandler.Cancel => [Cancel]
  end.

Fixpoint runSteps (options : Options) (h : Handler)
    (ops : list ReconnectHandler.Op) : Handler :=
  match ops with
  | [] => h
  | op :: ops' =>
      runSteps options (fold_left (step options) (stepsOf h op) h) ops'
  end.

(** What [ReconnectHandler] keeps of a handler at rest. *)
Definition atRest (h : Handler) : ReconnectHandler.Handler :=
  {| ReconnectHandler.retryCount := retryCount h;
     ReconnectHandler.reconnectTimer :=
       match armed h with
       | (_, d) :: _ => Some d
       | [] => None
       end;
     ReconnectHandler.isReconnecting := isReconnecting h;
     ReconnectHandler.emitted := emitted h |}.

End ReconnectSteps.

(** A reconnection with two retries allowed, during whose first attempt the
    client is disconnected and the stream closes once more: the timer
    fires, and while its attempt is pending [cancel] and
    [scheduleReconnect] are called; the attempt then fails, and both timers
    armed by then fire. *)
Module ScenarioInterleaved.

Definition options : ReconnectHandler.Options :=
  {| ReconnectHandler.maxRetries := 2; ReconnectHandler.initialDelay := 1000;
     ReconnectHandler.maxDelay := 30000; ReconnectHandler.backoffMultiplier := 2 |}.

Definition ops : list ReconnectSteps.Op :=
  [ ReconnectSteps.Schedule; ReconnectSteps.Fire 0; ReconnectSteps.Cancel;
    ReconnectSteps.Schedule; ReconnectSteps.Settle false;
    ReconnectSteps.Fire 1; ReconnectSteps.Fire 2 ].

End ScenarioInterleaved.

(* ================================================================== *)
(** * Properties *)
(* ================================================================== *)

(** ** Calculator *)

Section CalculatorFacts.

Import Calculator.

Lemma Qltb_lt (a b : Q) : Qltb a b = true <-> a < b.
Proof.
  unfold Qltb. rewrite negb_true_iff, <- not_true_iff_false, Qle_bool_iff.
  split; [apply Qnot_le_lt | apply Qlt_not_le].
Qed.

Lemma Qltb_ge (a b : Q) : Qltb a b = false <-> b <= a.
Proof.
  unfold Qltb. rewrite negb_false_iff. apply Qle_bool_iff.
Qed.

Lemma Qle_bool_gt (a b : Q) : Qle_bool a b = false <-> b < a.
Proof.
  rewrite <- not_true_iff_false, Qle_bool_iff.
  split; [apply Qnot_le_lt | apply Qlt_not_le].
Qed.

(** The outcome argument of [extractMarketPrices] is never read. *)
Lemma extractMarketPrices_outcome (b : Orderbook) (o1 o2 : Outcome) :
  extractMarketPrices b o1 = extractMarketPrices b o2.
Proof. reflexivity. Qed.

(** On a book with both sides the extracted price is the mid price,
    whatever the outcome asked for. *)
Lemma extractMarketPrices_mid (b : Orderbook) (o : Outcome) (bestBid bestAsk : Q) :
  extractBestPrice b bid = Some bestBid ->
  extractBestPrice b ask = Some bestAsk ->
  exists r, extractMarketPrices b o = Some r
            /\ pl_price r = (bestBid + bestAsk) / 2.
Proof.
  intros Hb Ha. unfold extractMarketPrices. rewrite Hb, Ha.
  eexists; split; reflexivity.
Qed.

(** The code's choice of path and the specification's "cheaper leg". *)
Lemma combinedCost_cheaper (a b : MarketPrices) :
  (if Qltb (path1Cost a b) (path2Cost a b) then path1Cost a b else path2Cost a b)
  == Spec.combined_cost a b.
Proof.
  unfold Spec.combined_cost, path1Cost, path2Cost.
  destruct (Qltb _ _) eqn:E.
  - apply Qltb_lt in E. symmetry. apply Q.min_l. lra.
  - apply Qltb_ge in E. symmetry. apply Q.min_r. exact E.
Qed.

Lemma recommendedSize_chosen (cfg : ArbitrageConfig) (a b : MarketPrices) :
  (if Qltb (path1Cost a b) (path2Cost a b)
   then min3 (yesLiquidity a) (noLiquidity b) (maxPositionSize cfg)
   else min3 (noLiquidity a) (yesLiquidity b) (maxPositionSize cfg))
  = Spec.recommended_size cfg a b.
Proof.
  unfold Spec.recommended_size, Spec.depth_on_chosen_A_side,
    Spec.depth_on_chosen_B_side, path1Cost, path2Cost, min3.
  destruct (Qltb _ _) eqn:E; destruct (Qlt_le_dec _ _) as [H | H]; try reflexivity.
  - apply Qltb_lt in E. lra.
  - apply Qltb_ge in E. lra.
Qed.

(** Over the rationals: what a returned calculation holds, in the words of
    the specification. *)
Lemma calculateArbitrage_Some (cfg : ArbitrageConfig) (a b : MarketPrices)
    (r : ArbitrageCalculation) :
  calculateArbitrage cfg a b = Some r ->
  combinedCost r == Spec.combined_cost a b
  /\ profitPotential r = 1 - combinedCost r
  /\ recommendedSize r = Spec.recommended_size cfg a b
  /\ netProfit r == Spec.net_profit cfg a b
  /\ combinedCost r < threshold cfg
  /\ minLiquidity cfg <= recommendedSize r
  /\ 0 < netProfit r.
Proof.
  unfold calculateArbitrage.
  pose proof (combinedCost_cheaper a b) as Hcc.
  pose proof (recommendedSize_chosen cfg a b) as Hsz.
  destruct (Qltb (path1Cost a b) (path2Cost a b)) eqn:Epath;
    (destruct (Qle_bool (threshold cfg) _) eqn:Ethr; [discriminate |]);
    (destruct (Qltb _ (minLiquidity cfg)) eqn:Eliq; [discriminate |]);
    (destruct (Qle_bool _ 0) eqn:Enet; [discriminate |]);
    intros [= <-]; cbn [combinedCost profitPotential recommendedSize netProfit];
    apply Qle_bool_gt in Ethr; apply Qltb_ge in Eliq; apply Qle_bool_gt in Enet;
    (repeat split; try assumption);
    unfold Spec.net_profit, Spec.venue_a_fee_rate, Spec.venue_b_fee_rate,
      OPINION_FEE_RATE, POLYMARKET_FEE_RATE;
    rewrite <- Hsz, <- Hcc; ring.
Qed.

(** Over the rationals the three admission conditions make the code
    return. *)
Lemma calculateArbitrage_admitted (cfg : ArbitrageConfig) (a b : MarketPrices) :
  Spec.admitted cfg a b -> exists r, calculateArbitrage cfg a b = Some r.
Proof.
  intros (Hthr & Hliq & Hnet). unfold calculateArbitrage.
  pose proof (combinedCost_cheaper a b) as Hcc.
  pose proof (recommendedSize_chosen cfg a b) as Hsz.
  unfold Spec.net_profit, Spec.venue_a_fee_rate, Spec.venue_b_fee_rate in Hnet.
  rewrite <- Hsz in Hliq, Hnet. rewrite <- Hcc in Hthr, Hnet. clear Hcc Hsz.
  destruct (Qltb (path1Cost a b) (path2Cost a b)) eqn:Epath.
  all: destruct (Qle_bool (threshold cfg) _) eqn:Ethr;
    [apply Qle_bool_iff in Ethr; lra |].
  all: destruct (Qltb _ (minLiquidity cfg)) eqn:Eliq;
    [apply Qltb_lt in Eliq; lra |].
  all: destruct (Qle_bool _ 0) eqn:Enet;
    [apply Qle_bool_iff in Enet;
     unfold OPINION_FEE_RATE, POLYMARKET_FEE_RATE in Enet; lra |].
  all: eexists; reflexivity.
Qed.

End CalculatorFacts.

(** ** The calculator on binary64 numbers

    The comparisons of the doubles through their specification
    ([Prim2SF]): what [<] and [<=] are on numbers, and that they are false
    on NaN. *)

Section DoubleOrder.

Local Open Scope float_scope.

Lemma SFcompare_antisym (x y : spec_float) :
  SFcompare y x = option_map CompOpp (SFcompare x y).
Proof.
  destruct x as [sx | sx | | sx mx ex], y as [sy | sy | | sy my ey];
    try reflexivity;
    try (destruct sx; reflexivity); try (destruct sy; reflexivity);
    try (destruct sx, sy; reflexivity).
  assert (P : Pos.compare_cont Eq my mx = CompOpp (Pos.compare_cont Eq mx my))
    by apply (Pos.compare_antisym mx my).
  unfold SFcompare. rewrite (Z.compare_antisym ex ey), P.
  destruct sx, sy; try reflexivity;
    destruct (ex ?= ey)%Z; cbn; try reflexivity;
    destruct (Pos.compare_cont Eq mx my); reflexivity.
Qed.

Lemma SFcompare_refl (x : spec_float) :
  x <> S754_nan -> SFcompare x x = Some Eq.
Proof.
  destruct x as [s | s | | s m e]; intros H; try contradiction;
    try (destruct s; reflexivity).
  assert (P : Pos.compare_cont Eq m m = Eq) by apply (Pos.compare_refl m).
  unfold SFcompare. rewrite Z.compare_refl, P. destruct s; reflexivity.
Qed.

Lemma is_nan_spec (x : float) : is_nan x = true <-> Prim2SF x = S754_nan.
Proof.
  unfold is_nan. rewrite FloatAxioms.eqb_spec. unfold SFeqb.
  destruct (Prim2SF x) as [s | s | | s m e] eqn:E.
  - cbn. split; discriminate.
  - rewrite SFcompare_refl by discriminate. cbn. split; discriminate.
  - cbn. split; reflexivity.
  - rewrite SFcompare_refl by discriminate. cbn. split; discriminate.
Qed.

Lemma is_nan_false (x : float) : is_nan x = false <-> Prim2SF x <> S754_nan.
Proof.
  rewrite <- is_nan_spec. destruct (is_nan x); split; congruence.
Qed.

Lemma SFcompare_Some (x y : spec_float) :
  x <> S754_nan -> y <> S754_nan -> exists c, SFcompare x y = Some c.
Proof.
  destruct x as [sx | sx | | sx mx ex], y as [sy | sy | | sy my ey]; cbn;
    intros Hx Hy; try contradiction; eexists; reflexivity.
Qed.

(** Among numbers, [x < y] is the negation of [y <= x]. *)
Lemma ltb_negb_leb (x y : float) :
  is_nan x = false -> is_nan y = false -> (x <? y) = negb (y <=? x).
Proof.
  rewrite !is_nan_false, FloatAxioms.ltb_spec, FloatAxioms.leb_spec. intros Hx Hy.
  unfold SFltb, SFleb. rewrite (SFcompare_antisym (Prim2SF x) (Prim2SF y)).
  destruct (SFcompare_Some _ _ Hx Hy) as [c ->]. now destruct c.
Qed.

(** A comparison with NaN is false. *)
Lemma ltb_nan (x y : float) :
  is_nan x = true \/ is_nan y = true -> (x <? y) = false /\ (x <=? y) = false.
Proof.
  rewrite !is_nan_spec, FloatAxioms.ltb_spec, FloatAxioms.leb_spec. unfold SFltb, SFleb.
  intros [-> | ->]; [| destruct (Prim2SF x)]; split; reflexivity.
Qed.







Lemma Prim2SF_nan : Prim2SF nan = S754_nan.
Proof. reflexivity. Qed.






Lemma ltb_false_iff (x y : float) :
  (x <? y) = false <-> (y <=? x) = true \/ is_nan x = true \/ is_nan y = true.
Proof.
  destruct (is_nan x) eqn:Ex.
  { destruct (ltb_nan x y (or_introl Ex)) as [-> _]. tauto. }
  destruct (is_nan y) eqn:Ey.
  { destruct (ltb_nan x y (or_intror Ey)) as [-> _]. tauto. }
  rewrite (ltb_negb_leb x y Ex Ey).
  destruct (y <=? x); cbn; intuition congruence.
Qed.












End DoubleOrder.

Section DoublesFacts.

Local Open Scope float_scope.
Import Doubles.


End DoublesFacts.




(** C10.  [extractMarketPrices] ignores its outcome argument: asked for YES
    or for NO it returns the same price and the same liquidity; hence for
    the [MarketPrices] the detector builds from it the two candidate leg
    costs of [calculateArbitrage] are equal. *)
Theorem extractMarketPrices_ignores_outcome :
  (forall b, Calculator.extractMarketPrices b yes = Calculator.extractMarketPrices b no)
  /\ (forall ob pb oid pid clock oy on py pn,
        Calculator.extractMarketPrices ob yes = Some oy ->
        Calculator.extractMarketPrices ob no = Some on ->
        Calculator.extractMarketPrices pb yes = Some py ->
        Calculator.extractMarketPrices pb no = Some pn ->
        Calculator.path1Cost (Detector.marketPrices oid clock oy on)
                             (Detector.marketPrices pid clock py pn)
        = Calculator.path2Cost (Detector.marketPrices oid clock oy on)
                               (Detector.marketPrices pid clock py pn)).
Proof.
  split.
  - intros b. apply extractMarketPrices_outcome.
  - intros ob pb oid pid clock oy on py pn Hoy Hon Hpy Hpn.
    rewrite (extractMarketPrices_outcome ob no yes), Hoy in Hon.
    rewrite (extractMarketPrices_outcome pb no yes), Hpy in Hpn.
    injection Hon as <-. injection Hpn as <-.
    reflexivity.
Qed.

Lemma extractMarketPrices_ignores_outcome_witness :
  exists oy on py pn,
    Calculator.extractMarketPrices Scenario.opinionBook yes = Some oy
    /\ Calculator.extractMarketPrices Scenario.opinionBook no = Some on
    /\ Calculator.extractMarketPrices Scenario.polymarketBook yes = Some py
    /\ Calculator.extractMarketPrices Scenario.polymarketBook no = Some pn
    /\ Calculator.path1Cost (Detector.marketPrices "A1" 0 oy on)
                            (Detector.marketPrices "B1" 0 py pn)
       = Calculator.path2Cost (Detector.marketPrices "A1" 0 oy on)
                              (Detector.marketPrices "B1" 0 py pn).
Proof.
  do 4 eexists.
  refine (let H1 := eq_refl in let H2 := eq_refl in
          let H3 := eq_refl in let H4 := eq_refl in
          conj H1 (conj H2 (conj H3 (conj H4
            (proj2 extractMarketPrices_ignores_outcome
               Scenario.opinionBook Scenario.polymarketBook "A1"%string "B1"%string
               0%Z _ _ _ _ H1 H2 H3 H4))))).
Defined.

(** C1 on the Opinion book of scenario S1 (best bid 0.44, best ask 0.46):
    the price extracted for NO is the mid price 0.45, the same as for YES,
    and not the complement 1 - 0.45; the detector's evaluation carries that
    value as the venue's NO price. *)
Theorem extractMarketPrices_no_is_mid :
  (exists r, Calculator.extractMarketPrices Scenario.opinionBook no = Some r
             /\ Calculator.pl_price r == 0.45
             /\ ~ Calculator.pl_price r == 1 - (0.44 + 0.46) / 2)
  /\ (exists a b c,
        Detector.evaluate parseDecimal (Scenario.envAt 0) "A1" "B1"
          {| Detector.mo_opinion := Some Scenario.opinionUpdate;
             Detector.mo_polymarket := Some Scenario.polymarketUpdate |}
        = Some (a, b, c)
        /\ yesPrice a == 0.45 /\ noPrice a == 0.45
        /\ yesPrice b == 0.5 /\ noPrice b == 0.5).
Proof.
  split.
  - eexists. split; [reflexivity |].
    split; vm_compute; congruence.
  - do 3 eexists. split; [vm_compute; reflexivity |].
    repeat split; vm_compute; reflexivity.
Qed.

(** ** Detector *)

Section DetectorFacts.

Variable parseFloat : string -> Q.


End DetectorFacts.




(** ** Venue clients *)

Section OpinionClientFacts.

Import OpinionClient.

Lemma opinion_subscribe_present (m : string) (c : Client) :
  m ∈ subscribedMarkets c -> subscribeToMarket m c = c.
Proof.
  intros Hin. unfold subscribeToMarket.
  destruct (negb (streamOpen c)); [reflexivity |].
  rewrite bool_decide_eq_true_2 by exact Hin. reflexivity.
Qed.

Lemma opinion_subscribe_closed (m : string) (c : Client) :
  streamOpen c = false -> subscribeToMarket m c = c.
Proof. intros H. unfold subscribeToMarket. rewrite H. reflexivity. Qed.

Lemma opinion_subscribe_fresh (m : string) (c : Client) :
  streamOpen c = true -> m ∉ subscribedMarkets c ->
  sent (subscribeToMarket m c) = sent c ++ [Subscribe m]
  /\ subscribedMarkets (subscribeToMarket m c) = subscribedMarkets c ++ [m]
  /\ streamOpen (subscribeToMarket m c) = true.
Proof.
  intros Hopen Hnin. unfold subscribeToMarket, setAdd. rewrite Hopen.
  rewrite !bool_decide_eq_false_2 by exact Hnin. cbn. auto.
Qed.

Lemma opinion_subscribe_idempotent (m : string) (c : Client) :
  subscribeToMarket m (subscribeToMarket m c) = subscribeToMarket m c.
Proof.
  destruct (streamOpen c) eqn:Hopen.
  - destruct (decide (m ∈ subscribedMarkets c)) as [Hin | Hnin].
    + rewrite !(opinion_subscribe_present m c Hin). reflexivity.
    + apply opinion_subscribe_present.
      destruct (opinion_subscribe_fresh m c Hopen Hnin) as (_ & -> & _).
      set_solver.
  - rewrite !(opinion_subscribe_closed m c Hopen). reflexivity.
Qed.

(** Every id [resubscribe] walks over is in the set already, so each call
    of [subscribeToMarket] returns at its "already subscribed" guard. *)
Lemma opinion_resubscribe_noop (c : Client) : resubscribe c = c.
Proof.
  unfold resubscribe.
  assert (H : forall l, (forall m, m ∈ l -> m ∈ subscribedMarkets c) ->
              fold_left (fun c m => subscribeToMarket m c) l c = c).
  { induction l as [| m l IH]; intros Hl; [reflexivity |].
    cbn. rewrite opinion_subscribe_present by (apply Hl; left).
    apply IH. intros m' Hm'. apply Hl. right. exact Hm'. }
  apply H. auto.
Qed.

Lemma opinion_reconnect_sends_nothing (c : Client) :
  sent (reconnect c) = sent c
  /\ subscribedMarkets (reconnect c) = subscribedMarkets c.
Proof.
  unfold reconnect, onOpen. rewrite opinion_resubscribe_noop. cbn.
  unfold connect, onClose, streamOpen. cbn. auto.
Qed.

End OpinionClientFacts.

Section PolymarketClientFacts.

Import PolymarketClient.

Lemma polymarket_subscribe_present (m : string) (c : Client) :
  m ∈ subscribedMarkets c -> subscribeToMarket m c = c.
Proof.
  intros Hin. unfold subscribeToMarket.
  destruct (negb _); [reflexivity |].
  rewrite bool_decide_eq_true_2 by exact Hin. reflexivity.
Qed.

Lemma polymarket_subscribe_closed (m : string) (c : Client) :
  streamOpen c && isAuthenticated c = false -> subscribeToMarket m c = c.
Proof. intros H. unfold subscribeToMarket. rewrite H. reflexivity. Qed.

Lemma polymarket_subscribe_fresh (m : string) (c : Client) :
  streamOpen c && isAuthenticated c = true -> m ∉ subscribedMarkets c ->
  sent (subscribeToMarket m c) = sent c ++ [Subscribe m]
  /\ subscribedMarkets (subscribeToMarket m c) = subscribedMarkets c ++ [m]
  /\ streamOpen (subscribeToMarket m c) && isAuthenticated (subscribeToMarket m c)
     = true.
Proof.
  intros Hopen Hnin. unfold subscribeToMarket, setAdd. rewrite Hopen.
  rewrite !bool_decide_eq_false_2 by exact Hnin. cbn. auto.
Qed.

Lemma polymarket_subscribe_idempotent (m : string) (c : Client) :
  subscribeToMarket m (subscribeToMarket m c) = subscribeToMarket m c.
Proof.
  destruct (streamOpen c && isAuthenticated c) eqn:Hopen.
  - destruct (decide (m ∈ subscribedMarkets c)) as [Hin | Hnin].
    + rewrite !(polymarket_subscribe_present m c Hin). reflexivity.
    + apply polymarket_subscribe_present.
      destruct (polymarket_subscribe_fresh m c Hopen Hnin) as (_ & -> & _).
      set_solver.
  - rewrite !(polymarket_subscribe_closed m c Hopen). reflexivity.
Qed.

Lemma polymarket_resubscribe_noop (c : Client) : resubscribe c = c.
Proof.
  unfold resubscribe.
  assert (H : forall l, (forall m, m ∈ l -> m ∈ subscribedMarkets c) ->
              fold_left (fun c m => subscribeToMarket m c) l c = c).
  { induction l as [| m l IH]; intros Hl; [reflexivity |].
    cbn. rewrite polymarket_subscribe_present by (apply Hl; left).
    apply IH. intros m' Hm'. apply Hl. right. exact Hm'. }
  apply H. auto.
Qed.

Lemma polymarket_reconnect_sends_auth_only (apiKey : string) (c : Client) :
  sent (reconnect apiKey c) = sent c ++ [Auth apiKey]
  /\ subscribedMarkets (reconnect apiKey c) = subscribedMarkets c.
Proof.
  unfold reconnect, onAuthSuccess. rewrite polymarket_resubscribe_noop. cbn.
  unfold connect, onClose, streamOpen. cbn. auto.
Qed.

End PolymarketClientFacts.

(** C6 on scenario S5.  A client subscribed to [m1] and [m2] whose stream
    closes and reconnects sends no subscribe frame on the new stream: the
    set still holds both ids, and after the reconnect the Opinion client has
    sent nothing and the Polymarket client only its auth frame, where the
    claim has one subscribe frame per id.  The same holds of a reconnect
    from any client state. *)
Theorem reconnect_resubscribes_nothing :
  let n := length (OpinionClient.sent ScenarioS5.opinion) in
  let k := length (PolymarketClient.sent ScenarioS5.polymarket) in
  (forall c, OpinionClient.sent (OpinionClient.reconnect c) = OpinionClient.sent c)
  /\ (forall apiKey c,
        PolymarketClient.sent (PolymarketClient.reconnect apiKey c)
        = PolymarketClient.sent c ++ [Auth apiKey])
  /\ OpinionClient.subscribedMarkets ScenarioS5.opinion = ["m1"; "m2"]%string
  /\ OpinionClient.streamOpen (OpinionClient.reconnect ScenarioS5.opinion) = true
  /\ drop n (OpinionClient.sent (OpinionClient.reconnect ScenarioS5.opinion)) = []
  /\ subscribesSince n "m1"
       (OpinionClient.sent (OpinionClient.reconnect ScenarioS5.opinion)) = 0%nat
  /\ subscribesSince n "m2"
       (OpinionClient.sent (OpinionClient.reconnect ScenarioS5.opinion)) = 0%nat
  /\ PolymarketClient.subscribedMarkets ScenarioS5.polymarket = ["m1"; "m2"]%string
  /\ drop k (PolymarketClient.sent (PolymarketClient.reconnect "key" ScenarioS5.polymarket))
     = [Auth "key"]
  /\ subscribesSince k "m1"
       (PolymarketClient.sent (PolymarketClient.reconnect "key" ScenarioS5.polymarket))
     = 0%nat
  /\ subscribesSince k "m2"
       (PolymarketClient.sent (PolymarketClient.reconnect "key" ScenarioS5.polymarket))
     = 0%nat.
Proof.
  cbv zeta.
  split; [intros c; apply opinion_reconnect_sends_nothing |].
  split; [intros apiKey c; apply polymarket_reconnect_sends_auth_only |].
  vm_compute. repeat split; reflexivity.
Qed.

(** C7 as stated fails: a [subscribeToMarket] issued while the stream is
    not open is not buffered; the id is not in the set afterwards, and a
    later successful connect sends no subscribe frame for it. *)
Lemma subscribe_while_closed_is_lost :
  OpinionClient.streamOpen OpinionClient.initial = false
  /\ ("m1"%string ∉ OpinionClient.subscribedMarkets
        (OpinionClient.subscribeToMarket "m1" OpinionClient.initial))
  /\ OpinionClient.sent
       (OpinionClient.onOpen
          (OpinionClient.connect
             (OpinionClient.subscribeToMarket "m1" OpinionClient.initial))) = []
  /\ PolymarketClient.streamOpen PolymarketClient.initial = false
  /\ ("m1"%string ∉ PolymarketClient.subscribedMarkets
        (PolymarketClient.subscribeToMarket "m1" PolymarketClient.initial))
  /\ PolymarketClient.sent
       (PolymarketClient.onAuthSuccess
          (PolymarketClient.onOpen "key"
             (PolymarketClient.connect
                (PolymarketClient.subscribeToMarket "m1" PolymarketClient.initial))))
     = [Auth "key"].
Proof.
  cbn. repeat split; try reflexivity; apply not_elem_of_nil.
Qed.

(** C7, amended.  [subscribeToMarket] is idempotent on both clients.  On
    an open stream (for Polymarket: open and authenticated) a market id not
    yet in the set gets one subscribe frame and is added to the set, and an
    id already in the set changes nothing.  While the stream is not open the
    call changes nothing: no frame is sent and the set is left as it was. *)
Theorem subscribeToMarket_idempotent_unbuffered (m : string) :
  (forall c : OpinionClient.Client,
     OpinionClient.subscribeToMarket m (OpinionClient.subscribeToMarket m c)
     = OpinionClient.subscribeToMarket m c
     /\ (OpinionClient.streamOpen c = true ->
         m ∉ OpinionClient.subscribedMarkets c ->
         OpinionClient.sent (OpinionClient.subscribeToMarket m c)
         = OpinionClient.sent c ++ [Subscribe m]
         /\ OpinionClient.subscribedMarkets (OpinionClient.subscribeToMarket m c)
            = OpinionClient.subscribedMarkets c ++ [m])
     /\ (OpinionClient.streamOpen c = true ->
         m ∈ OpinionClient.subscribedMarkets c ->
         OpinionClient.subscribeToMarket m c = c)
     /\ (OpinionClient.streamOpen c = false ->
         OpinionClient.subscribeToMarket m c = c))
  /\ (forall c : PolymarketClient.Client,
        let ready := PolymarketClient.streamOpen c && PolymarketClient.isAuthenticated c in
        PolymarketClient.subscribeToMarket m (PolymarketClient.subscribeToMarket m c)
        = PolymarketClient.subscribeToMarket m c
        /\ (ready = true ->
            m ∉ PolymarketClient.subscribedMarkets c ->
            PolymarketClient.sent (PolymarketClient.subscribeToMarket m c)
            = PolymarketClient.sent c ++ [Subscribe m]
            /\ PolymarketClient.subscribedMarkets (PolymarketClient.subscribeToMarket m c)
               = PolymarketClient.subscribedMarkets c ++ [m])
        /\ (ready = true ->
            m ∈ PolymarketClient.subscribedMarkets c ->
            PolymarketClient.subscribeToMarket m c = c)
        /\ (ready = false -> PolymarketClient.subscribeToMarket m c = c)).
Proof.
  split; intros c.
  - split; [apply opinion_subscribe_idempotent |].
    split; [| split].
    + intros Hopen Hnin.
      destruct (opinion_subscribe_fresh m c Hopen Hnin) as (? & ? & _). auto.
    + intros _. apply opinion_subscribe_present.
    + apply opinion_subscribe_closed.
  - cbv zeta. split; [apply polymarket_subscribe_idempotent |].
    split; [| split].
    + intros Hopen Hnin.
      destruct (polymarket_subscribe_fresh m c Hopen Hnin) as (? & ? & _). auto.
    + intros _. apply polymarket_subscribe_present.
    + apply polymarket_subscribe_closed.
Qed.

Lemma subscribeToMarket_idempotent_unbuffered_witness :
  OpinionClient.streamOpen OpinionClient.initial = false
  /\ OpinionClient.subscribeToMarket "m1" OpinionClient.initial = OpinionClient.initial
  /\ OpinionClient.streamOpen ScenarioS5.opinion = true
  /\ ("m1"%string ∈ OpinionClient.subscribedMarkets ScenarioS5.opinion)
  /\ OpinionClient.subscribeToMarket "m1" ScenarioS5.opinion = ScenarioS5.opinion
  /\ ("m3"%string ∉ OpinionClient.subscribedMarkets ScenarioS5.opinion)
  /\ OpinionClient.sent (OpinionClient.subscribeToMarket "m3" ScenarioS5.opinion)
     = OpinionClient.sent ScenarioS5.opinion ++ [Subscribe "m3"].
Proof.
  pose (Hclosed := eq_refl : OpinionClient.streamOpen OpinionClient.initial = false).
  pose (Hopen := eq_refl : OpinionClient.streamOpen ScenarioS5.opinion = true).
  assert (Hs : OpinionClient.subscribedMarkets ScenarioS5.opinion = ["m1"; "m2"]%string)
    by reflexivity.
  assert (Hin : "m1"%string ∈ OpinionClient.subscribedMarkets ScenarioS5.opinion)
    by (rewrite Hs; apply list_elem_of_here).
  assert (Hnin : "m3"%string ∉ OpinionClient.subscribedMarkets ScenarioS5.opinion).
  { rewrite Hs, !not_elem_of_cons.
    repeat split; try discriminate. apply not_elem_of_nil. }
  destruct (proj1 (subscribeToMarket_idempotent_unbuffered "m1")
              OpinionClient.initial) as [_ [_ [_ H1]]].
  destruct (proj1 (subscribeToMarket_idempotent_unbuffered "m1")
              ScenarioS5.opinion) as [_ [_ [H2 _]]].
  destruct (proj1 (subscribeToMarket_idempotent_unbuffered "m3")
              ScenarioS5.opinion) as [_ [H3 _]].
  exact (conj Hclosed (conj (H1 Hclosed) (conj Hopen (conj Hin
           (conj (H2 Hopen Hin) (conj Hnin (proj1 (H3 Hopen Hnin)))))))).
Defined.

(** ** Execution coordinator *)

(** Symbolic execution of the coordinator: unfold the monad, then split on
    the next answer of the store or of a venue. *)
Ltac exec_unfold :=
  cbv beta iota zeta delta
    [Executor.executeArbitrage Executor.finally Executor.tryCatch Executor.tryBody
     Executor.onError Executor.updateStatus Executor.createTrade Executor.place
     Executor.compensate Executor.cancel Executor.storeThrows Executor.bind
     Executor.perform Executor.setStatus Executor.ret Executor.throw
     Executor.effects Executor.statuses Executor.executingOpportunities
     Executor.tradeRows Executor.addExecuting Executor.deleteExecuting fst snd].

Ltac exec_case :=
  match goal with
  | |- context [Executor.dbFails ?v ?es] =>
      let E := fresh "Edb" in destruct (Executor.dbFails v es) eqn:E
  | |- context [Calculator.Qltb (maxPositionSize ?c) ?s] =>
      let E := fresh "Esize" in destruct (Calculator.Qltb (maxPositionSize c) s) eqn:E
  | |- context [Executor.placeOrder ?v ?p ?l] =>
      let E := fresh "Eplace" in destruct (Executor.placeOrder v p l) eqn:E
  | |- context [Executor.cancelOrder ?v ?p ?o] =>
      let E := fresh "Ecancel" in destruct (Executor.cancelOrder v p o) eqn:E
  end;
  exec_unfold.

Section ExecutorFacts.

Import Executor.

Lemma executing_restored (id : string) (s : gset string) :
  id ∉ s -> (s ∪ {[ id ]}) ∖ {[ id ]} = s.
Proof.
  intros H. apply set_eq. intros x.
  rewrite elem_of_difference, elem_of_union, elem_of_singleton.
  split; [tauto |]. intros Hx. split; [tauto | congruence].
Qed.

End ExecutorFacts.

Section ExecutorPremises.

Import Executor.

(** Orders only go out for an opportunity that was not in flight, whose
    size passed the size check, and after the store accepted the write of
    [executing]. *)
Lemma placed_legs_premises (v : Venues) (config : ArbitrageConfig)
    (opp : ArbitrageOpportunity) (w : World) (es : list Effect) :
  effects (snd (executeArbitrage v config opp w)) = effects w ++ es ->
  placedLegs es <> [] ->
  (op_id opp ∉ executingOpportunities w)
  /\ Calculator.Qltb (maxPositionSize config) (op_recommendedSize opp) = false
  /\ dbFails v (effects w ++ [UpdateStatus (op_id opp) executing]) = false.
Proof.
  intros He Hlegs.
  assert (Hnone : forall es', effects w ++ es' = effects w ++ es ->
                    placedLegs es' = [] -> False).
  { intros es' E H. apply app_inv_head in E. subst es'. contradiction. }
  destruct (decide (op_id opp ∈ executingOpportunities w)) as [Hin | Hfresh].
  { exfalso. unfold executeArbitrage in He.
    rewrite bool_decide_eq_true_2 in He by exact Hin. cbn in He.
    apply (Hnone []); [rewrite app_nil_r; exact He | reflexivity]. }
  split; [exact Hfresh |].
  destruct w as [inflight sts rows es0].
  cbn [effects executingOpportunities] in *.
  revert He. exec_unfold. rewrite bool_decide_eq_false_2 by exact Hfresh.
  exec_unfold.
  destruct (dbFails v (es0 ++ [UpdateStatus (op_id opp) executing])) eqn:Edb;
    exec_unfold.
  { exec_case; rewrite <- ?app_assoc; intros He; exfalso;
      (eapply Hnone; [exact He | reflexivity]). }
  destruct (Calculator.Qltb (maxPositionSize config) (op_recommendedSize opp))
    eqn:Esize; exec_unfold.
  { exec_case; rewrite <- ?app_assoc; intros He; exfalso;
      (eapply Hnone; [exact He | reflexivity]). }
  intros _. split; reflexivity.
Qed.

End ExecutorPremises.

(** C3, amended.  When both legs are placed and exactly one [place_order]
    succeeds, the coordinator issues one [cancel_order], for the leg that
    succeeded; a failing cancel is logged and goes no further; it then
    writes the opportunity's status as [expired].  If the store accepts that
    write, [execution_failed] is emitted and the call fails with code
    [EXECUTION_FAILED], the status being [expired].  If the store refuses
    it, nothing is emitted and the call fails with the store's error, code
    [UPDATE_ERROR].  Either way the [catch] block writes [expired] once
    more and logs a refusal of that write; after two refusals the status is
    still [executing].  The opportunity leaves the in-flight set and no
    trade row is written. *)
Theorem partial_failure_compensates
    (v : Executor.Venues) (config : ArbitrageConfig) (opp : ArbitrageOpportunity)
    (w : Executor.World) (p : Platform) (order : Order) (reason : string)
    (Hlegs : exists es,
       Executor.effects (snd (Executor.executeArbitrage v config opp w))
       = Executor.effects w ++ es
       /\ Executor.placedLegs es
          = [ (opinion, Executor.leg opinion opp);
              (polymarket, Executor.leg polymarket opp) ])
    (Hplaced : Executor.placeOrder v p (Executor.leg p opp) = inr order)
    (Hrejected : Executor.placeOrder v (Executor.other p)
                   (Executor.leg (Executor.other p) opp) = inl reason) :
  let '(outcome, w') := Executor.executeArbitrage v config opp w in
  let attempt := Executor.effects w ++ Executor.compensationEffects v opp p order in
  let retry :=
    attempt ++ (if Executor.dbFails v attempt
                then Executor.maskedFailureEffects opp
                else Executor.reportedFailureEffects opp p reason) in
  Executor.effects w'
  = retry ++ (if Executor.dbFails v retry
              then [Executor.LogError "Failed to update opportunity status"]
              else [])
  /\ (if Executor.dbFails v attempt
      then outcome = inl (DatabaseError "Failed to update opportunity status"
                                        "UPDATE_ERROR")
           /\ Executor.statuses w' !! op_id opp
              = (fun _ => if Executor.dbFails v retry then executing else expired)
                <$> (Executor.statuses w !! op_id opp)
      else (exists message, outcome = inl (TradingError message "EXECUTION_FAILED"))
           /\ Executor.statuses w' !! op_id opp
              = (fun _ => expired) <$> (Executor.statuses w !! op_id opp))
  /\ Executor.executingOpportunities w' = Executor.executingOpportunities w
  /\ Executor.tradeRows w' = Executor.tradeRows w.
Proof.
  destruct Hlegs as (es & He & Hes).
  destruct (placed_legs_premises v config opp w es He) as (Hfresh & Hsize & Hstatus).
  { rewrite Hes. discriminate. }
  clear es He Hes.
  destruct w as [inflight sts rows es0].
  cbn [Executor.executingOpportunities Executor.effects] in Hfresh, Hstatus.
  unfold Executor.compensationEffects, Executor.maskedFailureEffects,
    Executor.reportedFailureEffects.
  exec_unfold. rewrite bool_decide_eq_false_2 by exact Hfresh.
  exec_unfold. rewrite Hstatus. exec_unfold. rewrite Hsize. exec_unfold.
  destruct p; cbn [Executor.other] in Hrejected |- *; rewrite Hplaced, Hrejected;
    exec_unfold;
    destruct (Executor.cancelOrder v _ (order_id order)); exec_unfold;
    rewrite <- ?app_assoc; cbn [app];
    match goal with
    | |- context [Executor.dbFails v ?es] =>
        destruct (Executor.dbFails v es) eqn:Eattempt
    end;
    exec_unfold; rewrite <- ?app_assoc; cbn [app];
    match goal with
    | |- context [Executor.dbFails v ?es] =>
        destruct (Executor.dbFails v es) eqn:Eretry
    end;
    exec_unfold; rewrite <- ?app_assoc; cbn [app];
    (split; [reflexivity |]);
    (split; [split; [first [reflexivity | eexists; reflexivity] |];
             rewrite !lookup_alter_eq; destruct (sts !! op_id opp); reflexivity |]);
    (split; [apply executing_restored, Hfresh | reflexivity]).
Qed.

Lemma partial_failure_compensates_witness :
  let '(outcome, w') :=
    Executor.executeArbitrage (ScenarioS4.venues false) Scenario.cfg
      ScenarioS4.opportunity ScenarioS4.world in
  (exists message, outcome = inl (TradingError message "EXECUTION_FAILED"))
  /\ Executor.statuses w' !! "opp-1"%string = Some expired
  /\ Executor.executingOpportunities w'
     = Executor.executingOpportunities ScenarioS4.world
  /\ Executor.tradeRows w' = Executor.tradeRows ScenarioS4.world.
Proof.
  pose proof (partial_failure_compensates (ScenarioS4.venues false) Scenario.cfg
                ScenarioS4.opportunity ScenarioS4.world opinion
                {| order_id := "OA1";
                   order_params := Executor.leg opinion ScenarioS4.opportunity |}
                "TradingError: Failed to place order: timeout") as H.
  destruct (Executor.executeArbitrage _ _ _ _) as [outcome w'] eqn:Erun.
  destruct H as (_ & Hout & Hin & Hrows).
  - exists (Executor.effects w'). split; [reflexivity |].
    apply (f_equal snd) in Erun. cbn [snd] in Erun. rewrite <- Erun.
    vm_compute. reflexivity.
  - reflexivity.
  - reflexivity.
  - cbn in Hout. destruct Hout as [Hmsg Hst].
    repeat split; assumption.
Defined.

(** C3 as stated fails when the store refuses the write of [expired]: in
    scenario S4 with such a store both legs are placed, Opinion accepts its
    leg as order [OA1] and Polymarket rejects its leg, [OA1] is cancelled,
    and then the call fails with [UPDATE_ERROR], not [EXECUTION_FAILED],
    without any [execution_failed] event, and the status stays
    [executing]. *)
Lemma partial_failure_masked_by_store :
  let '(outcome, w') :=
    Executor.executeArbitrage ScenarioStoreRefuses.venues Scenario.cfg
      ScenarioS4.opportunity ScenarioS4.world in
  Executor.placedLegs (Executor.effects w')
  = [ (opinion, Executor.leg opinion ScenarioS4.opportunity);
      (polymarket, Executor.leg polymarket ScenarioS4.opportunity) ]
  /\ (exists order,
        Executor.placeOrder ScenarioStoreRefuses.venues opinion
          (Executor.leg opinion ScenarioS4.opportunity) = inr order
        /\ In (Executor.CancelOrder opinion (order_id order)) (Executor.effects w'))
  /\ (exists reason,
        Executor.placeOrder ScenarioStoreRefuses.venues polymarket
          (Executor.leg polymarket ScenarioS4.opportunity) = inl reason)
  /\ outcome = inl (DatabaseError "Failed to update opportunity status" "UPDATE_ERROR")
  /\ err_code (DatabaseError "Failed to update opportunity status" "UPDATE_ERROR")
     <> "EXECUTION_FAILED"%string
  /\ (forall r, ~ In (Executor.Emit "execution_failed" r) (Executor.effects w'))
  /\ Executor.statuses w' !! "opp-1"%string = Some executing.
Proof.
  vm_compute.
  split; [reflexivity |].
  split; [eexists; split; [reflexivity | tauto] |].
  split; [eexists; reflexivity |].
  split; [reflexivity |].
  split; [discriminate |].
  split; [| reflexivity].
  intros r H. repeat (destruct H as [H | H]; [discriminate H |]). exact H.
Qed.

(** C4 on an opportunity with prices outside [0,1].  From the books of
    [ScenarioOutOfRange] the detector publishes one opportunity, combined
    cost 0.9, Opinion YES at 1.3 and Polymarket NO at -0.4; handed that
    opportunity, the coordinator places the Opinion leg at price 1.3 and the
    Polymarket leg at price -0.4.  Only the size is checked before the
    orders go out. *)
Theorem executor_places_out_of_range_legs :
  exists o,
    ScenarioOutOfRange.published = [o]
    /\ op_combinedCost o == 0.9
    /\ opinionYesPrice o == 1.3
    /\ polymarketNoPrice o == - 0.4
    /\ op_recommendedSize o <= maxPositionSize Scenario.cfg
    /\ (let '(_, w') :=
          Executor.executeArbitrage ScenarioOutOfRange.venues Scenario.cfg o
            ScenarioOutOfRange.world in
        exists legA legB,
          Executor.placedLegs (Executor.effects w')
          = [(opinion, legA); (polymarket, legB)]
          /\ pp_price legA == 1.3 /\ 1 < pp_price legA
          /\ pp_price legB == - 0.4 /\ pp_price legB < 0).
Proof.
  eexists. split; [vm_compute; reflexivity |].
  repeat (split; [vm_compute; congruence |]).
  vm_compute. do 2 eexists. split; [reflexivity |].
  repeat split; reflexivity.
Qed.

(** ** Similarity: the components *)

Section SimilarityComponents.

Import Similarity JaroMatching.

Lemma levenshtein_cons (a b : ascii) (s t : list ascii) :
  levenshtein (a :: s) (b :: t)
  = Nat.min (Nat.min (S (levenshtein s (b :: t))) (S (levenshtein (a :: s) t)))
            (levenshtein s t + (if bool_decide (a = b) then 0 else 1)).
Proof. reflexivity. Qed.

Lemma levenshtein_nil_r (s : list ascii) : levenshtein s [] = length s.
Proof. destruct s; reflexivity. Qed.

Lemma levenshtein_sym (s t : list ascii) : levenshtein s t = levenshtein t s.
Proof.
  revert t. induction s as [| a s IHs]; intros t.
  - cbn. symmetry. apply levenshtein_nil_r.
  - induction t as [| b t IHt].
    + reflexivity.
    + rewrite !levenshtein_cons, IHt, (IHs (b :: t)), (IHs t).
      rewrite (Nat.min_comm (S (levenshtein (b :: t) s))).
      destruct (decide (a = b)) as [-> | Hne].
      * reflexivity.
      * rewrite !bool_decide_eq_false_2 by congruence. reflexivity.
Qed.

Lemma levenshtein_refl (s : list ascii) : levenshtein s s = 0%nat.
Proof.
  induction s as [| a s IH]; [reflexivity |].
  rewrite levenshtein_cons, IH, bool_decide_eq_true_2 by reflexivity.
  apply Nat.min_r. lia.
Qed.

Lemma length_list_ascii (str : string) :
  length (list_ascii_of_string str) = String.length str.
Proof. induction str as [| c str IH]; cbn; [reflexivity | now rewrite IH]. Qed.

Lemma calculateLevenshteinSimilarity_sym (str1 str2 : string) :
  calculateLevenshteinSimilarity str1 str2 = calculateLevenshteinSimilarity str2 str1.
Proof.
  unfold calculateLevenshteinSimilarity.
  rewrite (Nat.max_comm (String.length str2)), (levenshtein_sym (list_ascii_of_string str2)).
  reflexivity.
Qed.

Lemma calculateLevenshteinSimilarity_refl (str : string) :
  calculateLevenshteinSimilarity str str == 1.
Proof.
  unfold calculateLevenshteinSimilarity. rewrite levenshtein_refl.
  destruct (_ =? 0)%nat; [reflexivity |].
  unfold Qnat. cbn. unfold Qdiv. rewrite Qmult_0_l. reflexivity.
Qed.

Lemma commonPrefix_sym (s1 s2 : list ascii) (n : nat) :
  commonPrefix s1 s2 n = commonPrefix s2 s1 n.
Proof.
  revert s1 s2. induction n as [| n IH]; intros [| a s1] [| b s2]; cbn; try reflexivity.
  destruct (decide (a = b)) as [-> | Hne].
  - rewrite bool_decide_eq_true_2 by reflexivity. now rewrite IH.
  - rewrite !bool_decide_eq_false_2 by congruence. reflexivity.
Qed.

Lemma getCommonPrefixLength_sym (str1 str2 : string) (n : nat) :
  getCommonPrefixLength str1 str2 n = getCommonPrefixLength str2 str1 n.
Proof.
  unfold getCommonPrefixLength.
  rewrite (Nat.min_comm (String.length str2)). apply commonPrefix_sym.
Qed.

Lemma flagged_skipUnmatched (l : list (ascii * bool)) :
  flagged (skipUnmatched l) = flagged l.
Proof.
  induction l as [| [d [|]] l IH]; cbn; [reflexivity | reflexivity | exact IH].
Qed.

Lemma skipUnmatched_head (l : list (ascii * bool)) (d : ascii) (f : bool)
    (l' : list (ascii * bool)) :
  skipUnmatched l = (d, f) :: l' -> f = true.
Proof.
  induction l as [| [e [|]] l IH]; cbn; intros H.
  - discriminate.
  - now injection H as _ <- _.
  - auto.
Qed.

Lemma countTranspositions_mismatches (l1 l2 : list (ascii * bool)) :
  countTranspositions l1 l2 = mismatches (flagged l1) (flagged l2).
Proof.
  revert l2. induction l1 as [| [c [|]] l1 IH]; intros l2; cbn.
  - reflexivity.
  - rewrite <- (flagged_skipUnmatched l2).
    destruct (skipUnmatched l2) as [| [d f] l2'] eqn:E.
    + reflexivity.
    + apply skipUnmatched_head in E as ->. cbn. now rewrite IH.
  - apply IH.
Qed.

Lemma mismatches_sym (x y : list ascii) : mismatches x y = mismatches y x.
Proof.
  revert y. induction x as [| a x IH]; intros [| b y]; cbn; try reflexivity.
  rewrite IH. destruct (decide (a = b)) as [-> | Hne]; [reflexivity |].
  rewrite !bool_decide_eq_false_2 by congruence. reflexivity.
Qed.

Lemma countTranspositions_sym (l1 l2 : list (ascii * bool)) :
  countTranspositions l1 l2 = countTranspositions l2 l1.
Proof. rewrite !countTranspositions_mismatches. apply mismatches_sym. Qed.

Lemma calculateTokenOverlap_sym (tokens1 tokens2 : list string) :
  calculateTokenOverlap tokens1 tokens2 = calculateTokenOverlap tokens2 tokens1.
Proof.
  unfold calculateTokenOverlap.
  generalize (list_to_set tokens2 : gset string), (list_to_set tokens1 : gset string).
  intros Y X.
  assert (E1 : Y ∩ X = X ∩ Y) by apply intersection_comm_L.
  assert (E2 : Y ∪ X = X ∪ Y) by apply union_comm_L.
  rewrite E1, E2. reflexivity.
Qed.

Lemma Qnat_div_self (n : nat) : (0 < n)%nat -> Qnat n / Qnat n == 1.
Proof.
  intros Hn. apply Qmult_inv_r. unfold Qnat, Qeq. cbn. lia.
Qed.

Lemma calculateTokenOverlap_refl (tokens1 : list string) :
  tokens1 <> [] -> calculateTokenOverlap tokens1 tokens1 == 1.
Proof.
  intros Hne. unfold calculateTokenOverlap.
  assert (Hpos : (0 < base.size (list_to_set tokens1 : gset string))%nat).
  { destruct tokens1 as [| t ts]; [congruence |].
    apply Nat.neq_0_lt_0, size_non_empty_iff. intros Hempty.
    apply (not_elem_of_empty (C := gset string) t). rewrite <- Hempty.
    cbn. apply elem_of_union_l, elem_of_singleton. reflexivity. }
  revert Hpos. generalize (list_to_set tokens1 : gset string). intros X Hpos.
  assert (E1 : X ∩ X = X) by apply intersection_idemp_L.
  assert (E2 : X ∪ X = X) by apply union_idemp_L.
  rewrite E1, E2.
  rewrite (proj2 (Nat.ltb_lt _ _) Hpos). apply Qnat_div_self, Hpos.
Qed.

Lemma calculateTokenOverlap_nil : calculateTokenOverlap [] [] = 0.
Proof. reflexivity. Qed.

Lemma closeDates_sym (d1 d2 : Z) : closeDates d1 d2 = closeDates d2 d1.
Proof.
  unfold closeDates. now replace (Z.abs (d2 - d1)) with (Z.abs (d1 - d2)) by lia.
Qed.

Lemma closeDates_refl (d : Z) : closeDates d d = true.
Proof. unfold closeDates. rewrite Z.sub_diag. reflexivity. Qed.

Lemma existsb_swap {A B} (f : A -> B -> bool) (l1 : list A) (l2 : list B) :
  existsb (fun a => existsb (f a) l2) l1 = existsb (fun b => existsb (fun a => f a b) l1) l2.
Proof.
  apply eq_true_iff_eq. rewrite !existsb_exists. split.
  - intros (a & Ha & Hb). apply existsb_exists in Hb as (b & Hb & Hf).
    exists b. split; [exact Hb |]. apply existsb_exists. eauto.
  - intros (b & Hb & Ha). apply existsb_exists in Ha as (a & Ha & Hf).
    exists a. split; [exact Ha |]. apply existsb_exists. eauto.
Qed.

Lemma existsb_pointwise {A} (f g : A -> bool) (l : list A) :
  (forall a, f a = g a) -> existsb f l = existsb g l.
Proof.
  intros Hfg. induction l as [| a l IH]; cbn; [reflexivity |].
  now rewrite Hfg, IH.
Qed.

Lemma calculateDateSimilarity_sym (dates1 dates2 : list Z) :
  calculateDateSimilarity dates1 dates2 = calculateDateSimilarity dates2 dates1.
Proof.
  unfold calculateDateSimilarity.
  rewrite (andb_comm (length dates2 =? 0)%nat), (orb_comm (length dates2 =? 0)%nat).
  rewrite (existsb_swap closeDates dates1 dates2).
  rewrite (existsb_pointwise _ (fun date1 => existsb (closeDates date1) dates1) dates2);
    [reflexivity |].
  intros b. apply existsb_pointwise. intros a. apply closeDates_sym.
Qed.

Lemma calculateDateSimilarity_refl (dates1 : list Z) :
  calculateDateSimilarity dates1 dates1 = 1.
Proof.
  unfold calculateDateSimilarity. destruct dates1 as [| d ds]; [reflexivity |].
  cbn. now rewrite closeDates_refl.
Qed.

End SimilarityComponents.

(** ** Similarity: the matching loop of [calculateJaroSimilarity] *)

Section MatchingLoop.

Import Similarity JaroMatching.

Variables (s1 s2 : list ascii) (w : Z).

Lemma findMatch_Some (c : ascii) (m2 : list bool) (j n r : nat) :
  findMatch c s2 m2 j n = Some r ->
  (j <= r < j + n)%nat
  /\ default false (m2 !! r) = false
  /\ s2 !! r = Some c
  /\ forall k, (j <= k < r)%nat ->
       default false (m2 !! k) = true \/ s2 !! k <> Some c.
Proof.
  revert j. induction n as [| n IH]; intros j; cbn; [discriminate |].
  destruct (default false (m2 !! j)) eqn:Etaken; cbn.
  - intros H. apply IH in H as (Hr & Hfree & Hc & Hskip).
    repeat split; try assumption; try lia.
    intros k Hk. destruct (decide (k = j)) as [-> | Hne]; [now left |].
    apply Hskip. lia.
  - destruct (bool_decide (s2 !! j = Some c)) eqn:Esame; cbn.
    + intros [= <-]. apply bool_decide_eq_true_1 in Esame.
      repeat split; try assumption; try lia.
    + intros H. apply IH in H as (Hr & Hfree & Hc & Hskip).
      apply bool_decide_eq_false_1 in Esame.
      repeat split; try assumption; try lia.
      intros k Hk. destruct (decide (k = j)) as [-> | Hne]; [now right |].
      apply Hskip. lia.
Qed.

Lemma findMatch_None (c : ascii) (m2 : list bool) (j n : nat) :
  findMatch c s2 m2 j n = None ->
  forall k, (j <= k < j + n)%nat ->
    default false (m2 !! k) = true \/ s2 !! k <> Some c.
Proof.
  revert j. induction n as [| n IH]; intros j; cbn; [intros _ k Hk; lia |].
  destruct (default false (m2 !! j)) eqn:Etaken; cbn.
  - intros H k Hk. destruct (decide (k = j)) as [-> | Hne]; [now left |].
    apply (IH _ H). lia.
  - destruct (bool_decide (s2 !! j = Some c)) eqn:Esame; cbn; [discriminate |].
    apply bool_decide_eq_false_1 in Esame.
    intros H k Hk. destruct (decide (k = j)) as [-> | Hne]; [now right |].
    apply (IH _ H). lia.
Qed.

Lemma countTrue_insert (l : list bool) (i : nat) :
  l !! i = Some false -> countTrue (<[i := true]> l) = S (countTrue l).
Proof.
  unfold countTrue. revert i. induction l as [| x l IH]; intros [| i]; cbn;
    try discriminate.
  - intros [= ->]. reflexivity.
  - intros H. pose proof (IH _ H) as IH'. destruct x; cbn; [f_equal |]; exact IH'.
Qed.

Lemma countTrue_replicate (n : nat) : countTrue (replicate n false) = 0%nat.
Proof. unfold countTrue. induction n as [| n IH]; [reflexivity | exact IH]. Qed.

(** An admissible partner of [i] lies in the window the inner loop
    scans. *)
Lemma edge_window (i b : nat) :
  edge s1 s2 w i b ->
  (windowStart w i <= b
   < windowStart w i + (windowEnd w i (length s2) - windowStart w i))%nat.
Proof.
  intros [Hw (c & _ & Hb)]. apply lookup_lt_Some in Hb.
  unfold windowStart, windowEnd. lia.
Qed.

Lemma window_edge (i j : nat) (c : ascii) :
  s1 !! i = Some c -> s2 !! j = Some c ->
  (windowStart w i <= j
   < windowStart w i + (windowEnd w i (length s2) - windowStart w i))%nat ->
  edge s1 s2 w i j.
Proof.
  intros Hi Hj Hwin. split; [| eauto].
  unfold windowStart, windowEnd in Hwin. lia.
Qed.

Lemma Inv_init :
  Inv s1 s2 w 0
    {| str1Matches := replicate (length s1) false;
       str2Matches := replicate (length s2) false;
       matches := 0 |}
    (fun _ _ => False).
Proof.
  constructor; cbn [str1Matches str2Matches matches].
  - apply length_replicate.
  - apply length_replicate.
  - intros a. rewrite lookup_replicate. split; [intros [? _]; discriminate |].
    intros [_ []].
  - intros b. rewrite lookup_replicate. split; [intros [? _]; discriminate |].
    intros [_ []].
  - intros a b b' [].
  - intros a a' b [].
  - intros a b [].
  - intros a b Ha. lia.
  - now rewrite countTrue_replicate.
  - now rewrite countTrue_replicate.
Qed.

(** A flag that is not [true] on an index within range is [false]. *)
Lemma flag_false (l : list bool) (k : nat) :
  (k < length l)%nat -> l !! k <> Some true -> l !! k = Some false.
Proof.
  intros Hk Hnt. destruct (lookup_lt_is_Some_2 l k Hk) as [[|] Hx]; congruence.
Qed.

Lemma default_true (l : list bool) (k : nat) :
  default false (l !! k) = true -> l !! k = Some true.
Proof. destruct (l !! k) as [[|] |]; cbn; congruence. Qed.

Lemma Inv_step_skip (i : nat) (st : Matching) (R : nat -> nat -> Prop) (c : ascii) :
  Inv s1 s2 w i st R ->
  s1 !! i = Some c ->
  findMatch c s2 (str2Matches st) (windowStart w i)
    (windowEnd w i (length s2) - windowStart w i) = None ->
  Inv s1 s2 w (S i) st R.
Proof.
  intros HI Hc Hnone. destruct HI.
  constructor; try assumption.
  - intros a b HR. destruct (inv_edge0 a b HR). split; [lia | assumption].
  - intros a b Ha He. destruct (decide (a = i)) as [-> | Hne].
    + right. pose proof (edge_window _ _ He) as Hwin.
      destruct (findMatch_None _ _ _ _ Hnone b Hwin) as [Htaken | Hdiff].
      * apply default_true, inv_flag4 in Htaken as [a' HR].
        exists a'. split; [apply (inv_edge0 _ _ HR) | exact HR].
      * destruct He as [_ (c' & Hi & Hb)]. congruence.
    + apply inv_greedy0; [lia | assumption].
Qed.

Lemma Inv_step_match (i j : nat) (st : Matching) (R : nat -> nat -> Prop) (c : ascii) :
  Inv s1 s2 w i st R ->
  s1 !! i = Some c ->
  findMatch c s2 (str2Matches st) (windowStart w i)
    (windowEnd w i (length s2) - windowStart w i) = Some j ->
  Inv s1 s2 w (S i)
    {| str1Matches := <[i := true]> (str1Matches st);
       str2Matches := <[j := true]> (str2Matches st);
       matches := S (matches st) |}
    (fun a b => R a b \/ (a = i /\ b = j)).
Proof.
  intros HI Hc Hsome. destruct HI.
  apply findMatch_Some in Hsome as (Hwin & Hfree & Hj & Hskip).
  assert (Hi1 : (i < length (str1Matches st))%nat)
    by (rewrite inv_len3; eapply lookup_lt_Some; eassumption).
  assert (Hj2 : (j < length (str2Matches st))%nat)
    by (rewrite inv_len4; eapply lookup_lt_Some; eassumption).
  assert (HnoRi : forall b, ~ R i b)
    by (intros b HR; destruct (inv_edge0 _ _ HR); lia).
  assert (HnoRj : forall a, ~ R a j).
  { intros a HR. assert (Ht : str2Matches st !! j = Some true)
      by (apply inv_flag4; eauto).
    rewrite Ht in Hfree. discriminate. }
  assert (Hf1 : str1Matches st !! i = Some false).
  { apply flag_false; [exact Hi1 |]. intros Ht.
    apply inv_flag3 in Ht as [b HR]. exact (HnoRi _ HR). }
  assert (Hf2 : str2Matches st !! j = Some false).
  { apply flag_false; [exact Hj2 |]. intros Ht.
    apply inv_flag4 in Ht as [a HR]. exact (HnoRj _ HR). }
  constructor; cbn [str1Matches str2Matches matches].
  - now rewrite length_insert.
  - now rewrite length_insert.
  - intros a. destruct (decide (a = i)) as [-> | Hne].
    + rewrite list_lookup_insert_eq by exact Hi1.
      split; [intros _; exists j; now right | reflexivity].
    + rewrite list_lookup_insert_ne by congruence. rewrite inv_flag3.
      split; intros [b Hb]; exists b; [now left |].
      destruct Hb as [Hb | [Ha _]]; [exact Hb | congruence].
  - intros b. destruct (decide (b = j)) as [-> | Hne].
    + rewrite list_lookup_insert_eq by exact Hj2.
      split; [intros _; exists i; now right | reflexivity].
    + rewrite list_lookup_insert_ne by congruence. rewrite inv_flag4.
      split; intros [a Ha]; exists a; [now left |].
      destruct Ha as [Ha | [_ Hb]]; [exact Ha | congruence].
  - intros a b b' [HR | [-> ->]] [HR' | [Ha Hb]].
    + eapply inv_fun0; eassumption.
    + subst. destruct (HnoRi _ HR).
    + destruct (HnoRi _ HR').
    + congruence.
  - intros a a' b [HR | [-> ->]] [HR' | [Ha Hb]].
    + eapply inv_inj0; eassumption.
    + subst. destruct (HnoRj _ HR).
    + destruct (HnoRj _ HR').
    + congruence.
  - intros a b [HR | [-> ->]].
    + destruct (inv_edge0 _ _ HR). split; [lia | assumption].
    + split; [lia |]. eapply window_edge; eassumption.
  - intros a b Ha He. destruct (decide (a = i)) as [-> | Hne].
    + destruct (le_lt_dec j b) as [Hle | Hlt].
      * left. exists j. split; [exact Hle | now right].
      * right. pose proof (edge_window _ _ He) as Hwinb.
        destruct (Hskip b ltac:(lia)) as [Htaken | Hdiff].
        -- apply default_true, inv_flag4 in Htaken as [a' HR].
           exists a'. split; [apply (inv_edge0 _ _ HR) | now left].
        -- destruct He as [_ (c' & Hi & Hb)]. congruence.
    + destruct (inv_greedy0 a b ltac:(lia) He) as [(b' & Hb' & HR) | (a' & Ha' & HR)].
      * left. exists b'. split; [exact Hb' | now left].
      * right. exists a'. split; [exact Ha' | now left].
  - rewrite countTrue_insert by exact Hf1. now rewrite inv_count3.
  - rewrite countTrue_insert by exact Hf2. now rewrite inv_count4.
Qed.

Lemma Inv_step (i : nat) (st : Matching) (R : nat -> nat -> Prop) :
  (i < length s1)%nat ->
  Inv s1 s2 w i st R ->
  exists R', Inv s1 s2 w (S i) (matchStep s1 s2 w st i) R'.
Proof.
  intros Hi HI. unfold matchStep.
  destruct (lookup_lt_is_Some_2 s1 i Hi) as [c Hc]. rewrite Hc.
  destruct (findMatch _ _ _ _ _) as [j |] eqn:Efind.
  - eexists. eapply Inv_step_match; eassumption.
  - exists R. eapply Inv_step_skip; eassumption.
Qed.

Lemma Inv_fold (k i : nat) (st : Matching) (R : nat -> nat -> Prop) :
  (i + k <= length s1)%nat ->
  Inv s1 s2 w i st R ->
  exists R', Inv s1 s2 w (i + k) (fold_left (matchStep s1 s2 w) (seq i k) st) R'.
Proof.
  revert i st R. induction k as [| k IH]; intros i st R Hk HI; cbn.
  - rewrite Nat.add_0_r. eauto.
  - destruct (Inv_step i st R ltac:(lia) HI) as [R1 HI1].
    replace (i + S k)%nat with (S i + k)%nat by lia.
    eapply IH; [lia | exact HI1].
Qed.

Lemma Inv_Greedy (st : Matching) (R : nat -> nat -> Prop) :
  Inv s1 s2 w (length s1) st R -> Greedy s1 s2 w R.
Proof.
  intros HI. destruct HI. constructor.
  - intros a b HR. apply (inv_edge0 _ _ HR).
  - exact inv_fun0.
  - exact inv_inj0.
  - intros a b He.
    assert (Ha : (a < length s1)%nat).
    { destruct He as [_ (c & Hc & _)]. eapply lookup_lt_Some; eassumption. }
    destruct (inv_greedy0 a b Ha He) as [H | (a' & Ha' & HR)]; [now left |].
    right. exists a'. split; [lia | exact HR].
Qed.

(** Two greedy matchings agree: by induction on the sum of the two
    positions of a pair. *)
Lemma Greedy_incl (R R' : nat -> nat -> Prop) :
  Greedy s1 s2 w R -> Greedy s1 s2 w R' ->
  forall a b,
    (forall a0 b0, (a0 + b0 < a + b)%nat -> R' a0 b0 -> R a0 b0) ->
    R a b -> R' a b.
Proof.
  intros HG HG' a b IH HR.
  destruct (gr_first _ _ _ _ HG' a b (gr_edge _ _ _ _ HG _ _ HR))
    as [(b' & Hb' & HR') | (a' & Ha' & HR')].
  - destruct (decide (b' = b)) as [-> | Hne]; [exact HR' |].
    assert (HRb : R a b') by (apply IH; [lia | exact HR']).
    pose proof (gr_fun _ _ _ _ HG _ _ _ HR HRb). congruence.
  - destruct (decide (a' = a)) as [-> | Hne]; [exact HR' |].
    assert (HRa : R a' b) by (apply IH; [lia | exact HR']).
    pose proof (gr_inj _ _ _ _ HG _ _ _ HR HRa). congruence.
Qed.

Lemma Greedy_unique (R R' : nat -> nat -> Prop) :
  Greedy s1 s2 w R -> Greedy s1 s2 w R' -> forall a b, R a b <-> R' a b.
Proof.
  intros HG HG'.
  assert (H : forall n a b, (a + b < n)%nat -> R a b <-> R' a b).
  { induction n as [| n IH]; intros a b Hn; [lia |].
    split; intros HR.
    - eapply (Greedy_incl R R'); try eassumption.
      intros a0 b0 Hlt. apply IH. lia.
    - eapply (Greedy_incl R' R); try eassumption.
      intros a0 b0 Hlt. apply IH. lia. }
  intros a b. apply (H (S (a + b))). lia.
Qed.

End MatchingLoop.

(** ** Similarity: symmetry and self-similarity *)

Section SimilarityFacts.

Import Similarity JaroMatching.

Lemma findMatches_Inv (s1 s2 : list ascii) :
  exists R, Inv s1 s2 (matchWindow (length s1) (length s2)) (length s1)
              (findMatches s1 s2) R.
Proof.
  unfold findMatches.
  apply (Inv_fold s1 s2 _ (length s1) 0 _ (fun _ _ => False));
    [reflexivity | apply Inv_init].
Qed.

Lemma edge_flip (s1 s2 : list ascii) (w : Z) (a b : nat) :
  edge s2 s1 w b a -> edge s1 s2 w a b.
Proof.
  intros [Hw (c & Hb & Ha)]. split; [lia | eauto].
Qed.

Lemma Greedy_flip (s1 s2 : list ascii) (w : Z) (R : nat -> nat -> Prop) :
  Greedy s2 s1 w R -> Greedy s1 s2 w (fun a b => R b a).
Proof.
  intros [He Hf Hi Hg]. constructor.
  - intros a b HR. apply edge_flip, He, HR.
  - intros a b b' HR HR'. eapply Hi; eassumption.
  - intros a a' b HR HR'. eapply Hf; eassumption.
  - intros a b Hab. destruct (Hg b a (edge_flip _ _ _ _ _ Hab)) as [H | H];
      [right | left]; exact H.
Qed.

Lemma matchWindow_comm (n m : nat) : matchWindow n m = matchWindow m n.
Proof. unfold matchWindow. now rewrite Nat.max_comm. Qed.

Lemma flags_ext (l l' : list bool) :
  length l = length l' ->
  (forall a, l !! a = Some true <-> l' !! a = Some true) ->
  l = l'.
Proof.
  intros Hlen Hext. apply list_eq. intros a.
  destruct (l !! a) as [x |] eqn:E, (l' !! a) as [y |] eqn:E'.
  - destruct x, y; try reflexivity.
    + apply Hext in E. congruence.
    + apply Hext in E'. congruence.
  - apply lookup_lt_Some in E. apply lookup_ge_None in E'. lia.
  - apply lookup_ge_None in E. apply lookup_lt_Some in E'. lia.
  - reflexivity.
Qed.

(** Walking the second string against the first forms the same pairs. *)
Lemma findMatches_sym (s1 s2 : list ascii) :
  str1Matches (findMatches s1 s2) = str2Matches (findMatches s2 s1)
  /\ str2Matches (findMatches s1 s2) = str1Matches (findMatches s2 s1)
  /\ matches (findMatches s1 s2) = matches (findMatches s2 s1).
Proof.
  destruct (findMatches_Inv s1 s2) as [R HI].
  destruct (findMatches_Inv s2 s1) as [R' HI'].
  rewrite (matchWindow_comm (length s2)) in HI'.
  pose proof (Inv_Greedy _ _ _ _ _ HI) as HG.
  pose proof (Greedy_flip _ _ _ _ (Inv_Greedy _ _ _ _ _ HI')) as HG'.
  pose proof (Greedy_unique _ _ _ _ _ HG HG') as Huniq.
  destruct HI, HI'.
  assert (E1 : str1Matches (findMatches s1 s2) = str2Matches (findMatches s2 s1)).
  { apply flags_ext; [congruence |]. intros a.
    rewrite inv_flag3, inv_flag6. split; intros [b Hb]; exists b; now apply Huniq. }
  assert (E2 : str2Matches (findMatches s1 s2) = str1Matches (findMatches s2 s1)).
  { apply flags_ext; [congruence |]. intros b.
    rewrite inv_flag4, inv_flag5. split; intros [a Ha]; exists a; now apply Huniq. }
  repeat split; try assumption.
  rewrite inv_count3, inv_count6. now rewrite E1.
Qed.

(** Every flag of the first string has its partner in the second: the
    inner [while] of the transposition loop always finds a flag. *)
Lemma findMatches_balanced (s1 s2 : list ascii) :
  countTrue (str1Matches (findMatches s1 s2))
  = countTrue (str2Matches (findMatches s1 s2)).
Proof.
  destruct (findMatches_Inv s1 s2) as [R HI]. destruct HI. congruence.
Qed.

Lemma Qplus_comm_eq (x y : Q) : x + y = y + x.
Proof.
  unfold Qplus. f_equal; [apply Z.add_comm | apply Pos.mul_comm].
Qed.

Lemma calculateJaroSimilarity_sym (str1 str2 : string) :
  calculateJaroSimilarity str1 str2 = calculateJaroSimilarity str2 str1.
Proof.
  unfold calculateJaroSimilarity.
  destruct (decide (str1 = str2)) as [-> | Hne]; [reflexivity |].
  rewrite !bool_decide_eq_false_2 by congruence.
  rewrite (orb_comm (length (list_ascii_of_string str2) =? 0)%nat).
  destruct (_ || _); [reflexivity |].
  destruct (findMatches_sym (list_ascii_of_string str1) (list_ascii_of_string str2))
    as (E1 & E2 & E3).
  rewrite <- E1, <- E2, <- E3.
  destruct (_ =? 0)%nat; [reflexivity |].
  rewrite (countTranspositions_sym
             (zip (list_ascii_of_string str2) _)).
  rewrite (Qplus_comm_eq (Qnat _ / Qnat (length (list_ascii_of_string str2)))).
  reflexivity.
Qed.

Lemma calculateJaroWinklerSimilarity_sym (str1 str2 : string) :
  calculateJaroWinklerSimilarity str1 str2 = calculateJaroWinklerSimilarity str2 str1.
Proof.
  unfold calculateJaroWinklerSimilarity.
  now rewrite calculateJaroSimilarity_sym, getCommonPrefixLength_sym.
Qed.

Lemma calculateJaroWinklerSimilarity_refl (str : string) :
  calculateJaroWinklerSimilarity str str == 1.
Proof.
  unfold calculateJaroWinklerSimilarity, calculateJaroSimilarity.
  rewrite bool_decide_eq_true_2 by reflexivity. ring.
Qed.

Lemma calculateSimilarity_sym (market1 market2 : NormalizedMarket) :
  calculateSimilarity market1 market2 = calculateSimilarity market2 market1.
Proof.
  unfold calculateSimilarity.
  now rewrite calculateLevenshteinSimilarity_sym, calculateJaroWinklerSimilarity_sym,
    calculateTokenOverlap_sym, calculateDateSimilarity_sym.
Qed.

Lemma clamp_id (q x : Q) : 0 <= x -> x <= 1 -> q == x -> Qmin 1 (Qmax 0 q) == x.
Proof.
  intros H0 H1 Hq.
  assert (Hmax : Qmax 0 q == q) by (apply Q.max_r; lra).
  destruct (Q.min_spec 1 (Qmax 0 q)) as [[Hlt ->] | [Hle ->]]; lra.
Qed.

Lemma calculateSimilarity_refl (market : NormalizedMarket) :
  tokens market <> [] -> calculateSimilarity market market == 1.
Proof.
  intros Htok. unfold calculateSimilarity.
  apply clamp_id; [lra | lra |].
  rewrite calculateLevenshteinSimilarity_refl, calculateJaroWinklerSimilarity_refl,
    (calculateTokenOverlap_refl _ Htok), calculateDateSimilarity_refl.
  reflexivity.
Qed.

Lemma calculateSimilarity_refl_no_tokens (market : NormalizedMarket) :
  tokens market = [] -> calculateSimilarity market market == 0.7.
Proof.
  intros Htok. unfold calculateSimilarity.
  apply clamp_id; [lra | lra |].
  rewrite calculateLevenshteinSimilarity_refl, calculateJaroWinklerSimilarity_refl,
    Htok, calculateTokenOverlap_nil, calculateDateSimilarity_refl.
  reflexivity.
Qed.

End SimilarityFacts.

(** C9 as stated fails in its first half: the market with title [Up?]
    normalises to the title [up] with no token (no word longer than two
    letters), and its similarity with itself is 0.7, not 1. *)
Lemma self_similarity_without_tokens :
  normalizedTitle ScenarioMarkets.upNormalized = "up"%string
  /\ tokens ScenarioMarkets.upNormalized = []
  /\ Similarity.calculateSimilarity ScenarioMarkets.upNormalized
       ScenarioMarkets.upNormalized == 0.7
  /\ ~ Similarity.calculateSimilarity ScenarioMarkets.upNormalized
         ScenarioMarkets.upNormalized == 1.
Proof.
  split; [reflexivity |]. split; [reflexivity |].
  assert (H : Similarity.calculateSimilarity ScenarioMarkets.upNormalized
                ScenarioMarkets.upNormalized == 0.7)
    by (apply calculateSimilarity_refl_no_tokens; reflexivity).
  split; [exact H |]. rewrite H. intros Habs. vm_compute in Habs. discriminate.
Qed.

(** C9, amended.  [calculateSimilarity] is symmetric in its two markets.  A
    normalised market with at least one token has similarity 1 with itself;
    one without tokens has similarity 0.7 with itself, the token overlap of
    two empty token sets being 0. *)
Theorem calculateSimilarity_symmetric_reflexive_on_tokens :
  (forall m1 m2 : NormalizedMarket,
     Similarity.calculateSimilarity m1 m2 = Similarity.calculateSimilarity m2 m1)
  /\ (forall m : NormalizedMarket,
        tokens m <> [] -> Similarity.calculateSimilarity m m == 1)
  /\ (forall m : NormalizedMarket,
        tokens m = [] -> Similarity.calculateSimilarity m m == 0.7).
Proof.
  split; [exact calculateSimilarity_sym |].
  split; [exact calculateSimilarity_refl | exact calculateSimilarity_refl_no_tokens].
Qed.

Lemma calculateSimilarity_symmetric_reflexive_on_tokens_witness :
  let m := Similarity.normalizeMarket ScenarioMarkets.noDates ScenarioMarkets.opinionBtc in
  tokens m <> [] /\ Similarity.calculateSimilarity m m == 1.
Proof.
  assert (H : tokens (Similarity.normalizeMarket ScenarioMarkets.noDates
                        ScenarioMarkets.opinionBtc) <> [])
    by (vm_compute; discriminate).
  exact (conj H (proj1 (proj2 calculateSimilarity_symmetric_reflexive_on_tokens) _ H)).
Defined.

(** ** Market-sync *)

Lemma afterOne_eq :
  ScenarioSync.afterOne = [ScenarioSync.row "market-btc-up-1700000000000"].
Proof. vm_compute. reflexivity. Qed.

Lemma afterTwo_eq :
  ScenarioSync.afterTwo
  = [ScenarioSync.row "market-btc-up-1700000000000";
     ScenarioSync.row "market-btc-up-1700000060000"].
Proof. vm_compute. reflexivity. Qed.

(** C8 on two sync runs over the same listings.  The first run stores one
    mapping for the pair [o1], [p1]; the second run, a minute later, gives
    the same pair a canonical id with another clock suffix, finds no row
    under that id, and inserts a second mapping: two canonical ids now refer
    to the one Opinion market and to the one Polymarket market. *)
Theorem resync_duplicates_venue_ids :
  map canonical_market_id ScenarioSync.afterOne = ["market-btc-up-1700000000000"%string]
  /\ map canonical_market_id ScenarioSync.afterTwo
     = ["market-btc-up-1700000000000"; "market-btc-up-1700000060000"]%string
  /\ map opinion_market_id ScenarioSync.afterTwo = [Some "o1"; Some "o1"]%string
  /\ map polymarket_market_id ScenarioSync.afterTwo = [Some "p1"; Some "p1"]%string
  /\ Spec.venue_ids_unique ScenarioSync.afterOne
  /\ ~ Spec.venue_ids_unique ScenarioSync.afterTwo.
Proof.
  rewrite afterOne_eq, afterTwo_eq.
  split; [reflexivity |]. split; [reflexivity |].
  split; [reflexivity |]. split; [reflexivity |].
  split.
  - intros r1 r2 H1 H2 Hne.
    apply list_elem_of_singleton in H1 as ->, H2 as ->. congruence.
  - intros Huniq.
    destruct (Huniq (ScenarioSync.row "market-btc-up-1700000000000")
                    (ScenarioSync.row "market-btc-up-1700000060000")) as [Hop _].
    + apply list_elem_of_here.
    + apply list_elem_of_further, list_elem_of_here.
    + cbn. discriminate.
    + exact (Hop "o1"%string eq_refl eq_refl).
Qed.

(* ================================================================== *)
(** * Further properties of the code *)
(* ================================================================== *)

(** ** Calculator: best prices, liquidity, slippage *)

Section CalculatorBestPrice.

Import Calculator.

Lemma Qmax_cases (x y : Q) : Qmax x y = x \/ Qmax x y = y.
Proof.
  unfold Qmax, GenericMinMax.gmax. destruct (x ?= y); auto.
Qed.

Lemma Qmin_cases (x y : Q) : Qmin x y = x \/ Qmin x y = y.
Proof.
  unfold Qmin, GenericMinMax.gmin. destruct (x ?= y); auto.
Qed.

Lemma maxOf_spec (xs : list Q) (x : Q) :
  In (maxOf x xs) (x :: xs) /\ forall y, In y (x :: xs) -> y <= maxOf x xs.
Proof.
  revert x. induction xs as [| a xs IH]; intros x; cbn.
  - split; [now left |]. intros y [<- | []]. apply Qle_refl.
  - destruct (IH (Qmax x a)) as [Hin Hle]. split.
    + destruct Hin as [Hm | Hm]; [| now right; right].
      unfold maxOf in Hm. cbn. rewrite <- Hm.
      destruct (Qmax_cases x a) as [-> | ->]; [now left | now right; left].
    + intros y Hy.
      assert (Hq : Qmax x a <= maxOf (Qmax x a) xs) by (apply Hle; now left).
      destruct Hy as [<- | [<- | Hy]].
      * eapply Qle_trans; [apply Q.le_max_l | exact Hq].
      * eapply Qle_trans; [apply Q.le_max_r | exact Hq].
      * apply Hle. now right.
Qed.

Lemma minOf_spec (xs : list Q) (x : Q) :
  In (minOf x xs) (x :: xs) /\ forall y, In y (x :: xs) -> minOf x xs <= y.
Proof.
  revert x. induction xs as [| a xs IH]; intros x; cbn.
  - split; [now left |]. intros y [<- | []]. apply Qle_refl.
  - destruct (IH (Qmin x a)) as [Hin Hle]. split.
    + destruct Hin as [Hm | Hm]; [| now right; right].
      unfold minOf in Hm. cbn. rewrite <- Hm.
      destruct (Qmin_cases x a) as [-> | ->]; [now left | now right; left].
    + intros y Hy.
      assert (Hq : minOf (Qmin x a) xs <= Qmin x a) by (apply Hle; now left).
      destruct Hy as [<- | [<- | Hy]].
      * eapply Qle_trans; [exact Hq | apply Q.le_min_l].
      * eapply Qle_trans; [exact Hq | apply Q.le_min_r].
      * apply Hle. now right.
Qed.

Lemma extractBestPrice_bid (b : Orderbook) (p : Q) :
  extractBestPrice b bid = Some p ->
  (exists l, In l (bids b) /\ price l = p)
  /\ (forall l, In l (bids b) -> price l <= p).
Proof.
  unfold extractBestPrice.
  destruct (map price (bids b)) as [| x xs] eqn:E; [discriminate |].
  intros [= <-]. destruct (maxOf_spec xs x) as [Hin Hle]. rewrite <- E in Hin, Hle.
  split.
  - apply in_map_iff in Hin as (l & Hl & Hin). eauto.
  - intros l Hl. apply Hle, in_map, Hl.
Qed.

Lemma extractBestPrice_ask (b : Orderbook) (p : Q) :
  extractBestPrice b ask = Some p ->
  (exists l, In l (asks b) /\ price l = p)
  /\ (forall l, In l (asks b) -> p <= price l).
Proof.
  unfold extractBestPrice.
  destruct (map price (asks b)) as [| x xs] eqn:E; [discriminate |].
  intros [= <-]. destruct (minOf_spec xs x) as [Hin Hle]. rewrite <- E in Hin, Hle.
  split.
  - apply in_map_iff in Hin as (l & Hl & Hin). eauto.
  - intros l Hl. apply Hle, in_map, Hl.
Qed.

Lemma extractBestPrice_None (b : Orderbook) :
  (extractBestPrice b bid = None <-> bids b = [])
  /\ (extractBestPrice b ask = None <-> asks b = []).
Proof.
  unfold extractBestPrice. split.
  - destruct (bids b); cbn; split; congruence.
  - destruct (asks b); cbn; split; congruence.
Qed.

End CalculatorBestPrice.

(** X1.  [extractBestPrice] returns [null] exactly on an empty side;
    otherwise the best bid is the price of one of the bids and no bid is
    priced higher, and the best ask is the price of one of the asks and no
    ask is priced lower, whatever the order of the levels in the book. *)
Theorem extractBestPrice_is_extremum (b : Orderbook) :
  (Calculator.extractBestPrice b bid = None <-> bids b = [])
  /\ (Calculator.extractBestPrice b ask = None <-> asks b = [])
  /\ (forall p, Calculator.extractBestPrice b bid = Some p ->
        (exists l, In l (bids b) /\ price l = p)
        /\ (forall l, In l (bids b) -> price l <= p))
  /\ (forall p, Calculator.extractBestPrice b ask = Some p ->
        (exists l, In l (asks b) /\ price l = p)
        /\ (forall l, In l (asks b) -> p <= price l)).
Proof.
  destruct (extractBestPrice_None b) as [Hb Ha].
  repeat split; try (apply Hb); try (apply Ha);
    try (now apply extractBestPrice_bid); try (now apply extractBestPrice_ask).
Qed.

Section CalculatorLiquidity.

Import Calculator.

Lemma sumSizes_acc (l : list Level) (a : Q) :
  fold_left (fun sum x => sum + size x) l a == a + sumSizes l.
Proof.
  unfold sumSizes. revert a. induction l as [| x l IH]; intros a; cbn.
  - ring.
  - rewrite (IH (a + size x)), (IH (0 + size x)). ring.
Qed.

Lemma sumSizes_cons (x : Level) (l : list Level) :
  sumSizes (x :: l) == size x + sumSizes l.
Proof. unfold sumSizes at 1. cbn. rewrite sumSizes_acc. ring. Qed.

Lemma sumSizes_nonneg (l : list Level) :
  (forall x, In x l -> 0 <= size x) -> 0 <= sumSizes l.
Proof.
  induction l as [| x l IH]; intros H.
  - apply Qle_refl.
  - rewrite sumSizes_cons.
    assert (0 <= size x) by (apply H; now left).
    assert (0 <= sumSizes l) by (apply IH; intros y Hy; apply H; now right).
    lra.
Qed.

Lemma sumSizes_filter (f : Level -> bool) (l : list Level) :
  (forall x, In x l -> 0 <= size x) ->
  sumSizes (List.filter f l) <= sumSizes l.
Proof.
  induction l as [| x l IH]; intros H; [apply Qle_refl |].
  assert (Hx : 0 <= size x) by (apply H; now left).
  assert (Hl : sumSizes (List.filter f l) <= sumSizes l)
    by (apply IH; intros y Hy; apply H; now right).
  cbn [List.filter]. destruct (f x); rewrite ?sumSizes_cons; lra.
Qed.

End CalculatorLiquidity.

(** X2.  [calculateLiquidity] without a price cap sums the sizes of the
    whole side.  A cap of [0] is no cap at all (it fails the truthiness
    test), and with a cap the result never exceeds the uncapped one when no
    size is negative. *)
Theorem calculateLiquidity_cap (b : Orderbook) (side : BookSide) (cap : Q)
    (Hsizes : forall l, In l (bids b ++ asks b) -> 0 <= size l) :
  Calculator.calculateLiquidity b side (Some 0) = Calculator.calculateLiquidity b side None
  /\ Calculator.calculateLiquidity b side (Some cap)
     <= Calculator.calculateLiquidity b side None
  /\ 0 <= Calculator.calculateLiquidity b side (Some cap).
Proof.
  split; [destruct side; reflexivity |].
  unfold Calculator.calculateLiquidity, Calculator.truthy.
  destruct side; destruct (Qeq_bool cap 0); split;
    try apply Qle_refl;
    try (apply sumSizes_filter; intros l Hl; apply Hsizes, in_or_app; auto);
    apply sumSizes_nonneg; intros l Hl;
    try (apply List.filter_In in Hl as [Hl _]); apply Hsizes, in_or_app; auto.
Qed.

Lemma calculateLiquidity_cap_witness :
  Calculator.calculateLiquidity ScenarioBook.book ask (Some 0.55)
  <= Calculator.calculateLiquidity ScenarioBook.book ask None.
Proof.
  refine (proj1 (proj2 (calculateLiquidity_cap ScenarioBook.book ask 0.55 _))).
  intros l Hl. cbn in Hl.
  repeat (destruct Hl as [<- | Hl]; [vm_compute; discriminate |]). destruct Hl.
Defined.

(** X3.  [extractMarketPrices] returns [null] exactly when the bids or the
    asks are empty; otherwise its price lies between the best bid and the
    best ask (in either order) and its liquidity is the total size of the
    book. *)
Theorem extractMarketPrices_null_iff_empty_side (b : Orderbook) (o : Outcome) :
  (Calculator.extractMarketPrices b o = None <-> bids b = [] \/ asks b = [])
  /\ (forall r, Calculator.extractMarketPrices b o = Some r ->
        exists bestBid bestAsk,
          Calculator.extractBestPrice b bid = Some bestBid
          /\ Calculator.extractBestPrice b ask = Some bestAsk
          /\ Qmin bestBid bestAsk <= Calculator.pl_price r <= Qmax bestBid bestAsk
          /\ Calculator.pl_liquidity r
             = Calculator.sumSizes (bids b) + Calculator.sumSizes (asks b)).
Proof.
  destruct (extractBestPrice_None b) as [Hb Ha].
  unfold Calculator.extractMarketPrices.
  destruct (Calculator.extractBestPrice b bid) as [bb |] eqn:Eb;
    destruct (Calculator.extractBestPrice b ask) as [ba |] eqn:Ea; split.
  - split; [discriminate |]. intros [H | H].
    + apply Hb in H. discriminate.
    + apply Ha in H. discriminate.
  - intros r [= <-]. exists bb, ba. cbn.
    repeat split; try reflexivity.
    + destruct (Q.min_spec bb ba) as [[Hlt ->] | [Hle ->]];
        apply Qle_shift_div_l; lra.
    + destruct (Q.max_spec bb ba) as [[Hlt ->] | [Hle ->]];
        apply Qle_shift_div_r; lra.
  - split; [intros _; right; now apply Ha | reflexivity].
  - discriminate.
  - split; [intros _; left; now apply Hb | reflexivity].
  - discriminate.
  - split; [intros _; left; now apply Hb | reflexivity].
  - discriminate.
Qed.

(** X4.  [estimateSlippage] on binary64 numbers.  For an order size that
    is zero or negative, and for an empty side, the result is [0].
    Otherwise the quotient of the cost by the size filled is rounded, and
    need not lie between the prices of the book: buying 3 contracts from a
    book whose only ask is 3 contracts at 0.1 is estimated at
    0.10000000000000002, above 0.1. *)
Theorem estimateSlippage_on_doubles :
  (forall b s side,
     (s <=? 0)%float = true -> Doubles.estimateSlippage b s side = 0%float)
  /\ (forall b s side,
        match side with
        | Calculator.buySide => Doubles.asks b
        | Calculator.sellSide => Doubles.bids b
        end = [] ->
        Doubles.estimateSlippage b s side = 0%float)
  /\ (exists p,
        Doubles.asks ScenarioDoubles.thinBook
        = [ {| Doubles.price := p; Doubles.size := 3 |} ]
        /\ (p <? Doubles.estimateSlippage ScenarioDoubles.thinBook 3
                   Calculator.buySide)%float = true).
Proof.
  split; [| split].
  - intros b s side Hs. unfold Doubles.estimateSlippage.
    destruct side;
      match goal with
      | |- context [Doubles.fillOrders ?l _ _ _] => destruct l as [| o rest]
      end; cbn [Doubles.fillOrders]; rewrite ?Hs; reflexivity.
  - intros b s side Hempty. unfold Doubles.estimateSlippage.
    destruct side; rewrite Hempty; reflexivity.
  - eexists. split; [reflexivity | vm_compute; reflexivity].
Qed.

(** X31.  The size check of the coordinator on binary64 numbers.  The
    check lets an opportunity through exactly when its recommended size is
    at most the maximum position size or one of the two is NaN.  A NaN size
    does reach it: with an Opinion depth of NaN, [calculateArbitrage]
    returns an opportunity whose recommended size is NaN, and the check
    lets that size through. *)
Theorem size_check_on_doubles :
  (forall recommendedSize maxPositionSize,
     Doubles.sizeLimitExceeded recommendedSize maxPositionSize = false
     <-> (recommendedSize <=? maxPositionSize)%float = true
         \/ is_nan maxPositionSize = true \/ is_nan recommendedSize = true)
  /\ (exists r,
        Doubles.calculateArbitrage ScenarioDoubles.cfg
          ScenarioDoubles.opinionNoDepth ScenarioDoubles.polymarketPrices = Some r
        /\ is_nan (Doubles.recommendedSize r) = true
        /\ Doubles.sizeLimitExceeded (Doubles.recommendedSize r)
             (Doubles.maxPositionSize ScenarioDoubles.cfg) = false).
Proof.
  split.
  - intros size limit. unfold Doubles.sizeLimitExceeded. apply ltb_false_iff.
  - eexists. split; [vm_compute; reflexivity |]. split; vm_compute; reflexivity.
Qed.

(** X7.  The two legs of a calculation are always on opposite outcomes:
    YES on Opinion and NO on Polymarket exactly when that path is strictly
    cheaper, NO on Opinion and YES on Polymarket otherwise (also on a tie);
    the combined cost is the cost of the chosen path and the recommended
    size the smallest of the two liquidities of the chosen sides and the
    maximum position size. *)
Theorem calculateArbitrage_sides (cfg : ArbitrageConfig) (a b : MarketPrices)
    (r : ArbitrageCalculation)
    (Hr : Calculator.calculateArbitrage cfg a b = Some r) :
  (Calculator.path1Cost a b < Calculator.path2Cost a b
   /\ opinionSide r = yes /\ polymarketSide r = no
   /\ combinedCost r = Calculator.path1Cost a b
   /\ recommendedSize r
      = Calculator.min3 (yesLiquidity a) (noLiquidity b) (maxPositionSize cfg))
  \/ (Calculator.path2Cost a b <= Calculator.path1Cost a b
      /\ opinionSide r = no /\ polymarketSide r = yes
      /\ combinedCost r = Calculator.path2Cost a b
      /\ recommendedSize r
         = Calculator.min3 (noLiquidity a) (yesLiquidity b) (maxPositionSize cfg)).
Proof.
  revert Hr. unfold Calculator.calculateArbitrage.
  destruct (Calculator.Qltb _ _) eqn:Epath;
    (destruct (Qle_bool (threshold cfg) _); [discriminate |]);
    (destruct (Calculator.Qltb _ (minLiquidity cfg)); [discriminate |]);
    (destruct (Qle_bool _ 0); [discriminate |]);
    intros [= <-]; cbn.
  - left. apply Qltb_lt in Epath. tauto.
  - right. apply Qltb_ge in Epath. tauto.
Qed.

Lemma calculateArbitrage_sides_witness :
  exists r,
    Calculator.calculateArbitrage Scenario.cfg
      Scenario.opinionPrices Scenario.polymarketPrices = Some r
    /\ opinionSide r = no /\ polymarketSide r = yes.
Proof.
  eexists. split; [reflexivity |].
  destruct (calculateArbitrage_sides Scenario.cfg
              Scenario.opinionPrices Scenario.polymarketPrices _ eq_refl)
    as [(H & _) | (_ & H1 & H2 & _)].
  - vm_compute in H. discriminate.
  - exact (conj H1 H2).
Defined.

Section DetectorInvariants.

Variable parseFloat : string -> Q.

Lemma Qmin_same (x : Q) : Qmin x x = x.
Proof.
  unfold Qmin, GenericMinMax.gmin.
  destruct (Qcompare x x) eqn:E; try reflexivity.
Qed.

(** What [evaluate] hands to the rest of [checkArbitrage]. *)
Lemma evaluate_Some (env : Detector.Env) (opinionId polymarketId : string)
    (books : Detector.MarketOrderbooks) (a b : MarketPrices)
    (calc : ArbitrageCalculation) :
  Detector.evaluate parseFloat env opinionId polymarketId books = Some (a, b, calc) ->
  Calculator.calculateArbitrage (Detector.config env) a b = Some calc
  /\ yesPrice a = noPrice a /\ yesLiquidity a = noLiquidity a
  /\ yesPrice b = noPrice b /\ yesLiquidity b = noLiquidity b
  /\ (exists o p, Detector.mo_opinion books = Some o
                  /\ Detector.mo_polymarket books = Some p
                  /\ ou_bids o <> [] /\ ou_asks o <> []
                  /\ pu_bids p <> [] /\ pu_asks p <> []).
Proof.
  unfold Detector.evaluate.
  destruct (Detector.mo_opinion books) as [o |]; [| discriminate].
  destruct (Detector.mo_polymarket books) as [p |]; [| discriminate].
  rewrite (extractMarketPrices_outcome (Detector.opinionBook opinionId o) no yes).
  rewrite (extractMarketPrices_outcome
             (Detector.polymarketBook parseFloat polymarketId p) no yes).
  destruct (Calculator.extractMarketPrices (Detector.opinionBook opinionId o) yes)
    as [oy |] eqn:Eo; [| discriminate].
  destruct (Calculator.extractMarketPrices
              (Detector.polymarketBook parseFloat polymarketId p) yes)
    as [py |] eqn:Ep; [| discriminate].
  destruct (Calculator.calculateArbitrage _ _ _) as [c |] eqn:Ec; [| discriminate].
  intros [= <- <- <-]. repeat split; try assumption.
  exists o, p.
  destruct (extractBestPrice_None (Detector.opinionBook opinionId o)) as [Hob Hoa].
  destruct (extractBestPrice_None
              (Detector.polymarketBook parseFloat polymarketId p)) as [Hpb Hpa].
  unfold Calculator.extractMarketPrices in Eo, Ep.
  repeat split; try reflexivity; intros E.
  - rewrite (proj2 Hob E) in Eo. discriminate Eo.
  - rewrite (proj2 Hoa E) in Eo.
    destruct (Calculator.extractBestPrice (Detector.opinionBook opinionId o) bid);
      discriminate Eo.
  - rewrite (proj2 Hpb) in Ep; [discriminate Ep |]. cbn. now rewrite E.
  - rewrite (proj2 Hpa) in Ep; [| cbn; now rewrite E].
    destruct (Calculator.extractBestPrice
                (Detector.polymarketBook parseFloat polymarketId p) bid);
      discriminate Ep.
Qed.


(** One run of [checkArbitrage]: the books are left alone, and either
    nothing is published or one opportunity is, built from the books stored
    under the canonical id and from the mapping of that id. *)
Lemma checkArbitrage_cases (env : Detector.Env) (st : Detector.State)
    (canonicalId : string) :
  Detector.orderbooks (Detector.checkArbitrage parseFloat env st canonicalId)
  = Detector.orderbooks st
  /\ (Detector.emitted (Detector.checkArbitrage parseFloat env st canonicalId)
      = Detector.emitted st
      \/ exists o books mapping a b calc,
           Detector.emitted (Detector.checkArbitrage parseFloat env st canonicalId)
           = Detector.emitted st ++ [o]
           /\ Detector.orderbooks st !! canonicalId = Some books
           /\ MarketMappingModel.findByCanonicalId (Detector.mappings env) canonicalId
              = Some mapping
           /\ Detector.evaluate parseFloat env (opinionMarketId o)
                (polymarketMarketId o) books = Some (a, b, calc)
           /\ opinion_market_id mapping = Some (opinionMarketId o)
           /\ polymarket_market_id mapping = Some (polymarketMarketId o)
           /\ canonicalMarketId o = canonicalId
           /\ detectedAt o = Detector.now env
           /\ op_combinedCost o = combinedCost calc
           /\ op_profitPotential o = profitPotential calc
           /\ op_recommendedSize o = recommendedSize calc
           /\ opinionYesPrice o = yesPrice a /\ opinionNoPrice o = noPrice a
           /\ polymarketYesPrice o = yesPrice b /\ polymarketNoPrice o = noPrice b
           /\ opinionLiquidity o = Qmin (yesLiquidity a) (noLiquidity a)
           /\ polymarketLiquidity o = Qmin (yesLiquidity b) (noLiquidity b)).
Proof.
  unfold Detector.checkArbitrage.
  destruct (Detector.orderbooks st !! canonicalId) as [books |]; [| auto].
  destruct (MarketMappingModel.findByCanonicalId _ _) as [mapping |]; [| auto].
  destruct (MarketMappingModel.orNull (opinion_market_id mapping))
    as [opinionId |] eqn:Eo; [| auto].
  destruct (MarketMappingModel.orNull (polymarket_market_id mapping))
    as [polymarketId |] eqn:Ep; [| auto].
  destruct (Detector.evaluate _ _ _ _ _) as [[[a b] calc] |] eqn:Ev; [| auto].
  destruct (Detector.createOpportunity env _) as [savedId |]; [| auto].
  split; [reflexivity |]. right.
  eexists _, books, mapping, a, b, calc. cbn.
  assert (Ho : opinion_market_id mapping = Some opinionId).
  { unfold MarketMappingModel.orNull in Eo.
    destruct (opinion_market_id mapping) as [x |]; [| discriminate Eo].
    destruct (decide (x = EmptyString)); [discriminate Eo | exact Eo]. }
  assert (Hp : polymarket_market_id mapping = Some polymarketId).
  { unfold MarketMappingModel.orNull in Ep.
    destruct (polymarket_market_id mapping) as [x |]; [| discriminate Ep].
    destruct (decide (x = EmptyString)); [discriminate Ep | exact Ep]. }
  repeat split; auto.
Qed.


(** What every published opportunity carries: the calculation behind it
    took the second path, the two paths costing the same. *)
Lemma checkArbitrage_one_path (env : Detector.Env) (st : Detector.State)
    (canonicalId : string) :
  Detector.emitted (Detector.checkArbitrage parseFloat env st canonicalId)
  = Detector.emitted st
  \/ exists o,
       Detector.emitted (Detector.checkArbitrage parseFloat env st canonicalId)
       = Detector.emitted st ++ [o]
       /\ opinionYesPrice o = opinionNoPrice o
       /\ polymarketYesPrice o = polymarketNoPrice o
       /\ op_combinedCost o = opinionNoPrice o + polymarketYesPrice o
       /\ op_profitPotential o = 1 - op_combinedCost o
       /\ op_recommendedSize o
          = Calculator.min3 (opinionLiquidity o) (polymarketLiquidity o)
              (maxPositionSize (Detector.config env))
       /\ exists a b calc,
            Calculator.calculateArbitrage (Detector.config env) a b = Some calc
            /\ opinionSide calc = no /\ polymarketSide calc = yes
            /\ combinedCost calc = op_combinedCost o
            /\ recommendedSize calc = op_recommendedSize o.
Proof.
  destruct (checkArbitrage_cases env st canonicalId) as [_ [H | H]]; [now left |].
  destruct H as (o & books & mapping & a & b & calc & He & _ & _ & Hev & _ & _ & _
                 & _ & Hcc & Hpp & Hsz & Hoy & Hon & Hpy & Hpn & Hol & Hpl).
  right. exists o. split; [exact He |].
  destruct (evaluate_Some _ _ _ _ _ _ _ Hev) as (Hc & Ha & Hal & Hb & Hbl & _).
  assert (Hpath : Calculator.path1Cost a b = Calculator.path2Cost a b).
  { unfold Calculator.path1Cost, Calculator.path2Cost. now rewrite Ha, Hb. }
  assert (Hsides : combinedCost calc = Calculator.path2Cost a b
                   /\ profitPotential calc = 1 - combinedCost calc
                   /\ recommendedSize calc
                      = Calculator.min3 (noLiquidity a) (yesLiquidity b)
                          (maxPositionSize (Detector.config env))
                   /\ opinionSide calc = no /\ polymarketSide calc = yes).
  { revert Hc. unfold Calculator.calculateArbitrage. rewrite Hpath.
    assert (E : Calculator.Qltb (Calculator.path2Cost a b) (Calculator.path2Cost a b)
                = false) by (apply Qltb_ge; apply Qle_refl).
    rewrite E.
    (destruct (Qle_bool (threshold _) _); [discriminate |]);
    (destruct (Calculator.Qltb _ (minLiquidity _)); [discriminate |]);
    (destruct (Qle_bool _ 0); [discriminate |]).
    intros [= <-]. cbn. repeat split. }
  destruct Hsides as (Hcost & Hprofit & Hsize & Hs1 & Hs2).
  rewrite Hcc, Hpp, Hsz, Hoy, Hon, Hpy, Hpn, Hol, Hpl.
  split; [exact Ha |]. split; [exact Hb |]. split; [exact Hcost |].
  split; [exact Hprofit |]. split.
  - rewrite Hal, Hbl, !Qmin_same, <- Hbl. exact Hsize.
  - exists a, b, calc. repeat split; assumption.
Qed.

End DetectorInvariants.

(** X8.  One order-book event changes the detector's state in two ways at
    most: the book of the update replaces the earlier book of the same venue
    under the canonical id its venue market id is mapped to (the other
    venue's book is kept), and at most one opportunity is appended to those
    already published; an update for a venue market id without a mapping
    changes nothing. *)
Theorem detector_step_effect (parseFloat : string -> Q)
    (st : Detector.State) (e : Detector.Event) :
  (exists new,
     Detector.emitted (Detector.step parseFloat st e) = Detector.emitted st ++ new
     /\ (length new <= 1)%nat
     /\ forall o, In o new -> detectedAt o = Detector.now (Detector.envOf e))
  /\ match e with
     | Detector.OpinionOrderbook env u =>
         match MarketMappingModel.findByOpinionId (Detector.mappings env) (ou_marketId u) with
         | None => Detector.step parseFloat st e = st
         | Some m =>
             Detector.orderbooks (Detector.step parseFloat st e)
             = <[canonical_market_id m :=
                   {| Detector.mo_opinion := Some u;
                      Detector.mo_polymarket :=
                        Detector.mo_polymarket
                          (Detector.booksOf st (canonical_market_id m)) |}]>
                 (Detector.orderbooks st)
         end
     | Detector.PolymarketOrderbook env u =>
         match MarketMappingModel.findByPolymarketId (Detector.mappings env)
                 (pu_marketId u) with
         | None => Detector.step parseFloat st e = st
         | Some m =>
             Detector.orderbooks (Detector.step parseFloat st e)
             = <[canonical_market_id m :=
                   {| Detector.mo_opinion :=
                        Detector.mo_opinion
                          (Detector.booksOf st (canonical_market_id m));
                      Detector.mo_polymarket := Some u |}]>
                 (Detector.orderbooks st)
         end
     end.
Proof.
  destruct e as [env u | env u]; cbn [Detector.step Detector.envOf];
    [unfold Detector.handleOpinionOrderbook;
     destruct (MarketMappingModel.findByOpinionId _ _) as [m |]
    |unfold Detector.handlePolymarketOrderbook;
     destruct (MarketMappingModel.findByPolymarketId _ _) as [m |]].
  all: try (split; [exists []; rewrite app_nil_r; repeat split;
                    [cbn; lia | intros o []] | reflexivity]).
  all: match goal with
       | |- context [Detector.checkArbitrage _ _ ?st' ?cid] =>
           destruct (checkArbitrage_cases parseFloat env st' cid) as [Hb [He | He]]
       end.
  all: split; [| rewrite Hb; reflexivity].
  all: try (exists []; rewrite app_nil_r; rewrite He;
            repeat split; [cbn; lia | intros o []]).
  all: destruct He as (o & books & mapping & a & b & calc & He & _ & _ & _ & _ & _
                       & _ & Hnow & _);
    exists [o]; rewrite He; repeat split; [cbn; lia |];
    intros o' [<- | []]; exact Hnow.
Qed.

(** X9.  Every opportunity a run of the detector publishes, the handlers
    sharing one configuration, was priced on the second path: its YES and NO
    prices are equal on each venue, so both paths cost the same and the
    calculation behind it is the one for NO on Opinion and YES on
    Polymarket; its combined cost is the Opinion NO price plus the
    Polymarket YES price, its profit potential one minus that cost, and its
    recommended size the smallest of its two liquidities and the maximum
    position size. *)
Theorem detector_run_prices_second_path (parseFloat : string -> Q)
    (cfg : ArbitrageConfig) (es : list Detector.Event)
    (Hcfg : forall e, In e es -> Detector.config (Detector.envOf e) = cfg) :
  forall o, In o (Detector.emitted (Detector.run parseFloat es)) ->
    opinionYesPrice o = opinionNoPrice o
    /\ polymarketYesPrice o = polymarketNoPrice o
    /\ op_combinedCost o = opinionNoPrice o + polymarketYesPrice o
    /\ op_profitPotential o = 1 - op_combinedCost o
    /\ op_recommendedSize o
       = Calculator.min3 (opinionLiquidity o) (polymarketLiquidity o)
           (maxPositionSize cfg)
    /\ exists a b calc,
         Calculator.calculateArbitrage cfg a b = Some calc
         /\ opinionSide calc = no /\ polymarketSide calc = yes
         /\ combinedCost calc = op_combinedCost o
         /\ recommendedSize calc = op_recommendedSize o.
Proof.
  unfold Detector.run.
  set (Good := fun o : ArbitrageOpportunity =>
    opinionYesPrice o = opinionNoPrice o
    /\ polymarketYesPrice o = polymarketNoPrice o
    /\ op_combinedCost o = opinionNoPrice o + polymarketYesPrice o
    /\ op_profitPotential o = 1 - op_combinedCost o
    /\ op_recommendedSize o
       = Calculator.min3 (opinionLiquidity o) (polymarketLiquidity o)
           (maxPositionSize cfg)
    /\ exists a b calc,
         Calculator.calculateArbitrage cfg a b = Some calc
         /\ opinionSide calc = no /\ polymarketSide calc = yes
         /\ combinedCost calc = op_combinedCost o
         /\ recommendedSize calc = op_recommendedSize o).
  assert (Hstep : forall env st cid, Detector.config env = cfg ->
            (forall o, In o (Detector.emitted st) -> Good o) ->
            forall o, In o (Detector.emitted
                              (Detector.checkArbitrage parseFloat env st cid)) -> Good o).
  { intros env st cid Hc Hst o Ho.
    destruct (checkArbitrage_one_path parseFloat env st cid) as [E | (o' & E & H)].
    - rewrite E in Ho. now apply Hst.
    - rewrite E in Ho. apply in_app_or in Ho as [Ho | [<- | []]]; [now apply Hst |].
      rewrite Hc in H. exact H. }
  assert (Hrun : forall st,
            (forall o, In o (Detector.emitted st) -> Good o) ->
            forall o, In o (Detector.emitted
                              (fold_left (Detector.step parseFloat) es st)) -> Good o).
  { induction es as [| e es' IH]; intros st Hst; [exact Hst |].
    cbn [fold_left]. apply IH.
    - intros e' He'. apply Hcfg. now right.
    - assert (Hc : Detector.config (Detector.envOf e) = cfg) by (apply Hcfg; now left).
      destruct e as [env u | env u]; cbn [Detector.step Detector.envOf] in *.
      + unfold Detector.handleOpinionOrderbook.
        destruct (MarketMappingModel.findByOpinionId _ _); [| exact Hst].
        apply Hstep; [exact Hc | exact Hst].
      + unfold Detector.handlePolymarketOrderbook.
        destruct (MarketMappingModel.findByPolymarketId _ _); [| exact Hst].
        apply Hstep; [exact Hc | exact Hst]. }
  apply Hrun. intros o [].
Qed.

Lemma detector_run_prices_second_path_witness :
  Forall (fun o => opinionYesPrice o = opinionNoPrice o
                   /\ op_combinedCost o = opinionNoPrice o + polymarketYesPrice o)
         (Detector.emitted (Detector.run parseDecimal Scenario.events)).
Proof.
  assert (Hcfg : forall e, In e Scenario.events ->
                   Detector.config (Detector.envOf e) = Scenario.cfg).
  { intros e [<- | [<- | [<- | []]]]; reflexivity. }
  apply List.Forall_forall. intros o Ho.
  pose proof (detector_run_prices_second_path parseDecimal Scenario.cfg
                Scenario.events Hcfg o Ho) as H.
  split; apply H.
Defined.

Section DetectorSilence.

Variable parseFloat : string -> Q.

Lemma checkArbitrage_needs_books (env : Detector.Env) (st : Detector.State)
    (canonicalId : string) :
  (forall books, Detector.orderbooks st !! canonicalId = Some books ->
     match Detector.mo_opinion books, Detector.mo_polymarket books with
     | Some o, Some p =>
         ou_bids o = [] \/ ou_asks o = [] \/ pu_bids p = [] \/ pu_asks p = []
     | _, _ => True
     end) ->
  Detector.emitted (Detector.checkArbitrage parseFloat env st canonicalId)
  = Detector.emitted st.
Proof.
  intros Hbooks.
  destruct (checkArbitrage_cases parseFloat env st canonicalId) as [_ [H | H]];
    [exact H |].
  destruct H as (o & books & mapping & a & b & calc & _ & Hl & _ & Hev & _).
  destruct (evaluate_Some _ _ _ _ _ _ _ _ Hev)
    as (_ & _ & _ & _ & _ & uo & up & Huo & Hup & H1 & H2 & H3 & H4).
  specialize (Hbooks books Hl). rewrite Huo, Hup in Hbooks. tauto.
Qed.

Lemma run_one_venue (es : list Detector.Event) (st : Detector.State) :
  ((forall e, In e es -> exists env u, e = Detector.OpinionOrderbook env u)
   /\ (forall cid books, Detector.orderbooks st !! cid = Some books ->
         Detector.mo_polymarket books = None))
  \/ ((forall e, In e es -> exists env u, e = Detector.PolymarketOrderbook env u)
      /\ (forall cid books, Detector.orderbooks st !! cid = Some books ->
            Detector.mo_opinion books = None)) ->
  Detector.emitted (fold_left (Detector.step parseFloat) es st) = Detector.emitted st.
Proof.
  revert st. induction es as [| e es' IH]; intros st H; [reflexivity |].
  cbn [fold_left].
  assert (Hstep :
    Detector.emitted (Detector.step parseFloat st e) = Detector.emitted st
    /\ ((forall cid books, Detector.orderbooks st !! cid = Some books ->
           Detector.mo_polymarket books = None) ->
        (exists env u, e = Detector.OpinionOrderbook env u) ->
        forall cid books,
          Detector.orderbooks (Detector.step parseFloat st e) !! cid = Some books ->
          Detector.mo_polymarket books = None)
    /\ ((forall cid books, Detector.orderbooks st !! cid = Some books ->
           Detector.mo_opinion books = None) ->
        (exists env u, e = Detector.PolymarketOrderbook env u) ->
        forall cid books,
          Detector.orderbooks (Detector.step parseFloat st e) !! cid = Some books ->
          Detector.mo_opinion books = None)).
  { destruct H as [[Hes Hst] | [Hes Hst]];
      destruct (Hes e (or_introl eq_refl)) as (env & u & ->);
      cbn [Detector.step].
    - unfold Detector.handleOpinionOrderbook.
      destruct (MarketMappingModel.findByOpinionId _ _) as [m |].
      2: { repeat split; auto. }
      match goal with
      | |- context [Detector.checkArbitrage _ _ _ ?cid] => set (c := cid)
      end.
      match goal with
      | |- context [Detector.checkArbitrage _ _ ?st' _] => set (st1 := st')
      end.
      assert (Hst1 : forall cid books, Detector.orderbooks st1 !! cid = Some books ->
                       Detector.mo_polymarket books = None).
      { intros cid books. subst st1. cbn [Detector.orderbooks].
        destruct (decide (c = cid)) as [<- | Hne].
        - rewrite lookup_insert_eq. intros [= <-]. cbn.
          unfold Detector.booksOf.
          destruct (Detector.orderbooks st !! c) as [b0 |] eqn:E; cbn; [| reflexivity].
          now apply (Hst c).
        - rewrite lookup_insert_ne by exact Hne. apply Hst. }
      destruct (checkArbitrage_cases parseFloat env st1 c) as [Hb _].
      split; [| split].
      + rewrite checkArbitrage_needs_books; [reflexivity |].
        intros books Hl. rewrite (Hst1 _ _ Hl).
        destruct (Detector.mo_opinion books); exact I.
      + intros _ _. rewrite Hb. exact Hst1.
      + intros _ (? & ? & [=]).
    - unfold Detector.handlePolymarketOrderbook.
      destruct (MarketMappingModel.findByPolymarketId _ _) as [m |].
      2: { repeat split; auto. }
      match goal with
      | |- context [Detector.checkArbitrage _ _ _ ?cid] => set (c := cid)
      end.
      match goal with
      | |- context [Detector.checkArbitrage _ _ ?st' _] => set (st1 := st')
      end.
      assert (Hst1 : forall cid books, Detector.orderbooks st1 !! cid = Some books ->
                       Detector.mo_opinion books = None).
      { intros cid books. subst st1. cbn [Detector.orderbooks].
        destruct (decide (c = cid)) as [<- | Hne].
        - rewrite lookup_insert_eq. intros [= <-]. cbn.
          unfold Detector.booksOf.
          destruct (Detector.orderbooks st !! c) as [b0 |] eqn:E; cbn; [| reflexivity].
          now apply (Hst c).
        - rewrite lookup_insert_ne by exact Hne. apply Hst. }
      destruct (checkArbitrage_cases parseFloat env st1 c) as [Hb _].
      split; [| split].
      + rewrite checkArbitrage_needs_books; [reflexivity |].
        intros books Hl. rewrite (Hst1 _ _ Hl). exact I.
      + intros _ (? & ? & [=]).
      + intros _ _. rewrite Hb. exact Hst1. }
  destruct Hstep as (He & Hop & Hpm).
  rewrite IH; [exact He |].
  destruct H as [[Hes Hst] | [Hes Hst]]; [left | right]; split.
  - intros e' He'. apply Hes. now right.
  - apply Hop; [exact Hst | apply Hes; now left].
  - intros e' He'. apply Hes. now right.
  - apply Hpm; [exact Hst | apply Hes; now left].
Qed.

End DetectorSilence.

(** X10.  The detector publishes nothing without two two-sided books: a
    run that has only received Opinion books, or only Polymarket books,
    has published no opportunity; and an update whose bids or asks are
    empty publishes none, whatever is stored for the other venue. *)
Theorem detector_silent_without_two_sided_books (parseFloat : string -> Q) :
  (forall es,
     (forall e, In e es -> exists env u, e = Detector.OpinionOrderbook env u) ->
     Detector.emitted (Detector.run parseFloat es) = [])
  /\ (forall es,
        (forall e, In e es -> exists env u, e = Detector.PolymarketOrderbook env u) ->
        Detector.emitted (Detector.run parseFloat es) = [])
  /\ (forall st env u,
        ou_bids u = [] \/ ou_asks u = [] ->
        Detector.emitted (Detector.step parseFloat st (Detector.OpinionOrderbook env u))
        = Detector.emitted st)
  /\ (forall st env u,
        pu_bids u = [] \/ pu_asks u = [] ->
        Detector.emitted (Detector.step parseFloat st (Detector.PolymarketOrderbook env u))
        = Detector.emitted st).
Proof.
  split; [| split; [| split]].
  - intros es Hes. unfold Detector.run.
    rewrite run_one_venue; [reflexivity |].
    left. split; [exact Hes |].
    intros cid books Hl. cbn in Hl. rewrite lookup_empty in Hl. discriminate Hl.
  - intros es Hes. unfold Detector.run.
    rewrite run_one_venue; [reflexivity |].
    right. split; [exact Hes |].
    intros cid books Hl. cbn in Hl. rewrite lookup_empty in Hl. discriminate Hl.
  - intros st env u Hu. cbn [Detector.step]. unfold Detector.handleOpinionOrderbook.
    destruct (MarketMappingModel.findByOpinionId _ _) as [m |]; [| reflexivity].
    rewrite checkArbitrage_needs_books; [reflexivity |].
    intros books. cbn [Detector.orderbooks]. rewrite lookup_insert_eq.
    intros [= <-]. cbn.
    destruct (Detector.mo_polymarket _); [tauto | exact I].
  - intros st env u Hu. cbn [Detector.step]. unfold Detector.handlePolymarketOrderbook.
    destruct (MarketMappingModel.findByPolymarketId _ _) as [m |]; [| reflexivity].
    rewrite checkArbitrage_needs_books; [reflexivity |].
    intros books. cbn [Detector.orderbooks]. rewrite lookup_insert_eq.
    intros [= <-]. cbn.
    destruct (Detector.mo_opinion _); [tauto | exact I].
Qed.

Section ClientRuns.

Lemma countFrames_snoc (p : Frame -> bool) (l : list Frame) (f : Frame) :
  countFrames p (l ++ [f]) = (countFrames p l + if p f then 1 else 0)%nat.
Proof.
  unfold countFrames. rewrite List.filter_app, length_app. cbn.
  destruct (p f); reflexivity.
Qed.

Lemma setDelete_elem (x y : string) (s : list string) :
  y ∈ setDelete x s <-> y ∈ s /\ y <> x.
Proof.
  unfold setDelete. rewrite !list_elem_of_In, List.filter_In, negb_true_iff.
  rewrite bool_decide_eq_false. tauto.
Qed.

Lemma setDelete_NoDup (x : string) (s : list string) :
  NoDup s -> NoDup (setDelete x s).
Proof.
  induction s as [| y s IH]; intros H; [constructor |].
  apply NoDup_cons in H as [Hy Hs]. unfold setDelete. cbn.
  destruct (bool_decide (y = x)); cbn; [now apply IH |].
  apply NoDup_cons. split; [| now apply IH].
  intros Hin. apply (setDelete_elem x y s) in Hin. tauto.
Qed.

Lemma setAdd_fresh (x : string) (s : list string) :
  x ∉ s -> setAdd x s = s ++ [x].
Proof. intros H. unfold setAdd. now rewrite bool_decide_eq_false_2. Qed.

Lemma NoDup_snoc_fresh (x : string) (s : list string) :
  NoDup s -> x ∉ s -> NoDup (s ++ [x]).
Proof.
  intros Hs Hx. apply NoDup_app. repeat split; [exact Hs | | apply NoDup_singleton].
  intros y Hy Hy'. apply list_elem_of_singleton in Hy' as ->. contradiction.
Qed.


Ltac client_counts H m :=
  specialize (H m);
  rewrite ?countFrames_snoc; cbn [isSubscribe isUnsubscribe];
  repeat case_bool_decide; simplify_eq;
  rewrite ?Nat.add_0_r in *;
  try (split; [lia | intros Hb; specialize (proj2 H Hb); lia]);
  try (exfalso;
       repeat match goal with
              | X : _ ∈ setDelete _ _ |- _ => apply setDelete_elem in X
              | X : _ ∉ setDelete _ _ |- _ => rewrite setDelete_elem in X
              | X : _ ∈ _ ++ [_] |- _ =>
                  apply elem_of_app in X; rewrite list_elem_of_singleton in X
              | X : _ ∉ _ ++ [_] |- _ =>
                  rewrite elem_of_app, list_elem_of_singleton in X
              | X : _ ∈ [] |- _ => apply elem_of_nil in X
              end; intuition congruence).

Lemma opinionStep_counts (strict : bool) (c : OpinionClient.Client) (op : OpinionOp) :
  (strict = true -> op <> ODisconnect) ->
  NoDup (OpinionClient.subscribedMarkets c) ->
  (forall m,
     (countFrames (isUnsubscribe m) (OpinionClient.sent c)
      + (if bool_decide (m ∈ OpinionClient.subscribedMarkets c) then 1 else 0)
      <= countFrames (isSubscribe m) (OpinionClient.sent c))%nat
     /\ (strict = true ->
         (countFrames (isUnsubscribe m) (OpinionClient.sent c)
          + (if bool_decide (m ∈ OpinionClient.subscribedMarkets c) then 1 else 0)
          = countFrames (isSubscribe m) (OpinionClient.sent c))%nat)) ->
  NoDup (OpinionClient.subscribedMarkets (opinionStep c op))
  /\ (forall m,
        (countFrames (isUnsubscribe m) (OpinionClient.sent (opinionStep c op))
         + (if bool_decide (m ∈ OpinionClient.subscribedMarkets (opinionStep c op))
            then 1 else 0)
         <= countFrames (isSubscribe m) (OpinionClient.sent (opinionStep c op)))%nat
        /\ (strict = true ->
            (countFrames (isUnsubscribe m) (OpinionClient.sent (opinionStep c op))
             + (if bool_decide (m ∈ OpinionClient.subscribedMarkets (opinionStep c op))
                then 1 else 0)
             = countFrames (isSubscribe m) (OpinionClient.sent (opinionStep c op)))%nat)).
Proof.
  intros Hstrict Hnd H.
  destruct op as [m0 | m0 | | | |]; cbn [opinionStep].
  - unfold OpinionClient.subscribeToMarket.
    destruct (negb (OpinionClient.streamOpen c)); [auto |].
    case_bool_decide as Hin; [auto |].
    cbn [OpinionClient.subscribedMarkets OpinionClient.sent].
    rewrite (setAdd_fresh _ _ Hin). split; [now apply NoDup_snoc_fresh |].
    intros m. client_counts H m.
  - unfold OpinionClient.unsubscribeFromMarket.
    destruct (negb (OpinionClient.streamOpen c)); [auto |].
    case_bool_decide as Hin; cbn [negb]; [| auto].
    cbn [OpinionClient.subscribedMarkets OpinionClient.sent].
    split; [now apply setDelete_NoDup |].
    intros m. client_counts H m.
  - unfold OpinionClient.connect. destruct (OpinionClient.streamOpen c); auto.
  - unfold OpinionClient.onOpen. rewrite opinion_resubscribe_noop.
    cbn [OpinionClient.subscribedMarkets OpinionClient.sent]. auto.
  - unfold OpinionClient.onClose.
    cbn [OpinionClient.subscribedMarkets OpinionClient.sent]. auto.
  - unfold OpinionClient.disconnect.
    cbn [OpinionClient.subscribedMarkets OpinionClient.sent].
    split; [constructor |]. intros m. client_counts H m.
    split; [lia |]. intros Hb. now destruct (Hstrict Hb).
Qed.

Lemma polymarketStep_counts (strict : bool) (c : PolymarketClient.Client) (op : PolymarketOp) :
  (strict = true -> op <> PDisconnect) ->
  NoDup (PolymarketClient.subscribedMarkets c) ->
  (forall m,
     (countFrames (isUnsubscribe m) (PolymarketClient.sent c)
      + (if bool_decide (m ∈ PolymarketClient.subscribedMarkets c) then 1 else 0)
      <= countFrames (isSubscribe m) (PolymarketClient.sent c))%nat
     /\ (strict = true ->
         (countFrames (isUnsubscribe m) (PolymarketClient.sent c)
          + (if bool_decide (m ∈ PolymarketClient.subscribedMarkets c) then 1 else 0)
          = countFrames (isSubscribe m) (PolymarketClient.sent c))%nat)) ->
  NoDup (PolymarketClient.subscribedMarkets (polymarketStep c op))
  /\ (forall m,
        (countFrames (isUnsubscribe m) (PolymarketClient.sent (polymarketStep c op))
         + (if bool_decide (m ∈ PolymarketClient.subscribedMarkets (polymarketStep c op))
            then 1 else 0)
         <= countFrames (isSubscribe m) (PolymarketClient.sent (polymarketStep c op)))%nat
        /\ (strict = true ->
            (countFrames (isUnsubscribe m) (PolymarketClient.sent (polymarketStep c op))
             + (if bool_decide (m ∈ PolymarketClient.subscribedMarkets (polymarketStep c op))
                then 1 else 0)
             = countFrames (isSubscribe m) (PolymarketClient.sent (polymarketStep c op)))%nat)).
Proof.
  intros Hstrict Hnd H.
  destruct op as [m0 | m0 | | apiKey | | |]; cbn [polymarketStep].
  - unfold PolymarketClient.subscribeToMarket.
    destruct (negb (PolymarketClient.streamOpen c && PolymarketClient.isAuthenticated c));
      [auto |].
    case_bool_decide as Hin; [auto |].
    cbn [PolymarketClient.subscribedMarkets PolymarketClient.sent].
    rewrite (setAdd_fresh _ _ Hin). split; [now apply NoDup_snoc_fresh |].
    intros m. client_counts H m.
  - unfold PolymarketClient.unsubscribeFromMarket.
    destruct (negb (PolymarketClient.streamOpen c)); [auto |].
    case_bool_decide as Hin; cbn [negb]; [| auto].
    cbn [PolymarketClient.subscribedMarkets PolymarketClient.sent].
    split; [now apply setDelete_NoDup |].
    intros m. client_counts H m.
  - unfold PolymarketClient.connect. destruct (PolymarketClient.streamOpen c); auto.
  - unfold PolymarketClient.onOpen.
    cbn [PolymarketClient.subscribedMarkets PolymarketClient.sent].
    split; [exact Hnd |]. intros m. client_counts H m.
  - unfold PolymarketClient.onAuthSuccess. rewrite polymarket_resubscribe_noop.
    cbn [PolymarketClient.subscribedMarkets PolymarketClient.sent]. auto.
  - unfold PolymarketClient.onClose.
    cbn [PolymarketClient.subscribedMarkets PolymarketClient.sent]. auto.
  - unfold PolymarketClient.disconnect.
    cbn [PolymarketClient.subscribedMarkets PolymarketClient.sent].
    split; [constructor |]. intros m. client_counts H m.
    split; [lia |]. intros Hb. now destruct (Hstrict Hb).
Qed.


End ClientRuns.

(** X11.  The subscribed set of a stream client mirrors the frames it
    sent.  After any sequence of calls and socket events on a fresh client
    of either venue the set holds no id twice, and every id has at least as
    many subscribe frames as unsubscribe frames plus one if it is in the
    set; as long as [disconnect] was not called the two numbers are equal,
    so the set is exactly the ids whose last frame was a subscribe. *)
Theorem client_subscriptions_mirror_frames :
  (forall ops : list OpinionOp,
     NoDup (OpinionClient.subscribedMarkets (opinionRun ops))
     /\ (forall m,
           (countFrames (isUnsubscribe m) (OpinionClient.sent (opinionRun ops))
            + (if bool_decide (m ∈ OpinionClient.subscribedMarkets (opinionRun ops))
               then 1 else 0)
            <= countFrames (isSubscribe m) (OpinionClient.sent (opinionRun ops)))%nat)
     /\ (~ In ODisconnect ops ->
         forall m,
           (countFrames (isUnsubscribe m) (OpinionClient.sent (opinionRun ops))
            + (if bool_decide (m ∈ OpinionClient.subscribedMarkets (opinionRun ops))
               then 1 else 0)
            = countFrames (isSubscribe m) (OpinionClient.sent (opinionRun ops)))%nat))
  /\ (forall ops : list PolymarketOp,
        NoDup (PolymarketClient.subscribedMarkets (polymarketRun ops))
        /\ (forall m,
              (countFrames (isUnsubscribe m) (PolymarketClient.sent (polymarketRun ops))
               + (if bool_decide
                       (m ∈ PolymarketClient.subscribedMarkets (polymarketRun ops))
                  then 1 else 0)
               <= countFrames (isSubscribe m)
                    (PolymarketClient.sent (polymarketRun ops)))%nat)
        /\ (~ In PDisconnect ops ->
            forall m,
              (countFrames (isUnsubscribe m) (PolymarketClient.sent (polymarketRun ops))
               + (if bool_decide
                       (m ∈ PolymarketClient.subscribedMarkets (polymarketRun ops))
                  then 1 else 0)
               = countFrames (isSubscribe m)
                   (PolymarketClient.sent (polymarketRun ops)))%nat)).
Proof.
  split.
  - assert (Hrun : forall strict ops c,
              (strict = true -> ~ In ODisconnect ops) ->
              NoDup (OpinionClient.subscribedMarkets c) ->
              (forall m,
                 (countFrames (isUnsubscribe m) (OpinionClient.sent c)
                  + (if bool_decide (m ∈ OpinionClient.subscribedMarkets c) then 1 else 0)
                  <= countFrames (isSubscribe m) (OpinionClient.sent c))%nat
                 /\ (strict = true ->
                     (countFrames (isUnsubscribe m) (OpinionClient.sent c)
                      + (if bool_decide (m ∈ OpinionClient.subscribedMarkets c)
                         then 1 else 0)
                      = countFrames (isSubscribe m) (OpinionClient.sent c))%nat)) ->
              NoDup (OpinionClient.subscribedMarkets (fold_left opinionStep ops c))
              /\ (forall m,
                    (countFrames (isUnsubscribe m)
                       (OpinionClient.sent (fold_left opinionStep ops c))
                     + (if bool_decide
                             (m ∈ OpinionClient.subscribedMarkets
                                    (fold_left opinionStep ops c))
                        then 1 else 0)
                     <= countFrames (isSubscribe m)
                          (OpinionClient.sent (fold_left opinionStep ops c)))%nat
                    /\ (strict = true ->
                        (countFrames (isUnsubscribe m)
                           (OpinionClient.sent (fold_left opinionStep ops c))
                         + (if bool_decide
                                 (m ∈ OpinionClient.subscribedMarkets
                                        (fold_left opinionStep ops c))
                            then 1 else 0)
                         = countFrames (isSubscribe m)
                             (OpinionClient.sent (fold_left opinionStep ops c)))%nat))).
    { intros strict ops. induction ops as [| op ops IH]; intros c Hs Hnd H; [auto |].
      cbn [fold_left].
      destruct (opinionStep_counts strict c op) as [Hnd' H']; try assumption.
      { intros Hb ->. apply (Hs Hb). now left. }
      apply IH; try assumption. intros Hb Hin. apply (Hs Hb). now right. }
    intros ops. unfold opinionRun.
    split; [| split].
    + apply (Hrun false ops); [discriminate | constructor |].
      intros m. cbn. rewrite bool_decide_eq_false_2 by apply not_elem_of_nil.
      split; [lia | discriminate].
    + intros m. apply (Hrun false ops); [discriminate | constructor |].
      intros m'. cbn. rewrite bool_decide_eq_false_2 by apply not_elem_of_nil.
      split; [lia | discriminate].
    + intros Hno m. apply (Hrun true ops); [auto | constructor | | reflexivity].
      intros m'. cbn. rewrite bool_decide_eq_false_2 by apply not_elem_of_nil.
      split; [lia | reflexivity].
  - assert (Hrun : forall strict ops c,
              (strict = true -> ~ In PDisconnect ops) ->
              NoDup (PolymarketClient.subscribedMarkets c) ->
              (forall m,
                 (countFrames (isUnsubscribe m) (PolymarketClient.sent c)
                  + (if bool_decide (m ∈ PolymarketClient.subscribedMarkets c)
                     then 1 else 0)
                  <= countFrames (isSubscribe m) (PolymarketClient.sent c))%nat
                 /\ (strict = true ->
                     (countFrames (isUnsubscribe m) (PolymarketClient.sent c)
                      + (if bool_decide (m ∈ PolymarketClient.subscribedMarkets c)
                         then 1 else 0)
                      = countFrames (isSubscribe m) (PolymarketClient.sent c))%nat)) ->
              NoDup (PolymarketClient.subscribedMarkets (fold_left polymarketStep ops c))
              /\ (forall m,
                    (countFrames (isUnsubscribe m)
                       (PolymarketClient.sent (fold_left polymarketStep ops c))
                     + (if bool_decide
                             (m ∈ PolymarketClient.subscribedMarkets
                                    (fold_left polymarketStep ops c))
                        then 1 else 0)
                     <= countFrames (isSubscribe m)
                          (PolymarketClient.sent (fold_left polymarketStep ops c)))%nat
                    /\ (strict = true ->
                        (countFrames (isUnsubscribe m)
                           (PolymarketClient.sent (fold_left polymarketStep ops c))
                         + (if bool_decide
                                 (m ∈ PolymarketClient.subscribedMarkets
                                        (fold_left polymarketStep ops c))
                            then 1 else 0)
                         = countFrames (isSubscribe m)
                             (PolymarketClient.sent
                                (fold_left polymarketStep ops c)))%nat))).
    { intros strict ops. induction ops as [| op ops IH]; intros c Hs Hnd H; [auto |].
      cbn [fold_left].
      destruct (polymarketStep_counts strict c op) as [Hnd' H']; try assumption.
      { intros Hb ->. apply (Hs Hb). now left. }
      apply IH; try assumption. intros Hb Hin. apply (Hs Hb). now right. }
    intros ops. unfold polymarketRun.
    split; [| split].
    + apply (Hrun false ops); [discriminate | constructor |].
      intros m. cbn. rewrite bool_decide_eq_false_2 by apply not_elem_of_nil.
      split; [lia | discriminate].
    + intros m. apply (Hrun false ops); [discriminate | constructor |].
      intros m'. cbn. rewrite bool_decide_eq_false_2 by apply not_elem_of_nil.
      split; [lia | discriminate].
    + intros Hno m. apply (Hrun true ops); [auto | constructor | | reflexivity].
      intros m'. cbn. rewrite bool_decide_eq_false_2 by apply not_elem_of_nil.
      split; [lia | reflexivity].
Qed.

Section MonitoringFacts.

Lemma opinion_subscribe_elem (id m : string) (c : OpinionClient.Client) :
  (m ∈ OpinionClient.subscribedMarkets (OpinionClient.subscribeToMarket id c)
   <-> m ∈ OpinionClient.subscribedMarkets c
       \/ (OpinionClient.streamOpen c = true /\ m = id))
  /\ OpinionClient.streamOpen (OpinionClient.subscribeToMarket id c)
     = OpinionClient.streamOpen c.
Proof.
  unfold OpinionClient.subscribeToMarket.
  destruct (OpinionClient.streamOpen c) eqn:Hopen; cbn [negb].
  - case_bool_decide as Hin.
    + rewrite Hopen. split; [| reflexivity].
      split; [auto |]. intros [H | [_ ->]]; assumption.
    + cbn [OpinionClient.subscribedMarkets]. rewrite (setAdd_fresh _ _ Hin).
      split; [| exact Hopen].
      rewrite elem_of_app, list_elem_of_singleton. tauto.
  - rewrite Hopen. split; [| reflexivity].
    split; [auto |]. intros [H | [[=] _]]. exact H.
Qed.

Lemma polymarket_subscribe_elem (id m : string) (c : PolymarketClient.Client) :
  (m ∈ PolymarketClient.subscribedMarkets (PolymarketClient.subscribeToMarket id c)
   <-> m ∈ PolymarketClient.subscribedMarkets c
       \/ (PolymarketClient.streamOpen c && PolymarketClient.isAuthenticated c = true
           /\ m = id))
  /\ PolymarketClient.streamOpen (PolymarketClient.subscribeToMarket id c)
     && PolymarketClient.isAuthenticated (PolymarketClient.subscribeToMarket id c)
     = PolymarketClient.streamOpen c && PolymarketClient.isAuthenticated c.
Proof.
  unfold PolymarketClient.subscribeToMarket.
  destruct (PolymarketClient.streamOpen c && PolymarketClient.isAuthenticated c)
    eqn:Hopen; cbn [negb].
  - case_bool_decide as Hin.
    + rewrite Hopen. split; [| reflexivity].
      split; [auto |]. intros [H | [_ ->]]; assumption.
    + cbn [PolymarketClient.subscribedMarkets]. rewrite (setAdd_fresh _ _ Hin).
      split; [| exact Hopen].
      rewrite elem_of_app, list_elem_of_singleton. tauto.
  - rewrite Hopen. split; [| reflexivity].
    split; [auto |]. intros [H | [[=] _]]. exact H.
Qed.

Lemma orNull_Some (x : option string) (s : string) :
  MarketMappingModel.orNull x = Some s <-> x = Some s /\ s <> EmptyString.
Proof.
  unfold MarketMappingModel.orNull. destruct x as [y |]; [| split; [discriminate | intros [[=] _]]].
  destruct (decide (y = EmptyString)) as [-> | Hne].
  - split; [discriminate | intros [[= <-] H]; contradiction].
  - split; [intros [= <-]; auto | intros [[= <-] _]; reflexivity].
Qed.

End MonitoringFacts.

(** X12.  [startMonitoring] subscribes each client to the venue market
    ids of the mapping rows: afterwards a client's subscribed set holds
    what it held before and, if its stream was open (for Polymarket: open
    and authenticated), every non-empty id of its venue in the table, and
    nothing else.  On a stream that is not open it changes nothing, so the
    markets are not monitored. *)
Theorem startMonitoring_subscribes_mapped_ids (table : list MarketMapping)
    (oc : OpinionClient.Client) (pc : PolymarketClient.Client) :
  (forall m,
     m ∈ OpinionClient.subscribedMarkets (fst (Monitoring.startMonitoring table (oc, pc)))
     <-> m ∈ OpinionClient.subscribedMarkets oc
         \/ (OpinionClient.streamOpen oc = true
             /\ m <> EmptyString
             /\ exists row, In row table /\ opinion_market_id row = Some m))
  /\ (forall m,
        m ∈ PolymarketClient.subscribedMarkets
              (snd (Monitoring.startMonitoring table (oc, pc)))
        <-> m ∈ PolymarketClient.subscribedMarkets pc
            \/ (PolymarketClient.streamOpen pc && PolymarketClient.isAuthenticated pc = true
                /\ m <> EmptyString
                /\ exists row, In row table /\ polymarket_market_id row = Some m))
  /\ (OpinionClient.streamOpen oc = false ->
      fst (Monitoring.startMonitoring table (oc, pc)) = oc)
  /\ (PolymarketClient.streamOpen pc && PolymarketClient.isAuthenticated pc = false ->
      snd (Monitoring.startMonitoring table (oc, pc)) = pc).
Proof.
  unfold Monitoring.startMonitoring, MarketMappingModel.getAll.
  revert oc pc. induction table as [| row table IH]; intros oc pc.
  - cbn. repeat split; auto.
    + intros [H | (_ & _ & r & [] & _)]. exact H.
    + intros [H | (_ & _ & r & [] & _)]. exact H.
  - cbn [fold_left].
    pose (oc1 := match MarketMappingModel.orNull (opinion_market_id row) with
                | Some id => OpinionClient.subscribeToMarket id oc
                | None => oc
                end).
    pose (pc1 := match MarketMappingModel.orNull (polymarket_market_id row) with
                | Some id => PolymarketClient.subscribeToMarket id pc
                | None => pc
                end).
    change (Monitoring.subscribeMapping (oc, pc) row) with (oc1, pc1).
    destruct (IH oc1 pc1) as (Ho & Hp & Hoc & Hpc).
    assert (Eo : (forall m, m ∈ OpinionClient.subscribedMarkets oc1
                    <-> m ∈ OpinionClient.subscribedMarkets oc
                        \/ (OpinionClient.streamOpen oc = true /\ m <> EmptyString
                            /\ opinion_market_id row = Some m))
                 /\ OpinionClient.streamOpen oc1 = OpinionClient.streamOpen oc
                 /\ (OpinionClient.streamOpen oc = false -> oc1 = oc)).
    { subst oc1.
      destruct (MarketMappingModel.orNull (opinion_market_id row)) as [id |] eqn:E.
      - apply orNull_Some in E as [E Hne].
        destruct (opinion_subscribe_elem id id oc) as [_ Hopen].
        split; [| split; [exact Hopen | apply opinion_subscribe_closed]].
        intros m. destruct (opinion_subscribe_elem id m oc) as [Hm _].
        rewrite Hm, E. split.
        + intros [H | [H ->]]; auto.
        + intros [H | (H & _ & [= ->])]; auto.
      - split; [| auto]. intros m. split; [auto |].
        intros [H | (_ & Hne & Hm)]; [exact H |].
        assert (MarketMappingModel.orNull (opinion_market_id row) = Some m)
          by (apply orNull_Some; auto).
        congruence. }
    assert (Ep : (forall m, m ∈ PolymarketClient.subscribedMarkets pc1
                    <-> m ∈ PolymarketClient.subscribedMarkets pc
                        \/ (PolymarketClient.streamOpen pc
                            && PolymarketClient.isAuthenticated pc = true
                            /\ m <> EmptyString
                            /\ polymarket_market_id row = Some m))
                 /\ PolymarketClient.streamOpen pc1 && PolymarketClient.isAuthenticated pc1
                    = PolymarketClient.streamOpen pc && PolymarketClient.isAuthenticated pc
                 /\ (PolymarketClient.streamOpen pc && PolymarketClient.isAuthenticated pc
                     = false -> pc1 = pc)).
    { subst pc1.
      destruct (MarketMappingModel.orNull (polymarket_market_id row)) as [id |] eqn:E.
      - apply orNull_Some in E as [E Hne].
        destruct (polymarket_subscribe_elem id id pc) as [_ Hopen].
        split; [| split; [exact Hopen | apply polymarket_subscribe_closed]].
        intros m. destruct (polymarket_subscribe_elem id m pc) as [Hm _].
        rewrite Hm, E. split.
        + intros [H | [H ->]]; auto.
        + intros [H | (H & _ & [= ->])]; auto.
      - split; [| auto]. intros m. split; [auto |].
        intros [H | (_ & Hne & Hm)]; [exact H |].
        assert (MarketMappingModel.orNull (polymarket_market_id row) = Some m)
          by (apply orNull_Some; auto).
        congruence. }
    destruct Eo as (Eo & Eopen & Eoc). destruct Ep as (Ep & Epopen & Epc).
    split; [| split; [| split]].
    + intros m. rewrite Ho, Eo, Eopen. split.
      * intros [[H | (H1 & H2 & H3)] | (H1 & H2 & r & Hr & H3)]; auto.
        -- right. repeat split; auto. exists row. split; [now left | exact H3].
        -- right. repeat split; auto. exists r. split; [now right | exact H3].
      * intros [H | (H1 & H2 & r & [<- | Hr] & H3)]; auto.
        right. repeat split; auto. exists r. auto.
    + intros m. rewrite Hp, Ep, Epopen. split.
      * intros [[H | (H1 & H2 & H3)] | (H1 & H2 & r & Hr & H3)]; auto.
        -- right. repeat split; auto. exists row. split; [now left | exact H3].
        -- right. repeat split; auto. exists r. split; [now right | exact H3].
      * intros [H | (H1 & H2 & r & [<- | Hr] & H3)]; auto.
        right. repeat split; auto. exists r. auto.
    + intros H. rewrite Hoc by (rewrite Eopen; exact H). now apply Eoc.
    + intros H. rewrite Hpc by (rewrite Epopen; exact H). now apply Epc.
Qed.

Section ReconnectFacts.

Import ReconnectHandler.

Variable options : Options.




Lemma delay_le_max (n : nat) : delay options n <= maxDelay options.
Proof. unfold delay. apply Q.le_min_r. Qed.

Lemma step_invariant (h : Handler) (op : Op) :
  (retryCount h <= maxRetries options)%nat ->
  (isReconnecting h = true <-> reconnectTimer h <> None) ->
  (forall d, reconnectTimer h = Some d ->
     d = delay options (retryCount h) /\ (retryCount h < maxRetries options)%nat) ->
  (retryCount (step options h op) <= maxRetries options)%nat
  /\ (isReconnecting (step options h op) = true
      <-> reconnectTimer (step options h op) <> None)
  /\ (forall d, reconnectTimer (step options h op) = Some d ->
        d = delay options (retryCount (step options h op))
        /\ (retryCount (step options h op) < maxRetries options)%nat).
Proof.
  intros Hle Hiff Harmed.
  destruct op as [| ok | |]; cbn [step].
  - unfold scheduleReconnect.
    destruct (isReconnecting h) eqn:Er.
    { rewrite Er. exact (conj Hle (conj Hiff Harmed)). }
    destruct (Nat.leb_spec (maxRetries options) (retryCount h)); cbn.
    + exact (conj Hle (conj Hiff Harmed)).
    + repeat split; try lia; try congruence; try (now intros d [= <-]).
  - unfold timerFires.
    destruct (reconnectTimer h) as [d |] eqn:Et; [| rewrite <- Et in *; auto].
    destruct (Harmed d eq_refl) as [_ Hlt].
    destruct ok; cbn.
    + repeat split; try lia; try congruence; try discriminate.
    + unfold scheduleReconnect. cbn.
      destruct (Nat.leb_spec (maxRetries options) (S (retryCount h))); cbn.
      * repeat split; try lia; try congruence; try discriminate.
      * repeat split; try lia; try congruence; try (now intros d' [= <-]).
  - cbn. repeat split; try lia; try congruence; try discriminate.
  - cbn. repeat split; try lia; try congruence; try discriminate.
Qed.

Lemma pow_ge_1 (q : Q) (n : nat) : 1 <= q -> 1 <= pow q n.
Proof.
  intros Hq. induction n as [| n IH]; cbn; [lra |].
  assert (1 * 1 <= q * pow q n); [| lra].
  apply Qmult_le_compat_nonneg; split; lra.
Qed.

Lemma pow_mono (q : Q) (n m : nat) : 1 <= q -> (n <= m)%nat -> pow q n <= pow q m.
Proof.
  intros Hq Hnm. induction Hnm as [| m Hnm IH]; [lra |].
  cbn. pose proof (pow_ge_1 q n Hq). pose proof (pow_ge_1 q m Hq).
  assert (1 * pow q m <= q * pow q m); [| lra].
  apply Qmult_le_compat_r; lra.
Qed.

(** In exact arithmetic, with a multiplier of at least one and an initial
    delay that is not negative, the delay grows with the retry count and
    stays above the smaller of the initial and the maximum delay. *)
Lemma delay_monotone (n m : nat) :
  1 <= backoffMultiplier options ->
  0 <= initialDelay options ->
  (n <= m)%nat ->
  delay options n <= delay options m
  /\ Qmin (initialDelay options) (maxDelay options) <= delay options n
  /\ delay options n <= maxDelay options.
Proof.
  intros Hmult Hinit Hnm. unfold delay.
  pose proof (pow_mono _ n m Hmult Hnm) as Hpow.
  pose proof (pow_ge_1 (backoffMultiplier options) n Hmult) as Hge.
  assert (H1 : initialDelay options * pow (backoffMultiplier options) n
               <= initialDelay options * pow (backoffMultiplier options) m).
  { rewrite !(Qmult_comm (initialDelay options)).
    apply Qmult_le_compat_r; assumption. }
  assert (H2 : initialDelay options
               <= initialDelay options * pow (backoffMultiplier options) n).
  { rewrite <- (Qmult_1_r (initialDelay options)) at 1.
    rewrite !(Qmult_comm (initialDelay options)).
    apply Qmult_le_compat_r; assumption. }
  split; [| split].
  - apply Q.min_le_compat_r. exact H1.
  - apply Q.min_le_compat_r. exact H2.
  - apply Q.le_min_r.
Qed.

End ReconnectFacts.


(** Between two of its operations, each run to completion, the retry count
    of the handler never exceeds [maxRetries], the handler is marked as
    reconnecting exactly while a timer is armed, and an armed timer carries
    the delay of the current retry count, which is at most [maxDelay]. *)
Lemma run_invariant (options : ReconnectHandler.Options)
    (ops : list ReconnectHandler.Op) :
  (ReconnectHandler.retryCount (ReconnectHandler.run options ops)
   <= ReconnectHandler.maxRetries options)%nat
  /\ (ReconnectHandler.isReconnecting (ReconnectHandler.run options ops) = true
      <-> ReconnectHandler.reconnectTimer (ReconnectHandler.run options ops) <> None)
  /\ (forall d,
        ReconnectHandler.reconnectTimer (ReconnectHandler.run options ops) = Some d ->
        d = ReconnectHandler.delay options
              (ReconnectHandler.retryCount (ReconnectHandler.run options ops))
        /\ (ReconnectHandler.retryCount (ReconnectHandler.run options ops)
            < ReconnectHandler.maxRetries options)%nat
        /\ d <= ReconnectHandler.maxDelay options).
Proof.
  unfold ReconnectHandler.run.
  assert (H : forall h,
            (ReconnectHandler.retryCount h <= ReconnectHandler.maxRetries options)%nat ->
            (ReconnectHandler.isReconnecting h = true
             <-> ReconnectHandler.reconnectTimer h <> None) ->
            (forall d, ReconnectHandler.reconnectTimer h = Some d ->
               d = ReconnectHandler.delay options (ReconnectHandler.retryCount h)
               /\ (ReconnectHandler.retryCount h
                   < ReconnectHandler.maxRetries options)%nat) ->
            let h' := fold_left (ReconnectHandler.step options) ops h in
            (ReconnectHandler.retryCount h' <= ReconnectHandler.maxRetries options)%nat
            /\ (ReconnectHandler.isReconnecting h' = true
                <-> ReconnectHandler.reconnectTimer h' <> None)
            /\ (forall d, ReconnectHandler.reconnectTimer h' = Some d ->
                  d = ReconnectHandler.delay options (ReconnectHandler.retryCount h')
                  /\ (ReconnectHandler.retryCount h'
                      < ReconnectHandler.maxRetries options)%nat)).
  { induction ops as [| op ops IH]; intros h H1 H2 H3; [cbn; auto |].
    cbn [fold_left].
    destruct (step_invariant options h op H1 H2 H3) as (H1' & H2' & H3').
    apply IH; assumption. }
  destruct (H ReconnectHandler.initial) as (H1 & H2 & H3).
  - cbn. lia.
  - cbn. split; [discriminate | congruence].
  - cbn. discriminate.
  - split; [exact H1 | split; [exact H2 |]].
    intros d Hd. destruct (H3 d Hd) as [E Hlt].
    repeat split; [exact E | exact Hlt |].
    rewrite E. apply delay_le_max.
Qed.

Section ReconnectStepsFacts.

Import ReconnectHandler.

Variable options : Options.

Lemma clearTimeout_nil (handle : option nat) :
  ReconnectSteps.clearTimeout handle [] = [].
Proof. now destruct handle. Qed.

(** A stepwise handler at rest: no attempt is pending, at most one timer is
    armed, the one whose handle the field holds, and the handler is marked
    as reconnecting exactly while it is armed.  From such a handler the
    steps of one operation lead to such a handler, the one [ReconnectHandler]
    computes. *)
Lemma stepsOf_simulates (h : ReconnectSteps.Handler) (op : Op) :
  ReconnectSteps.attempts h = 0%nat ->
  (ReconnectSteps.armed h = [] /\ ReconnectSteps.isReconnecting h = false
   \/ exists t d, ReconnectSteps.armed h = [(t, d)]
                  /\ ReconnectSteps.reconnectTimer h = Some t
                  /\ ReconnectSteps.isReconnecting h = true) ->
  let h' := fold_left (ReconnectSteps.step options) (ReconnectSteps.stepsOf h op) h in
  ReconnectSteps.atRest h' = step options (ReconnectSteps.atRest h) op
  /\ ReconnectSteps.attempts h' = 0%nat
  /\ (ReconnectSteps.armed h' = [] /\ ReconnectSteps.isReconnecting h' = false
      \/ exists t d, ReconnectSteps.armed h' = [(t, d)]
                     /\ ReconnectSteps.reconnectTimer h' = Some t
                     /\ ReconnectSteps.isReconnecting h' = true).
Proof.
  destruct h as [count handle flag timers next pending evs]. cbn.
  intros -> [[-> ->] | (t & d & -> & -> & ->)];
    destruct op as [| ok | |]; cbn;
    unfold ReconnectSteps.scheduleReconnect, scheduleReconnect,
      ReconnectSteps.atRest, timerFires, ReconnectSteps.timerFires,
      ReconnectSteps.connectSettles; cbn;
    rewrite ?Nat.eqb_refl; cbn;
    try destruct ok; cbn;
    unfold ReconnectSteps.scheduleReconnect, scheduleReconnect; cbn;
    repeat match goal with
           | |- context [(maxRetries options <=? ?n)%nat] =>
               destruct (maxRetries options <=? n)%nat; cbn
           end;
    rewrite ?Nat.eqb_refl, ?clearTimeout_nil; cbn;
    repeat split; eauto 8.
Qed.

Lemma runSteps_simulates (ops : list Op) (h : ReconnectSteps.Handler) :
  ReconnectSteps.attempts h = 0%nat ->
  (ReconnectSteps.armed h = [] /\ ReconnectSteps.isReconnecting h = false
   \/ exists t d, ReconnectSteps.armed h = [(t, d)]
                  /\ ReconnectSteps.reconnectTimer h = Some t
                  /\ ReconnectSteps.isReconnecting h = true) ->
  let h' := ReconnectSteps.runSteps options h ops in
  ReconnectSteps.atRest h' = fold_left (step options) ops (ReconnectSteps.atRest h)
  /\ ReconnectSteps.attempts h' = 0%nat
  /\ (length (ReconnectSteps.armed h') <= 1)%nat.
Proof.
  revert h. induction ops as [| op ops IH]; intros h Hp Hinv; cbn.
  - repeat split; [exact Hp |].
    destruct Hinv as [[-> _] | (t & d & -> & _)]; cbn; lia.
  - destruct (stepsOf_simulates h op Hp Hinv) as (Hsim & Hp' & Hinv').
    destruct (IH _ Hp' Hinv') as (H1 & H2 & H3).
    rewrite <- Hsim. auto.
Qed.

End ReconnectStepsFacts.

(** X14.  The reconnect handler step by step.  When every attempt settles
    before the next call reaches the handler, the stepwise handler does what
    [ReconnectHandler] does with each timer callback run to completion: at
    rest no attempt is pending, at most one timer is armed and the retry
    count is at most [maxRetries].  A call during an attempt breaks this:
    with [maxRetries = 2], [cancel] and [scheduleReconnect] called while the
    first attempt is pending, and that attempt failing, two timers are
    armed at once, and when both have fired the retry count is 3. *)
Theorem reconnect_attempts_interleave (options : ReconnectHandler.Options)
    (ops : list ReconnectHandler.Op) :
  (ReconnectSteps.atRest (ReconnectSteps.runSteps options ReconnectSteps.initial ops)
   = ReconnectHandler.run options ops
   /\ ReconnectSteps.attempts
        (ReconnectSteps.runSteps options ReconnectSteps.initial ops) = 0%nat
   /\ (length (ReconnectSteps.armed
                 (ReconnectSteps.runSteps options ReconnectSteps.initial ops)) <= 1)%nat
   /\ (ReconnectSteps.retryCount
         (ReconnectSteps.runSteps options ReconnectSteps.initial ops)
       <= ReconnectHandler.maxRetries options)%nat)
  /\ (let h := ReconnectSteps.run ScenarioInterleaved.options
                 (firstn 5 ScenarioInterleaved.ops) in
      length (ReconnectSteps.armed h) = 2%nat
      /\ ReconnectSteps.retryCount h = 1%nat)
  /\ (let h := ReconnectSteps.run ScenarioInterleaved.options ScenarioInterleaved.ops in
      ReconnectSteps.retryCount h = 3%nat
      /\ ReconnectHandler.maxRetries ScenarioInterleaved.options = 2%nat
      /\ ReconnectSteps.attempts h = 2%nat).
Proof.
  split; [| split; [vm_compute; auto | vm_compute; auto]].
  destruct (runSteps_simulates options ops ReconnectSteps.initial eq_refl)
    as (Hsim & Hp & Hlen).
  { left. split; reflexivity. }
  change (ReconnectSteps.atRest ReconnectSteps.initial) with ReconnectHandler.initial in Hsim.
  repeat split; try assumption.
  change (ReconnectSteps.retryCount ?h)
    with (ReconnectHandler.retryCount (ReconnectSteps.atRest h)).
  rewrite Hsim. apply run_invariant.
Qed.

(** X15.  With the options both stream clients pass to the handler (up to
    10 retries, 1000 ms at first, doubled each time, 30000 ms at most) the
    successive delays are 1000, 2000, 4000, 8000 and 16000 ms, then 30000 ms
    from the sixth retry on; the delay never shrinks from one retry to the
    next and lies between 1000 and 30000 ms. *)
Theorem reconnect_delay_of_clients (n m : nat) (Hnm : (n <= m)%nat) :
  ReconnectHandler.delay ReconnectHandler.defaultOptions n
  <= ReconnectHandler.delay ReconnectHandler.defaultOptions m
  /\ 1000 <= ReconnectHandler.delay ReconnectHandler.defaultOptions n <= 30000
  /\ ReconnectHandler.delay ReconnectHandler.defaultOptions 0 == 1000
  /\ ReconnectHandler.delay ReconnectHandler.defaultOptions 1 == 2000
  /\ ReconnectHandler.delay ReconnectHandler.defaultOptions 2 == 4000
  /\ ReconnectHandler.delay ReconnectHandler.defaultOptions 3 == 8000
  /\ ReconnectHandler.delay ReconnectHandler.defaultOptions 4 == 16000
  /\ ((5 <= n)%nat ->
      ReconnectHandler.delay ReconnectHandler.defaultOptions n == 30000).
Proof.
  assert (Hmult : 1 <= ReconnectHandler.backoffMultiplier ReconnectHandler.defaultOptions)
    by (vm_compute; discriminate).
  assert (Hinit : 0 <= ReconnectHandler.initialDelay ReconnectHandler.defaultOptions)
    by (vm_compute; discriminate).
  destruct (delay_monotone ReconnectHandler.defaultOptions n m Hmult Hinit Hnm)
    as (Hmono & Hlo & Hhi).
  split; [exact Hmono |].
  split; [split; [| exact Hhi] |].
  { eapply Qle_trans; [| exact Hlo]. vm_compute. discriminate. }
  repeat (split; [vm_compute; reflexivity |]).
  intros Hn.
  destruct (delay_monotone ReconnectHandler.defaultOptions 5 n Hmult Hinit Hn)
    as (H5 & _ & _).
  apply Qle_antisym; [exact Hhi |].
  eapply Qle_trans; [| exact H5]. vm_compute. discriminate.
Qed.

Lemma reconnect_delay_of_clients_witness :
  ReconnectHandler.delay ReconnectHandler.defaultOptions 3
  <= ReconnectHandler.delay ReconnectHandler.defaultOptions 7
  /\ ReconnectHandler.delay ReconnectHandler.defaultOptions 7 == 30000.
Proof.
  assert (H37 : (3 <= 7)%nat) by lia.
  assert (H77 : (7 <= 7)%nat) by lia.
  assert (H57 : (5 <= 7)%nat) by lia.
  split.
  - exact (proj1 (reconnect_delay_of_clients 3 7 H37)).
  - destruct (reconnect_delay_of_clients 7 7 H77) as (_ & _ & _ & _ & _ & _ & _ & H).
    exact (H H57).
Defined.

Section ExecutorPaths.

Import Executor.

Lemma executeArbitrage_footprint_fresh (v : Venues) (config : ArbitrageConfig)
    (opp : ArbitrageOpportunity) (w : World) :
  op_id opp ∉ executingOpportunities w ->
  executingOpportunities (snd (executeArbitrage v config opp w))
  = executingOpportunities w
  /\ (exists es, effects (snd (executeArbitrage v config opp w)) = effects w ++ es)
  /\ (exists rows, tradeRows (snd (executeArbitrage v config opp w))
                   = tradeRows w ++ rows)
  /\ (forall id, id <> op_id opp ->
        statuses (snd (executeArbitrage v config opp w)) !! id = statuses w !! id)
  /\ (statuses w !! op_id opp = None ->
      statuses (snd (executeArbitrage v config opp w)) !! op_id opp = None).
Proof.
  destruct w as [inflight sts rows es0]. cbn. intros Hfresh. exec_unfold.
  rewrite bool_decide_eq_false_2 by exact Hfresh.
  exec_unfold.
  repeat exec_case.
  all: split; [apply executing_restored, Hfresh |].
  all: split; [rewrite <- ?app_assoc; eexists; reflexivity |].
  all: split; [rewrite <- ?app_assoc; eexists; first [reflexivity | symmetry; apply app_nil_r] |].
  all: split; [intros id Hid; rewrite ?lookup_alter_ne by congruence; reflexivity |].
  all: intros Hnone; rewrite ?lookup_alter_eq, Hnone; reflexivity.
Qed.


Lemma executeArbitrage_duplicate (v : Venues) (config : ArbitrageConfig)
    (opp : ArbitrageOpportunity) (w : World) :
  op_id opp ∈ executingOpportunities w ->
  executeArbitrage v config opp w
  = (inl (TradingError "Opportunity is already being executed" "DUPLICATE_EXECUTION"), w).
Proof.
  intros H. unfold executeArbitrage. now rewrite bool_decide_eq_true_2.
Qed.

End ExecutorPaths.

(** X16.  The footprint of [executeArbitrage], on every path.  The set of
    in-flight opportunities is the same after the call as before it, the
    effects and the trade rows are only extended, no status other than the
    opportunity's own is touched and no status row is created; a call for
    an opportunity that is already in flight fails with
    [DUPLICATE_EXECUTION] and does nothing at all. *)
Theorem executeArbitrage_footprint (v : Executor.Venues) (config : ArbitrageConfig)
    (opp : ArbitrageOpportunity) (w : Executor.World) :
  Executor.executingOpportunities (snd (Executor.executeArbitrage v config opp w))
  = Executor.executingOpportunities w
  /\ (exists es, Executor.effects (snd (Executor.executeArbitrage v config opp w))
                 = Executor.effects w ++ es)
  /\ (exists rows, Executor.tradeRows (snd (Executor.executeArbitrage v config opp w))
                   = Executor.tradeRows w ++ rows)
  /\ (forall id, id <> op_id opp ->
        Executor.statuses (snd (Executor.executeArbitrage v config opp w)) !! id
        = Executor.statuses w !! id)
  /\ (Executor.statuses w !! op_id opp = None ->
      Executor.statuses (snd (Executor.executeArbitrage v config opp w)) !! op_id opp
      = None)
  /\ (op_id opp ∈ Executor.executingOpportunities w ->
      Executor.executeArbitrage v config opp w
      = (inl (TradingError "Opportunity is already being executed"
                           "DUPLICATE_EXECUTION"), w)).
Proof.
  destruct (decide (op_id opp ∈ Executor.executingOpportunities w)) as [Hin | Hfresh].
  - rewrite (executeArbitrage_duplicate v config opp w Hin). cbn [snd].
    repeat split; auto; exists []; symmetry; apply app_nil_r.
  - destruct (executeArbitrage_footprint_fresh v config opp w Hfresh)
      as (H1 & H2 & H3 & H4 & H5).
    repeat split; auto. intros Hin. contradiction.
Qed.




(** The orders, cancels and inserts of one call, on every path. *)
Lemma executeArbitrage_legs
    (v : Executor.Venues) (config : ArbitrageConfig) (opp : ArbitrageOpportunity)
    (w : Executor.World) :
  exists es,
    Executor.effects (snd (Executor.executeArbitrage v config opp w))
    = Executor.effects w ++ es
    /\ (Executor.placedLegs es = []
        \/ (Executor.placedLegs es
            = [ (opinion, Executor.leg opinion opp);
                (polymarket, Executor.leg polymarket opp) ]
            /\ op_recommendedSize opp <= maxPositionSize config))
    /\ (forall p orderId,
          In (Executor.CancelOrder p orderId) es ->
          exists order reason,
            Executor.placeOrder v p (Executor.leg p opp) = inr order
            /\ order_id order = orderId
            /\ Executor.placeOrder v (Executor.other p)
                 (Executor.leg (Executor.other p) opp) = inl reason)
    /\ (forall input,
          In (Executor.CreateTrade input) es ->
          exists o1 o2,
            Executor.placeOrder v opinion (Executor.leg opinion opp) = inr o1
            /\ Executor.placeOrder v polymarket (Executor.leg polymarket opp) = inr o2).
Proof.
  destruct (decide (op_id opp ∈ Executor.executingOpportunities w)) as [Hin | Hfresh].
  { rewrite (executeArbitrage_duplicate v config opp w Hin). cbn [snd].
    exists []. rewrite app_nil_r. repeat split; auto; intros; contradiction. }
  destruct w as [inflight sts rows es0]. cbn in Hfresh. exec_unfold.
  rewrite bool_decide_eq_false_2 by exact Hfresh.
  exec_unfold.
  repeat exec_case.
  all: rewrite <- ?app_assoc; eexists; (split; [reflexivity |]).
  all: cbn [app Executor.placedLegs flat_map].
  all: try apply Qltb_ge in Esize.
  all: split; [first [left; reflexivity | right; split; [reflexivity | exact Esize]] |].
  all: split.
  all: try (intros p orderId Hc; cbn [In] in Hc;
            repeat (destruct Hc as [Hc | Hc]; [try discriminate Hc |]);
            try contradiction;
            injection Hc as <- <-; cbn [Executor.other];
            eexists _, _; repeat split; eassumption).
  all: intros input Hc; cbn [In] in Hc;
    repeat (destruct Hc as [Hc | Hc]; [try discriminate Hc |]);
    try contradiction;
    eexists _, _; split; first [eassumption | reflexivity].
Qed.

(** X18.  Orders are placed in pairs and cancelled only as compensation.
    On every path of [executeArbitrage] the orders placed are either none or
    the Opinion leg followed by the Polymarket leg; a cancel is only ever
    issued for an order that its venue accepted while the other venue
    rejected its leg; and a trade row is only inserted when both venues
    accepted. *)
Theorem executeArbitrage_places_both_legs_or_none
    (v : Executor.Venues) (config : ArbitrageConfig) (opp : ArbitrageOpportunity)
    (w : Executor.World) :
  exists es,
    Executor.effects (snd (Executor.executeArbitrage v config opp w))
    = Executor.effects w ++ es
    /\ (Executor.placedLegs es = []
        \/ Executor.placedLegs es
           = [ (opinion, Executor.leg opinion opp);
               (polymarket, Executor.leg polymarket opp) ])
    /\ (forall p orderId,
          In (Executor.CancelOrder p orderId) es ->
          exists order reason,
            Executor.placeOrder v p (Executor.leg p opp) = inr order
            /\ order_id order = orderId
            /\ Executor.placeOrder v (Executor.other p)
                 (Executor.leg (Executor.other p) opp) = inl reason)
    /\ (forall input,
          In (Executor.CreateTrade input) es ->
          exists o1 o2,
            Executor.placeOrder v opinion (Executor.leg opinion opp) = inr o1
            /\ Executor.placeOrder v polymarket (Executor.leg polymarket opp) = inr o2).
Proof.
  destruct (executeArbitrage_legs v config opp w) as (es & He & Hlegs & Hcancel & Hrows).
  exists es. repeat split; try assumption.
  destruct Hlegs as [H | [H _]]; [now left | now right].
Qed.

(** X19.  A failing trade insert leaves both orders live.  When both venues
    accept their leg and the store then refuses the first insert into
    [trades], the call fails with [CREATE_ERROR]; after the two placements
    the only effects are the refused insert, the error log and the write of
    status [expired]: no cancel is issued for either order and no trade row
    records them. *)
Theorem trade_insert_failure_leaves_orders_live
    (v : Executor.Venues) (config : ArbitrageConfig) (opp : ArbitrageOpportunity)
    (w : Executor.World) (o1 o2 : Order)
    (Hfresh : op_id opp ∉ Executor.executingOpportunities w)
    (Hsize : op_recommendedSize opp <= maxPositionSize config)
    (Hstatus : Executor.dbFails v
                 (Executor.effects w ++ [Executor.UpdateStatus (op_id opp) executing])
               = false)
    (Hplaced1 : Executor.placeOrder v opinion (Executor.leg opinion opp) = inr o1)
    (Hplaced2 : Executor.placeOrder v polymarket (Executor.leg polymarket opp) = inr o2)
    (Hinsert : Executor.dbFails v
                 (Executor.effects w
                  ++ [ Executor.UpdateStatus (op_id opp) executing;
                       Executor.PlaceOrder opinion (Executor.leg opinion opp);
                       Executor.PlaceOrder polymarket (Executor.leg polymarket opp);
                       Executor.CreateTrade (Executor.tradeInput opinion opp o1) ])
               = true) :
  fst (Executor.executeArbitrage v config opp w)
  = inl (DatabaseError "Failed to create trade" "CREATE_ERROR")
  /\ (exists tail,
        Executor.effects (snd (Executor.executeArbitrage v config opp w))
        = Executor.effects w
          ++ [ Executor.UpdateStatus (op_id opp) executing;
               Executor.PlaceOrder opinion (Executor.leg opinion opp);
               Executor.PlaceOrder polymarket (Executor.leg polymarket opp);
               Executor.CreateTrade (Executor.tradeInput opinion opp o1);
               Executor.LogError "Arbitrage execution error";
               Executor.UpdateStatus (op_id opp) expired ]
          ++ tail
        /\ (tail = [] \/ tail = [Executor.LogError "Failed to update opportunity status"]))
  /\ Executor.tradeRows (snd (Executor.executeArbitrage v config opp w))
     = Executor.tradeRows w.
Proof.
  destruct w as [inflight sts rows es0]. cbn in Hfresh, Hstatus, Hinsert.
  apply Qltb_ge in Hsize.
  assert (Hinsert' :
    Executor.dbFails v
      ((((es0 ++ [Executor.UpdateStatus (op_id opp) executing])
         ++ [Executor.PlaceOrder opinion (Executor.leg opinion opp)])
        ++ [Executor.PlaceOrder polymarket (Executor.leg polymarket opp)])
       ++ [Executor.CreateTrade (Executor.tradeInput opinion opp o1)]) = true).
  { rewrite <- !app_assoc. exact Hinsert. }
  exec_unfold.
  rewrite bool_decide_eq_false_2 by exact Hfresh.
  exec_unfold. rewrite Hstatus. exec_unfold. rewrite Hsize. exec_unfold.
  rewrite Hplaced1, Hplaced2. exec_unfold. rewrite Hinsert'. exec_unfold.
  exec_case.
  - split; [reflexivity |]. split; [| reflexivity].
    exists [Executor.LogError "Failed to update opportunity status"].
    rewrite <- !app_assoc. split; [reflexivity | now right].
  - split; [reflexivity |]. split; [| reflexivity].
    exists []. rewrite <- !app_assoc. split; [reflexivity | now left].
Qed.

Lemma trade_insert_failure_leaves_orders_live_witness :
  fst (Executor.executeArbitrage ScenarioOrphan.venues Scenario.cfg
         ScenarioS4.opportunity ScenarioS4.world)
  = inl (DatabaseError "Failed to create trade" "CREATE_ERROR").
Proof.
  refine (proj1 (trade_insert_failure_leaves_orders_live ScenarioOrphan.venues
                   Scenario.cfg ScenarioS4.opportunity ScenarioS4.world
                   {| order_id := "OA1";
                      order_params := Executor.leg opinion ScenarioS4.opportunity |}
                   {| order_id := "OB1";
                      order_params := Executor.leg polymarket ScenarioS4.opportunity |}
                   _ _ _ _ _ _)).
  - cbn. apply not_elem_of_empty.
  - vm_compute. discriminate.
  - reflexivity.
  - reflexivity.
  - reflexivity.
  - reflexivity.
Defined.

Section SimilarityBounds.

Import Similarity JaroMatching.

Lemma Qnat_le (n m : nat) : (n <= m)%nat -> Qnat n <= Qnat m.
Proof. intros H. unfold Qnat. rewrite <- Zle_Qle. lia. Qed.

Lemma Qnat_pos (n : nat) : (0 < n)%nat -> 0 < Qnat n.
Proof.
  intros H. unfold Qnat. change 0 with (inject_Z 0). rewrite <- Zlt_Qlt. lia.
Qed.

Lemma Qnat_nonneg (n : nat) : 0 <= Qnat n.
Proof.
  unfold Qnat. change 0 with (inject_Z 0). rewrite <- Zle_Qle. lia.
Qed.

Lemma Qdiv_unit (a b : Q) : 0 <= a -> a <= b -> 0 < b -> 0 <= a / b <= 1.
Proof.
  intros Ha Hab Hb. split.
  - apply Qle_shift_div_l; lra.
  - apply Qle_shift_div_r; lra.
Qed.

Lemma levenshtein_upper (s t : list ascii) :
  (levenshtein s t <= Nat.max (length s) (length t))%nat.
Proof.
  revert t. induction s as [| a s IHs]; intros t; [cbn; lia |].
  destruct t as [| b t]; [rewrite levenshtein_nil_r; cbn; lia |].
  rewrite levenshtein_cons. specialize (IHs t). cbn [length].
  destruct (bool_decide (a = b)); lia.
Qed.

Lemma levenshtein_lower (s t : list ascii) :
  (length s - length t <= levenshtein s t)%nat
  /\ (length t - length s <= levenshtein s t)%nat.
Proof.
  revert t. induction s as [| a s IHs]; intros t; [cbn; lia |].
  induction t as [| b t IHt]; [rewrite levenshtein_nil_r; cbn; lia |].
  rewrite levenshtein_cons. cbn [length].
  pose proof (IHs t). pose proof (IHs (b :: t)). cbn [length] in *.
  destruct (bool_decide (a = b)); lia.
Qed.

Lemma levenshtein_zero (s t : list ascii) : levenshtein s t = 0%nat <-> s = t.
Proof.
  split; [| intros ->; apply levenshtein_refl].
  revert t. induction s as [| a s IHs]; intros t.
  - cbn. destruct t; [reflexivity | discriminate].
  - induction t as [| b t IHt]; [rewrite levenshtein_nil_r; discriminate |].
    rewrite levenshtein_cons. intros H.
    case_bool_decide as Hab; [| lia].
    assert (levenshtein s t = 0%nat) by lia.
    subst b. f_equal. now apply IHs.
Qed.

Lemma calculateLevenshteinSimilarity_unit (str1 str2 : string) :
  0 <= calculateLevenshteinSimilarity str1 str2 <= 1.
Proof.
  unfold calculateLevenshteinSimilarity.
  destruct (Nat.eqb_spec (Nat.max (String.length str1) (String.length str2)) 0)
    as [E | Hne]; [lra |].
  pose proof (levenshtein_upper (list_ascii_of_string str1) (list_ascii_of_string str2))
    as Hup.
  rewrite !length_list_ascii in Hup.
  destruct (Qdiv_unit (Qnat (levenshtein (list_ascii_of_string str1)
                               (list_ascii_of_string str2)))
              (Qnat (Nat.max (String.length str1) (String.length str2))));
    [apply Qnat_nonneg | now apply Qnat_le | apply Qnat_pos; lia |].
  lra.
Qed.

Lemma mismatches_le (x y : list ascii) : (mismatches x y <= length x)%nat.
Proof.
  revert y. induction x as [| a x IH]; intros [| b y]; cbn; try lia.
  specialize (IH y). destruct (bool_decide (a = b)); lia.
Qed.

Lemma flagged_length (s : list ascii) (f : list bool) :
  (length (flagged (zip s f)) <= countTrue f)%nat.
Proof.
  unfold flagged, countTrue. rewrite length_map.
  revert f. induction s as [| c s IH]; intros [| b f]; cbn; try lia.
  specialize (IH f). destruct b; cbn; lia.
Qed.

Lemma countTrue_le (f : list bool) : (countTrue f <= length f)%nat.
Proof. unfold countTrue. apply List.filter_length_le. Qed.

Lemma calculateJaroSimilarity_unit (str1 str2 : string) :
  0 <= calculateJaroSimilarity str1 str2 <= 1.
Proof.
  unfold calculateJaroSimilarity.
  case_bool_decide; [lra |].
  set (s1 := list_ascii_of_string str1). set (s2 := list_ascii_of_string str2).
  destruct ((length s1 =? 0) || (length s2 =? 0))%nat eqn:Elen; [lra |].
  apply orb_false_iff in Elen as [E1 E2].
  apply Nat.eqb_neq in E1, E2.
  destruct (Nat.eqb_spec (matches (findMatches s1 s2)) 0) as [Em | Hm]; [lra |].
  destruct (findMatches_Inv s1 s2) as [R HI]. destruct HI.
  set (st := findMatches s1 s2) in *.
  assert (Hm1 : (matches st <= length s1)%nat).
  { rewrite inv_count3, <- inv_len3. apply countTrue_le. }
  assert (Hm2 : (matches st <= length s2)%nat).
  { rewrite inv_count4, <- inv_len4. apply countTrue_le. }
  assert (Ht : (countTranspositions (zip s1 (str1Matches st)) (zip s2 (str2Matches st))
                <= matches st)%nat).
  { rewrite countTranspositions_mismatches.
    etransitivity; [apply mismatches_le |].
    rewrite inv_count3. apply flagged_length. }
  set (t := countTranspositions _ _) in *.
  pose proof (Qnat_pos (matches st) ltac:(lia)) as Hpm.
  pose proof (Qnat_le _ _ Hm1) as Hq1. pose proof (Qnat_le _ _ Hm2) as Hq2.
  pose proof (Qnat_le _ _ Ht) as Hqt. pose proof (Qnat_nonneg t) as Hq0.
  assert (Hh : 0 <= Qnat t / 2 <= Qnat t).
  { split; [apply Qle_shift_div_l | apply Qle_shift_div_r]; lra. }
  set (half := Qnat t / 2) in *. clearbody half.
  assert (Hx1 : 0 <= Qnat (matches st) / Qnat (length s1) <= 1)
    by (apply Qdiv_unit; lra).
  set (x1 := Qnat (matches st) / Qnat (length s1)) in *. clearbody x1.
  assert (Hx2 : 0 <= Qnat (matches st) / Qnat (length s2) <= 1)
    by (apply Qdiv_unit; lra).
  set (x2 := Qnat (matches st) / Qnat (length s2)) in *. clearbody x2.
  assert (Hx3 : 0 <= (Qnat (matches st) - half) / Qnat (matches st) <= 1)
    by (apply Qdiv_unit; lra).
  set (x3 := (Qnat (matches st) - half) / Qnat (matches st)) in *. clearbody x3.
  split.
  - apply Qle_shift_div_l; lra.
  - apply Qle_shift_div_r; lra.
Qed.

Lemma commonPrefix_le (s1 s2 : list ascii) (n : nat) : (commonPrefix s1 s2 n <= n)%nat.
Proof.
  revert s1 s2. induction n as [| n IH]; intros [| a s1] [| b s2]; cbn; try lia.
  specialize (IH s1 s2). destruct (bool_decide (a = b)); lia.
Qed.

Lemma calculateJaroWinklerSimilarity_unit (str1 str2 : string) :
  calculateJaroSimilarity str1 str2 <= calculateJaroWinklerSimilarity str1 str2 <= 1.
Proof.
  unfold calculateJaroWinklerSimilarity.
  destruct (calculateJaroSimilarity_unit str1 str2) as [H0 H1].
  set (jaro := calculateJaroSimilarity str1 str2) in *.
  assert (Hp : (getCommonPrefixLength str1 str2 4 <= 4)%nat).
  { unfold getCommonPrefixLength.
    etransitivity; [apply commonPrefix_le | lia]. }
  apply Qnat_le in Hp. pose proof (Qnat_nonneg (getCommonPrefixLength str1 str2 4)) as Hp0.
  set (p := Qnat (getCommonPrefixLength str1 str2 4)) in *.
  change (Qnat 4) with 4 in Hp.
  assert (Hprod : 0 <= (0.1 * p) * (1 - jaro) <= 0.4 * (1 - jaro)).
  { split.
    - apply Qmult_le_0_compat; lra.
    - apply Qmult_le_compat_r; lra. }
  lra.
Qed.

Lemma calculateTokenOverlap_unit (tokens1 tokens2 : list string) :
  0 <= calculateTokenOverlap tokens1 tokens2 <= 1.
Proof.
  unfold calculateTokenOverlap.
  set (set1 := list_to_set tokens1 : gset string).
  set (set2 := list_to_set tokens2 : gset string).
  destruct (Nat.ltb_spec 0 (base.size (set1 ∪ set2))) as [Hpos | _]; [| lra].
  apply Qdiv_unit.
  - apply Qnat_nonneg.
  - apply Qnat_le, subseteq_size.
    etransitivity; [apply intersection_subseteq_l | apply union_subseteq_l].
  - now apply Qnat_pos.
Qed.

Lemma calculateDateSimilarity_unit (dates1 dates2 : list Z) :
  0 <= calculateDateSimilarity dates1 dates2 <= 1.
Proof.
  unfold calculateDateSimilarity.
  destruct (_ && _); [lra |]. destruct (_ || _); [lra |].
  destruct (existsb _ _); lra.
Qed.

End SimilarityBounds.

(** X20.  Every component score of [calculateSimilarity] lies between 0
    and 1: the Levenshtein similarity, the Jaro similarity, the
    Jaro-Winkler similarity (which is never below the Jaro similarity), the
    token overlap and the date similarity.  The weighted sum therefore lies
    between 0 and 1 as well, and the final clamp of [calculateSimilarity]
    never changes it. *)
Theorem calculateSimilarity_is_the_weighted_sum :
  (forall str1 str2, 0 <= Similarity.calculateLevenshteinSimilarity str1 str2 <= 1)
  /\ (forall str1 str2, 0 <= Similarity.calculateJaroSimilarity str1 str2 <= 1)
  /\ (forall str1 str2,
        Similarity.calculateJaroSimilarity str1 str2
        <= Similarity.calculateJaroWinklerSimilarity str1 str2 <= 1)
  /\ (forall tokens1 tokens2, 0 <= Similarity.calculateTokenOverlap tokens1 tokens2 <= 1)
  /\ (forall dates1 dates2, 0 <= Similarity.calculateDateSimilarity dates1 dates2 <= 1)
  /\ (forall market1 market2,
        Similarity.calculateSimilarity market1 market2
        == Similarity.calculateLevenshteinSimilarity
             (normalizedTitle market1) (normalizedTitle market2) * 0.2
           + Similarity.calculateJaroWinklerSimilarity
               (normalizedTitle market1) (normalizedTitle market2) * 0.3
           + Similarity.calculateTokenOverlap (tokens market1) (tokens market2) * 0.3
           + Similarity.calculateDateSimilarity (dates market1) (dates market2) * 0.2).
Proof.
  repeat split;
    try apply calculateLevenshteinSimilarity_unit;
    try apply calculateJaroSimilarity_unit;
    try apply calculateJaroWinklerSimilarity_unit;
    try apply calculateTokenOverlap_unit;
    try apply calculateDateSimilarity_unit.
  intros market1 market2. unfold Similarity.calculateSimilarity.
  pose proof (calculateLevenshteinSimilarity_unit
                (normalizedTitle market1) (normalizedTitle market2)).
  pose proof (calculateJaroSimilarity_unit
                (normalizedTitle market1) (normalizedTitle market2)).
  pose proof (calculateJaroWinklerSimilarity_unit
                (normalizedTitle market1) (normalizedTitle market2)).
  pose proof (calculateTokenOverlap_unit (tokens market1) (tokens market2)).
  pose proof (calculateDateSimilarity_unit (dates market1) (dates market2)).
  apply clamp_id; [lra | lra | reflexivity].
Qed.

Section NormalizeFacts.

Import Similarity.

(** The character map of [normalizeString] before white space is
    collapsed. *)
Lemma normalizeChars_map (s : list ascii) :
  normalizeChars s
  = collapse false false
      (map (fun c => if isWordChar (toLowerCase c) || isSpace (toLowerCase c)
                     then toLowerCase c else " "%char) s).
Proof. unfold normalizeChars. now rewrite map_map. Qed.

Lemma charMap_cases (c : ascii) :
  let d := if isWordChar (toLowerCase c) || isSpace (toLowerCase c)
           then toLowerCase c else " "%char in
  (isSpace d = true \/ (isWordChar d = true /\ toLowerCase d = d))
  /\ (isSpace d = false ->
      (if isWordChar (toLowerCase d) || isSpace (toLowerCase d)
       then toLowerCase d else " "%char) = d).
Proof.
  destruct c as [[|] [|] [|] [|] [|] [|] [|] [|]]; vm_compute;
    (split; [first [left; reflexivity | right; split; reflexivity]
            | first [reflexivity | discriminate]]).
Qed.

Lemma collapse_again (l : list ascii) (p : bool) :
  collapse false true (collapse p true l) = collapse p true l.
Proof.
  revert p. induction l as [| c l IH]; intros p; [reflexivity |].
  cbn [collapse]. destruct (isSpace c) eqn:Ec; [apply IH |].
  destruct p; cbn [app collapse].
  - change (isSpace " "%char) with true. cbn [collapse]. rewrite Ec.
    cbn [app]. now rewrite IH.
  - rewrite Ec. cbn [app]. now rewrite IH.
Qed.

Lemma collapse_idempotent (l : list ascii) :
  collapse false false (collapse false false l) = collapse false false l.
Proof.
  induction l as [| c l IH]; [reflexivity |].
  cbn [collapse]. destruct (isSpace c) eqn:Ec; [exact IH |].
  cbn [app collapse]. rewrite Ec. cbn [app]. now rewrite collapse_again.
Qed.

Lemma collapse_Forall (P : ascii -> Prop) (p started : bool) (l : list ascii) :
  P " "%char ->
  (forall c, In c l -> isSpace c = false -> P c) ->
  forall c, In c (collapse p started l) -> P c.
Proof.
  intros Hsp. revert p started. induction l as [| a l IH]; intros p started Hl c Hc;
    [destruct Hc |].
  cbn [collapse] in Hc. destruct (isSpace a) eqn:Ea.
  - apply (IH started started); [| exact Hc]. intros x Hx. apply Hl. now right.
  - apply in_app_or in Hc as [Hc | Hc].
    + destruct p; cbn in Hc.
      * destruct Hc as [<- | [<- | []]]; [exact Hsp | apply Hl; [now left | exact Ea]].
      * destruct Hc as [<- | []]. apply Hl; [now left | exact Ea].
    + apply (IH false true); [| exact Hc]. intros x Hx. apply Hl. now right.
Qed.

Lemma collapse_no_space (p started : bool) (l : list ascii) :
  forall c, In c (collapse p started l) -> c = " "%char \/ (In c l /\ isSpace c = false).
Proof.
  revert p started. induction l as [| a l IH]; intros p started c Hc; [destruct Hc |].
  cbn [collapse] in Hc. destruct (isSpace a) eqn:Ea.
  - destruct (IH _ _ _ Hc) as [H | [H1 H2]]; [now left | right; split; [now right | exact H2]].
  - apply in_app_or in Hc as [Hc | Hc].
    + destruct p; cbn in Hc.
      * destruct Hc as [<- | [<- | []]]; [now left | right; split; [now left | exact Ea]].
      * destruct Hc as [<- | []]. right. split; [now left | exact Ea].
    + destruct (IH _ _ _ Hc) as [H | [H1 H2]]; [now left | right; split; [now right | exact H2]].
Qed.

Lemma map_fixed {A} (f : A -> A) (l : list A) :
  (forall x, In x l -> f x = x) -> map f l = l.
Proof.
  induction l as [| x l IH]; intros H; [reflexivity |].
  cbn. rewrite H by now left. f_equal. apply IH. intros y Hy. apply H. now right.
Qed.

Lemma normalizeChars_idempotent (s : list ascii) :
  normalizeChars (normalizeChars s) = normalizeChars s.
Proof.
  rewrite (normalizeChars_map (normalizeChars s)).
  rewrite map_fixed; [rewrite normalizeChars_map; apply collapse_idempotent |].
  intros c Hc. rewrite normalizeChars_map in Hc.
  apply collapse_no_space in Hc as [-> | [Hin Hns]]; [reflexivity |].
  apply in_map_iff in Hin as (c0 & <- & _).
  apply (charMap_cases c0). exact Hns.
Qed.

Lemma normalizeChars_alphabet (s : list ascii) (c : ascii) :
  In c (normalizeChars s) ->
  c = " "%char \/ (isWordChar c = true /\ toLowerCase c = c).
Proof.
  intros Hc. rewrite normalizeChars_map in Hc.
  apply collapse_no_space in Hc as [-> | [Hin Hns]]; [now left |].
  apply in_map_iff in Hin as (c0 & <- & _).
  destruct (charMap_cases c0) as [[H | H] _]; [congruence | now right].
Qed.

End NormalizeFacts.

(** X22.  [normalizeString] is idempotent, and its result is made of
    lower-case letters, digits, underscores and spaces only.
    [tokenize], which normalizes its argument first, therefore gives the
    same tokens for a text and for the normalized text. *)
Theorem normalizeString_idempotent (str : string) :
  Similarity.normalizeString (Similarity.normalizeString str)
  = Similarity.normalizeString str
  /\ Similarity.tokenize (Similarity.normalizeString str) = Similarity.tokenize str
  /\ (forall c, In c (list_ascii_of_string (Similarity.normalizeString str)) ->
        c = " "%char
        \/ (Similarity.isWordChar c = true /\ Similarity.toLowerCase c = c)).
Proof.
  unfold Similarity.normalizeString, Similarity.tokenize.
  rewrite !list_ascii_of_string_of_list_ascii, normalizeChars_idempotent.
  repeat split. apply normalizeChars_alphabet.
Qed.

Section TokenizeFacts.

Import Similarity.

Lemma splitSpaces_chars (l current : list ascii) (piece : list ascii) (c : ascii) :
  In piece (splitSpaces current l) -> In c piece ->
  In c current \/ (In c l /\ isSpace c = false).
Proof.
  revert current. induction l as [| a l IH]; intros current Hp Hc.
  - cbn in Hp. destruct Hp as [<- | []]. left. now apply in_rev.
  - cbn [splitSpaces] in Hp. destruct (isSpace a) eqn:Ea.
    + destruct Hp as [<- | Hp]; [left; now apply in_rev |].
      destruct (IH [] Hp Hc) as [[] | [H1 H2]]. right. split; [now right | exact H2].
    + destruct (IH (a :: current) Hp Hc) as [[<- | H] | [H1 H2]].
      * right. split; [now left | exact Ea].
      * now left.
      * right. split; [now right | exact H2].
Qed.

End TokenizeFacts.

(** X23.  Every token [tokenize] returns is longer than two characters, is
    not a pure number, and is made of lower-case letters, digits and
    underscores only: it contains no white space and no punctuation. *)
Theorem tokenize_tokens (text token : string)
    (Htoken : In token (Similarity.tokenize text)) :
  (2 < String.length token)%nat
  /\ Similarity.pureNumber (list_ascii_of_string token) = false
  /\ (forall c, In c (list_ascii_of_string token) ->
        Similarity.isWordChar c = true /\ Similarity.toLowerCase c = c
        /\ Similarity.isSpace c = false).
Proof.
  unfold Similarity.tokenize in Htoken.
  apply in_map_iff in Htoken as (piece & <- & Hpiece).
  apply List.filter_In in Hpiece as [Hpiece Hnum].
  apply List.filter_In in Hpiece as [Hpiece Hlen].
  rewrite list_ascii_of_string_of_list_ascii.
  split; [| split].
  - rewrite <- length_list_ascii, list_ascii_of_string_of_list_ascii.
    now apply Nat.ltb_lt.
  - now apply negb_true_iff.
  - intros c Hc.
    destruct (splitSpaces_chars _ _ _ _ Hpiece Hc) as [[] | [Hin Hns]].
    destruct (normalizeChars_alphabet _ _ Hin) as [-> | [H1 H2]];
      [discriminate Hns | auto].
Qed.

Lemma tokenize_tokens_witness :
  (2 < String.length "will")%nat
  /\ Similarity.pureNumber (list_ascii_of_string "will") = false.
Proof.
  assert (H : In "will"%string (Similarity.tokenize "Will BTC hit 100k?"))
    by (vm_compute; auto).
  pose proof (tokenize_tokens "Will BTC hit 100k?" "will" H) as (H1 & H2 & _).
  exact (conj H1 H2).
Defined.

Section MatcherFacts.

Import MarketMatcher.

(** The inner loop of [matchMarkets]: what it has chosen after the
    candidates [l]. *)
Lemma considerCandidate_fold (matched : list string) (o : NormalizedMarket)
    (l : list NormalizedMarket) (start : option (NormalizedMarket * Q)) :
  let P := fun (seen : list NormalizedMarket) (r : option (NormalizedMarket * Q)) =>
    match r with
    | Some (best, score) =>
        In best seen /\ (nm_id best ∉ matched)
        /\ score = Similarity.calculateSimilarity o best
        /\ similarityThreshold <= score
        /\ (forall q, In q seen -> nm_id q ∉ matched ->
              Similarity.calculateSimilarity o q <= score)
    | None =>
        forall q, In q seen -> nm_id q ∉ matched ->
          Similarity.calculateSimilarity o q < similarityThreshold
    end in
  forall seen, P seen start ->
    P (seen ++ l) (fold_left (considerCandidate matched o) l start).
Proof.
  intros P. revert start. induction l as [| c l IH]; intros start seen Hstart.
  - rewrite app_nil_r. exact Hstart.
  - cbn [fold_left].
    replace (seen ++ c :: l) with ((seen ++ [c]) ++ l) by now rewrite <- app_assoc.
    apply IH. unfold considerCandidate.
    case_bool_decide as Hm.
    + destruct start as [[best score] |]; cbn in *.
      * destruct Hstart as (H1 & H2 & H3 & H4 & H5).
        repeat split; auto; [apply in_or_app; now left |].
        intros q Hq Hnq. apply in_app_or in Hq as [Hq | [<- | []]]; [auto | contradiction].
      * intros q Hq Hnq. apply in_app_or in Hq as [Hq | [<- | []]]; [auto | contradiction].
    + destruct (Qle_bool similarityThreshold (Similarity.calculateSimilarity o c)) eqn:Ethr.
      * apply Qle_bool_iff in Ethr.
        destruct start as [[best score] |]; cbn in *.
        -- destruct Hstart as (H1 & H2 & H3 & H4 & H5).
           destruct (Calculator.Qltb score (Similarity.calculateSimilarity o c)) eqn:Elt.
           ++ apply Qltb_lt in Elt.
              repeat split; auto; [apply in_or_app; right; now left |].
              intros q Hq Hnq. apply in_app_or in Hq as [Hq | [<- | []]].
              ** specialize (H5 q Hq Hnq). lra.
              ** lra.
           ++ apply Qltb_ge in Elt.
              repeat split; auto; [apply in_or_app; now left |].
              intros q Hq Hnq. apply in_app_or in Hq as [Hq | [<- | []]]; auto.
        -- repeat split; auto; [apply in_or_app; right; now left |].
           intros q Hq Hnq. apply in_app_or in Hq as [Hq | [<- | []]].
           ++ specialize (Hstart q Hq Hnq). lra.
           ++ lra.
      * assert (Hlow : Similarity.calculateSimilarity o c < similarityThreshold).
        { apply Qnot_le_lt. intros H. apply Qle_bool_iff in H. congruence. }
        destruct start as [[best score] |]; cbn in *.
        -- destruct Hstart as (H1 & H2 & H3 & H4 & H5).
           repeat split; auto; [apply in_or_app; now left |].
           intros q Hq Hnq. apply in_app_or in Hq as [Hq | [<- | []]]; [auto | lra].
        -- intros q Hq Hnq. apply in_app_or in Hq as [Hq | [<- | []]]; auto.
Qed.

Lemma matchOne_cases (clock : nat -> Z) (candidates : list NormalizedMarket)
    (pr : MarketMatcher.Progress) (o : NormalizedMarket) :
  (MarketMatcher.matchOne clock candidates pr o = pr
   /\ forall q, In q candidates -> nm_id q ∉ MarketMatcher.matchedPolymarketIds pr ->
        Similarity.calculateSimilarity o q < MarketMatcher.similarityThreshold)
  \/ (exists best,
        In best candidates
        /\ (nm_id best ∉ MarketMatcher.matchedPolymarketIds pr)
        /\ MarketMatcher.similarityThreshold <= Similarity.calculateSimilarity o best
        /\ (forall q, In q candidates ->
              nm_id q ∉ MarketMatcher.matchedPolymarketIds pr ->
              Similarity.calculateSimilarity o q
              <= Similarity.calculateSimilarity o best)
        /\ MarketMatcher.found (MarketMatcher.matchOne clock candidates pr o)
           = MarketMatcher.found pr
             ++ [ {| canonicalId :=
                       MarketMatcher.generateCanonicalId
                         (clock (MarketMatcher.ticks pr)) o best;
                     opinionMarket := Some (original o);
                     polymarketMarket := Some (original best);
                     similarityScore := Similarity.calculateSimilarity o best;
                     confidence :=
                       MarketMatcher.getConfidence
                         (Similarity.calculateSimilarity o best) |} ]
        /\ MarketMatcher.matchedPolymarketIds (MarketMatcher.matchOne clock candidates pr o)
           = MarketMatcher.matchedPolymarketIds pr ++ [nm_id best]
        /\ MarketMatcher.ticks (MarketMatcher.matchOne clock candidates pr o)
           = S (MarketMatcher.ticks pr)).
Proof.
  pose proof (considerCandidate_fold (MarketMatcher.matchedPolymarketIds pr) o
                candidates None [] (fun q Hq => match Hq with end)) as H.
  cbn [app] in H. unfold MarketMatcher.matchOne.
  destruct (fold_left _ candidates None) as [[best score] |].
  - right. destruct H as (H1 & H2 & H3 & H4 & H5). subst score.
    exists best. cbn.
    repeat split; auto.
    unfold setAdd. now rewrite bool_decide_eq_false_2.
  - left. split; [reflexivity | exact H].
Qed.

Lemma getConfidence_not_low (score : Q) :
  similarityThreshold <= score -> getConfidence score <> low.
Proof.
  intros H. unfold getConfidence, similarityThreshold in *.
  destruct (Qle_bool 0.95 score); [discriminate |].
  destruct (Qle_bool 0.85 score) eqn:E; [discriminate |].
  apply Qle_bool_iff in H. congruence.
Qed.

Lemma calculateSimilarity_le_1 (a b : NormalizedMarket) :
  Similarity.calculateSimilarity a b <= 1.
Proof. unfold Similarity.calculateSimilarity. apply Q.le_min_l. Qed.

Lemma matchMarkets_fold (extractDates : string -> list Z) (clock : nat -> Z)
    (tick : nat) (opinionMarkets polymarketMarkets : list Market) :
  let candidates := map (Similarity.normalizeMarket extractDates) polymarketMarkets in
  let Good := fun (m : MarketMatch) =>
    exists o p,
      In o opinionMarkets /\ In p polymarketMarkets
      /\ opinionMarket m = Some o /\ polymarketMarket m = Some p
      /\ similarityScore m
         = Similarity.calculateSimilarity (Similarity.normalizeMarket extractDates o)
             (Similarity.normalizeMarket extractDates p)
      /\ similarityThreshold <= similarityScore m <= 1
      /\ confidence m = getConfidence (similarityScore m)
      /\ confidence m <> low in
  forall (l : list Market) (pr : Progress),
    (forall o, In o l -> In o opinionMarkets) ->
    (forall m, In m (found pr) -> Good m) ->
    map (fun m => m_id <$> polymarketMarket m) (found pr)
    = map Some (matchedPolymarketIds pr) ->
    NoDup (matchedPolymarketIds pr) ->
    let pr' := fold_left (matchOne clock candidates)
                 (map (Similarity.normalizeMarket extractDates) l) pr in
    (forall m, In m (found pr') -> Good m)
    /\ map (fun m => m_id <$> polymarketMarket m) (found pr')
       = map Some (matchedPolymarketIds pr')
    /\ NoDup (matchedPolymarketIds pr')
    /\ (length (found pr') <= length (found pr) + length l)%nat
    /\ (ticks pr' - ticks pr = length (found pr') - length (found pr))%nat
    /\ (ticks pr <= ticks pr')%nat /\ (length (found pr) <= length (found pr'))%nat.
Proof.
  intros candidates Good l. induction l as [| o l IH]; intros pr Hl Hgood Hids Hnd.
  - cbn. repeat split; auto; lia.
  - cbn [map fold_left].
    set (no := Similarity.normalizeMarket extractDates o).
    destruct (matchOne_cases clock candidates pr no)
      as [[E _] | (best & Hbest & Hfresh & Hthr & _ & Hfound & Hmatched & Hticks)].
    + rewrite E. destruct (IH pr) as (H1 & H2 & H3 & H4 & H5 & H6 & H7); auto.
      { intros x Hx. apply Hl. now right. }
      repeat split; auto. cbn [length]. lia.
    + destruct (IH (matchOne clock candidates pr no)) as (H1 & H2 & H3 & H4 & H5 & H6 & H7).
      * intros x Hx. apply Hl. now right.
      * rewrite Hfound. intros m Hm. apply in_app_or in Hm as [Hm | [<- | []]]; [auto |].
        apply in_map_iff in Hbest as (p & <- & Hp).
        exists o, p. cbn.
        repeat split; auto.
        -- apply Hl. now left.
        -- apply calculateSimilarity_le_1.
        -- now apply getConfidence_not_low.
      * rewrite Hfound, Hmatched, !map_app, Hids. cbn.
        apply in_map_iff in Hbest as (p & <- & Hp). reflexivity.
      * rewrite Hmatched. now apply NoDup_snoc_fresh.
      * rewrite Hfound, length_app in *. cbn [length] in *.
        repeat split; auto; lia.
Qed.

End MatcherFacts.

(** X24.  One round of the matching loop is a greedy choice.  If
    [matchOne] adds a match for an Opinion market, the Polymarket market in
    it is one of the candidates not matched before, its score is the
    similarity of the pair, that score is at least 0.85, and no candidate
    not matched before is more similar to the Opinion market; the id of the
    Polymarket market is then marked as matched and one clock reading is
    consumed.  If it adds none, every candidate not matched before scores
    below 0.85, and nothing changes. *)
Theorem matchOne_is_greedy (clock : nat -> Z) (candidates : list NormalizedMarket)
    (pr : MarketMatcher.Progress) (o : NormalizedMarket) :
  (MarketMatcher.matchOne clock candidates pr o = pr
   /\ forall q, In q candidates -> nm_id q ∉ MarketMatcher.matchedPolymarketIds pr ->
        Similarity.calculateSimilarity o q < MarketMatcher.similarityThreshold)
  \/ (exists best,
        In best candidates
        /\ (nm_id best ∉ MarketMatcher.matchedPolymarketIds pr)
        /\ MarketMatcher.similarityThreshold <= Similarity.calculateSimilarity o best
        /\ (forall q, In q candidates ->
              nm_id q ∉ MarketMatcher.matchedPolymarketIds pr ->
              Similarity.calculateSimilarity o q
              <= Similarity.calculateSimilarity o best)
        /\ MarketMatcher.found (MarketMatcher.matchOne clock candidates pr o)
           = MarketMatcher.found pr
             ++ [ {| canonicalId :=
                       MarketMatcher.generateCanonicalId
                         (clock (MarketMatcher.ticks pr)) o best;
                     opinionMarket := Some (original o);
                     polymarketMarket := Some (original best);
                     similarityScore := Similarity.calculateSimilarity o best;
                     confidence :=
                       MarketMatcher.getConfidence
                         (Similarity.calculateSimilarity o best) |} ]
        /\ MarketMatcher.matchedPolymarketIds (MarketMatcher.matchOne clock candidates pr o)
           = MarketMatcher.matchedPolymarketIds pr ++ [nm_id best]
        /\ MarketMatcher.ticks (MarketMatcher.matchOne clock candidates pr o)
           = S (MarketMatcher.ticks pr)).
Proof. apply matchOne_cases. Qed.

(** X25.  What [matchMarkets] returns.  Every match pairs a market of the
    Opinion listing with a market of the Polymarket listing, carries the
    similarity of the two normalized markets as its score, a score of at
    least 0.85 and at most 1, and a confidence that is never [low].  No two
    matches share their Polymarket market id, there are at most as many
    matches as Opinion markets, and one clock reading is consumed per
    match. *)
Theorem matchMarkets_matches (extractDates : string -> list Z) (clock : nat -> Z)
    (tick : nat) (opinionMarkets polymarketMarkets : list Market) :
  (forall m,
     In m (fst (MarketMatcher.matchMarkets extractDates clock tick
                  opinionMarkets polymarketMarkets)) ->
     exists o p,
       In o opinionMarkets /\ In p polymarketMarkets
       /\ opinionMarket m = Some o /\ polymarketMarket m = Some p
       /\ similarityScore m
          = Similarity.calculateSimilarity (Similarity.normalizeMarket extractDates o)
              (Similarity.normalizeMarket extractDates p)
       /\ MarketMatcher.similarityThreshold <= similarityScore m <= 1
       /\ confidence m = MarketMatcher.getConfidence (similarityScore m)
       /\ confidence m <> low)
  /\ NoDup (map (fun m => m_id <$> polymarketMarket m)
              (fst (MarketMatcher.matchMarkets extractDates clock tick
                      opinionMarkets polymarketMarkets)))
  /\ (length (fst (MarketMatcher.matchMarkets extractDates clock tick
                     opinionMarkets polymarketMarkets))
      <= length opinionMarkets)%nat
  /\ snd (MarketMatcher.matchMarkets extractDates clock tick
            opinionMarkets polymarketMarkets)
     = (tick + length (fst (MarketMatcher.matchMarkets extractDates clock tick
                              opinionMarkets polymarketMarkets)))%nat.
Proof.
  unfold MarketMatcher.matchMarkets. cbn [fst snd].
  destruct (matchMarkets_fold extractDates clock tick opinionMarkets polymarketMarkets
              opinionMarkets
              {| MarketMatcher.found := []; MarketMatcher.matchedPolymarketIds := [];
                 MarketMatcher.ticks := tick |})
    as (H1 & H2 & H3 & H4 & H5 & H6 & H7); cbn; auto.
  - intros m [].
  - constructor.
  - cbn in *. repeat split; auto.
    + rewrite H2. apply NoDup_fmap; [intros x y [=]; assumption | exact H3].
    + lia.
Qed.

Section CanonicalIdFacts.

Lemma append_cancel_l (p s1 s2 : string) : (p ++ s1 = p ++ s2)%string -> s1 = s2.
Proof.
  induction p as [| c p IH]; cbn; [auto |]. intros [= H]. now apply IH.
Qed.

Lemma to_int_not_nil (z : Z) :
  Z.to_int z <> Decimal.Pos Decimal.Nil /\ Z.to_int z <> Decimal.Neg Decimal.Nil.
Proof.
  split; intros H; pose proof (DecimalZ.of_to z) as E; rewrite H in E; cbn in E;
    subst z; discriminate H.
Qed.

Lemma string_of_int_inj (a b : Z) :
  NilZero.string_of_int (Z.to_int a) = NilZero.string_of_int (Z.to_int b) -> a = b.
Proof.
  intros H. apply DecimalZ.to_int_inj.
  destruct (to_int_not_nil a) as [Ha1 Ha2]. destruct (to_int_not_nil b) as [Hb1 Hb2].
  pose proof (NilZero.isi _ Ha1 Ha2) as Ea. pose proof (NilZero.isi _ Hb1 Hb2) as Eb.
  rewrite H in Ea. congruence.
Qed.

Lemma prefix_append (p s : string) : String.prefix p (p ++ s)%string = true.
Proof.
  induction p as [| a p IH]; [now destruct s |].
  change (String.prefix (String a p) (String a (p ++ s)) = true).
  unfold String.prefix; fold String.prefix.
  destruct (ascii_dec a a); [exact IH | contradiction].
Qed.

End CanonicalIdFacts.

(** X26.  The canonical id [generateCanonicalId] builds for a pair of
    markets starts with [market-] and depends on the clock: for the same
    pair, two readings of the clock give the same id only if they are
    equal, so a pair matched again at a later time gets a new id. *)
Theorem generateCanonicalId_clock (now1 now2 : Z) (market1 market2 : NormalizedMarket) :
  (MarketMatcher.generateCanonicalId now1 market1 market2
   = MarketMatcher.generateCanonicalId now2 market1 market2
   <-> now1 = now2)
  /\ String.prefix "market-" (MarketMatcher.generateCanonicalId now1 market1 market2)
     = true.
Proof.
  split; [split; [| intros ->; reflexivity] |].
  - unfold MarketMatcher.generateCanonicalId. intros H.
    apply append_cancel_l, append_cancel_l, append_cancel_l in H.
    now apply string_of_int_inj.
  - apply prefix_append.
Qed.

Section SaveMatchesFacts.

Import MarketMatcher.

Lemma update_canonical_ids (table : list MarketMapping) (cid : string)
    (u : MarketMappingModel.Updates) :
  map canonical_market_id (MarketMappingModel.update table cid u)
  = map canonical_market_id table.
Proof.
  unfold MarketMappingModel.update. rewrite map_map. apply map_ext.
  intros r. destruct (bool_decide _); reflexivity.
Qed.

Lemma findByCanonicalId_None (table : list MarketMapping) (cid : string) :
  MarketMappingModel.findByCanonicalId table cid = None ->
  cid ∉ map canonical_market_id table.
Proof.
  unfold MarketMappingModel.findByCanonicalId. intros H Hin.
  apply list_elem_of_In, in_map_iff in Hin as (r & Hr & Hin).
  pose proof (List.find_none _ _ H r Hin) as Hf. cbn in Hf.
  apply bool_decide_eq_false in Hf. contradiction.
Qed.

Lemma saveMatch_canonical_ids (table : list MarketMapping) (m : MarketMatch) :
  map canonical_market_id (saveMatch table m) = map canonical_market_id table
  \/ ((canonicalId m ∉ map canonical_market_id table)
      /\ map canonical_market_id (saveMatch table m)
         = map canonical_market_id table ++ [canonicalId m]).
Proof.
  unfold saveMatch.
  destruct (MarketMappingModel.findByCanonicalId table (canonicalId m)) eqn:Ef.
  - left. apply update_canonical_ids.
  - unfold MarketMappingModel.create. cbn.
    destruct (existsb _ table); [now left |].
    destruct (MarketMappingModel.orNull (m_id <$> opinionMarket m));
      [| destruct (MarketMappingModel.orNull (m_id <$> polymarketMarket m));
         [| now left]].
    all: right; split; [now apply findByCanonicalId_None |].
    all: cbn; rewrite map_app; reflexivity.
Qed.

End SaveMatchesFacts.

(** X27.  [saveMatches] keeps the canonical ids of [market_mappings]
    unique: starting from a table without duplicate canonical ids it ends
    with one, the canonical ids already present stay in place and in order,
    those appended are canonical ids of the matches, and the table grows by
    at most one row per match. *)
Theorem saveMatches_keeps_canonical_ids_unique
    (table : list MarketMapping) (ms : list MarketMatch)
    (Hunique : NoDup (map canonical_market_id table)) :
  NoDup (map canonical_market_id (MarketMatcher.saveMatches table ms))
  /\ (exists added,
        map canonical_market_id (MarketMatcher.saveMatches table ms)
        = map canonical_market_id table ++ added
        /\ (forall cid, In cid added -> In cid (map canonicalId ms))
        /\ (length added <= length ms)%nat).
Proof.
  unfold MarketMatcher.saveMatches.
  revert table Hunique. induction ms as [| m ms IH]; intros table Hunique.
  - cbn. split; [exact Hunique |]. exists []. rewrite app_nil_r.
    repeat split; auto.
  - cbn [fold_left].
    destruct (saveMatch_canonical_ids table m) as [E | [Hfresh E]].
    + destruct (IH (MarketMatcher.saveMatch table m)) as (H1 & added & H2 & H3 & H4).
      { now rewrite E. }
      split; [exact H1 |]. exists added. rewrite H2, E.
      repeat split; auto; [| cbn; lia].
      intros cid Hc. right. now apply H3.
    + destruct (IH (MarketMatcher.saveMatch table m)) as (H1 & added & H2 & H3 & H4).
      { rewrite E. now apply NoDup_snoc_fresh. }
      split; [exact H1 |]. exists (canonicalId m :: added).
      rewrite H2, E, <- app_assoc.
      repeat split; auto; [| cbn; lia].
      intros cid [<- | Hc]; [now left | right; now apply H3].
Qed.

Lemma saveMatches_keeps_canonical_ids_unique_witness :
  NoDup (map canonical_market_id
           (MarketMatcher.saveMatches []
              (fst (MarketMatcher.matchMarkets ScenarioMarkets.noDates ScenarioSync.clock 0
                      [ScenarioMarkets.opinionBtc] [ScenarioMarkets.polymarketBtc])))).
Proof.
  refine (proj1 (saveMatches_keeps_canonical_ids_unique [] _ _)).
  constructor.
Defined.

Section RouteFacts.

Lemma placedLegs_In (es : list Executor.Effect) (p : Platform) (params : PlaceOrderParams) :
  In (Executor.PlaceOrder p params) es -> In (p, params) (Executor.placedLegs es).
Proof.
  intros H. unfold Executor.placedLegs. apply in_flat_map.
  exists (Executor.PlaceOrder p params). split; [exact H | now left].
Qed.

Lemma routed_size_within_limit (config : ArbitrageConfig) (row : Routes.OpportunityRow) :
  op_recommendedSize (Routes.arbOpportunity config row) <= maxPositionSize config.
Proof. cbn. unfold Calculator.min3. apply Q.le_min_r. Qed.

End RouteFacts.

(** X28.  The manual execute route.  With auto-execution disabled it
    answers 403 and does nothing.  Otherwise every order it causes is placed
    with an empty market id, as a buy, for a size that is at most the
    maximum position size and at most the Opinion and the Polymarket
    liquidity stored in the row; and the coordinator's size check never
    rejects an opportunity built by the route. *)
Theorem execute_route_places_unaddressed_legs
    (v : Executor.Venues) (config : ArbitrageConfig)
    (active : list Routes.OpportunityRow) (opportunityId : string)
    (w : Executor.World) :
  (autoExecute config = false ->
   Routes.execute v config active opportunityId w
   = (Routes.Status 403 "Auto-execution is disabled", w))
  /\ (exists es,
        Executor.effects (snd (Routes.execute v config active opportunityId w))
        = Executor.effects w ++ es
        /\ forall p params,
             In (Executor.PlaceOrder p params) es ->
             pp_marketId params = EmptyString
             /\ pp_side params = buy
             /\ pp_amount params <= maxPositionSize config
             /\ exists row,
                  In row active /\ Routes.row_id row = opportunityId
                  /\ pp_amount params
                     <= Routes.orZero (Routes.row_liquidity_opinion row)
                  /\ pp_amount params
                     <= Routes.orZero (Routes.row_liquidity_polymarket row))
  /\ (forall row,
        fst (Executor.executeArbitrage v config (Routes.arbOpportunity config row) w)
        <> inl (TradingError "Recommended size exceeds maximum position size"
                             "SIZE_LIMIT_EXCEEDED")).
Proof.
  split; [| split].
  - intros H. unfold Routes.execute. now rewrite H.
  - unfold Routes.execute.
    destruct (negb (autoExecute config));
      [exists []; rewrite app_nil_r; split; [reflexivity | intros ? ? []] |].
    destruct (List.find _ active) as [row |] eqn:Efind;
      [| exists []; rewrite app_nil_r; split; [reflexivity | intros ? ? []]].
    destruct (executeArbitrage_legs v config (Routes.arbOpportunity config row) w)
      as (es & Hes & Hlegs & _).
    exists es. split.
    { destruct (Executor.executeArbitrage v config _ w) as [[e | r] w']; exact Hes. }
    intros p params Hin. apply placedLegs_In in Hin.
    destruct Hlegs as [E | [E _]]; rewrite E in Hin; [destruct Hin |].
    pose proof (List.find_some _ _ Efind) as [Hrow Hid].
    apply bool_decide_eq_true in Hid.
    assert (Hsz : forall q, q = Executor.leg opinion (Routes.arbOpportunity config row)
                         \/ q = Executor.leg polymarket (Routes.arbOpportunity config row) ->
              pp_marketId q = EmptyString /\ pp_side q = buy
              /\ pp_amount q <= maxPositionSize config
              /\ pp_amount q <= Routes.orZero (Routes.row_liquidity_opinion row)
              /\ pp_amount q <= Routes.orZero (Routes.row_liquidity_polymarket row)).
    { intros q [-> | ->]; cbn; unfold Calculator.min3;
        (repeat split;
         [apply Q.le_min_r
         | eapply Qle_trans; [apply Q.le_min_l | apply Q.le_min_l]
         | eapply Qle_trans; [apply Q.le_min_l | apply Q.le_min_r]]). }
    destruct Hin as [[= <- <-] | [[= <- <-] | []]].
    + destruct (Hsz _ (or_introl eq_refl)) as (H1 & H2 & H3 & H4 & H5).
      repeat split; auto. exists row. auto.
    + destruct (Hsz _ (or_intror eq_refl)) as (H1 & H2 & H3 & H4 & H5).
      repeat split; auto. exists row. auto.
  - intros row.
    pose proof (routed_size_within_limit config row) as Hsize.
    apply Qltb_ge in Hsize.
    destruct (decide (op_id (Routes.arbOpportunity config row)
                      ∈ Executor.executingOpportunities w)) as [Hin | Hfresh].
    { rewrite (executeArbitrage_duplicate v config _ w Hin). cbv [fst TradingError]. congruence. }
    destruct w as [inflight sts rows es0]. cbn [Executor.executingOpportunities] in Hfresh.
    exec_unfold.
    rewrite bool_decide_eq_false_2 by exact Hfresh.
    exec_unfold.
    exec_case;
      [repeat exec_case; cbv [TradingError DatabaseError]; congruence |].
    rewrite Hsize. exec_unfold.
    repeat exec_case; cbv [TradingError DatabaseError]; congruence.
Qed.

Section TradeLoops.

Import ExecutorTrades.

Variable o : Outside.

Lemma NoDup_map_inj {A B} (f : A -> B) (l : list A) (x y : A) :
  NoDup (map f l) -> In x l -> In y l -> f x = f y -> x = y.
Proof.
  induction l as [| a l IH]; intros Hnd Hx Hy E; [destruct Hx |].
  cbn in Hnd. apply NoDup_cons in Hnd as [Ha Hnd].
  destruct Hx as [<- | Hx], Hy as [<- | Hy]; auto.
  - exfalso. apply Ha. rewrite E. apply list_elem_of_In, in_map, Hy.
  - exfalso. apply Ha. rewrite <- E. apply list_elem_of_In, in_map, Hx.
Qed.

Lemma find_id_None (l : list Trade) (id : string) :
  id ∉ map trade_id l ->
  List.find (fun x => bool_decide (trade_id x = id)) l = None.
Proof.
  induction l as [| a l IH]; intros H; [reflexivity |].
  cbn in *. apply not_elem_of_cons in H as [Hne H].
  rewrite bool_decide_eq_false_2 by congruence. now apply IH.
Qed.

(** A loop that rewrites, for each trade of the list read from the store,
    the rows carrying that trade's id. *)
Lemma fold_rowwise (step : Desk -> Trade -> Desk)
    (change : Trade -> option (Trade -> Trade)) :
  (forall d x,
     trades (step d x)
     = match change x with
       | Some f => map (fun t => if bool_decide (trade_id t = trade_id x)
                                 then f t else t) (trades d)
       | None => trades d
       end) ->
  (forall x f t, change x = Some f -> trade_id (f t) = trade_id t) ->
  forall l d,
    NoDup (map trade_id l) ->
    trades (fold_left step l d)
    = map (fun t =>
             match List.find (fun x => bool_decide (trade_id x = trade_id t)) l with
             | Some x => match change x with Some f => f t | None => t end
             | None => t
             end) (trades d).
Proof.
  intros Hstep Hid l. induction l as [| x l IH]; intros d Hnd.
  - cbn. symmetry. apply map_id.
  - cbn [fold_left]. cbn in Hnd. apply NoDup_cons in Hnd as [Hx Hnd].
    rewrite IH by exact Hnd. rewrite Hstep.
    destruct (change x) as [f |] eqn:Ef.
    + rewrite map_map. apply map_ext. intros t. cbn [List.find].
      case_bool_decide as Et.
      * rewrite (Hid _ _ _ Ef), Et.
        rewrite bool_decide_eq_true_2 by reflexivity.
        rewrite find_id_None by exact Hx. now rewrite Ef.
      * rewrite bool_decide_eq_false_2 by congruence. reflexivity.
    + apply map_ext. intros t. cbn [List.find].
      case_bool_decide as Et; [| reflexivity].
      rewrite <- Et, find_id_None by exact Hx. now rewrite Ef.
Qed.

Lemma find_snapshot (table : list Trade) (opportunityId : string) (t : Trade) :
  NoDup (map trade_id table) -> In t table ->
  List.find (fun x => bool_decide (trade_id x = trade_id t))
    (getByOpportunityId table opportunityId)
  = if bool_decide (trade_opportunity_id t = Some opportunityId) then Some t else None.
Proof.
  intros Hnd Ht. unfold getByOpportunityId.
  destruct (List.find _ _) as [y |] eqn:Ef.
  - apply List.find_some in Ef as [Hy Hid].
    apply in_rev, List.filter_In in Hy as [Hy Hopp].
    apply bool_decide_eq_true in Hid.
    assert (y = t) by (eapply NoDup_map_inj; eauto). subst y.
    now rewrite Hopp.
  - case_bool_decide as Hopp; [| reflexivity].
    pose proof (List.find_none _ _ Ef t) as Hn.
    assert (In t (rev (List.filter
                         (fun t0 => bool_decide (trade_opportunity_id t0 = Some opportunityId))
                         table))).
    { apply in_rev. rewrite rev_involutive. apply List.filter_In. split; [exact Ht |].
      now apply bool_decide_eq_true_2. }
    specialize (Hn H). cbn in Hn.
    rewrite bool_decide_eq_true_2 in Hn by reflexivity. discriminate Hn.
Qed.

Lemma snapshot_NoDup (table : list Trade) (opportunityId : string) :
  NoDup (map trade_id table) ->
  NoDup (map trade_id (getByOpportunityId table opportunityId)).
Proof.
  intros Hnd. unfold getByOpportunityId. rewrite map_rev.
  apply NoDup_ListNoDup, List.NoDup_rev.
  apply NoDup_ListNoDup in Hnd.
  induction table as [| a l IH]; cbn; [constructor |].
  inversion Hnd as [| ? ? Ha Hl]; subst.
  destruct (bool_decide _); cbn; [| now apply IH].
  constructor; [| now apply IH].
  intros Hin. apply Ha. apply in_map_iff in Hin as (y & Ey & Hy).
  apply List.filter_In in Hy as [Hy _]. rewrite <- Ey. now apply in_map.
Qed.

Lemma writeStatus_trades (failure : string) (x : Trade) (status : TradeStatus)
    (orderId : option string) (d : Desk) :
  trades (writeStatus o failure x status orderId d)
  = if tradeUpdateFails o (trade_id x) then trades d
    else map (fun t => if bool_decide (trade_id t = trade_id x)
                       then setStatus status orderId t else t) (trades d).
Proof.
  unfold writeStatus. destruct (tradeUpdateFails o (trade_id x)); reflexivity.
Qed.

End TradeLoops.

Section TradeLoopCalls.

Import ExecutorTrades.

Variable o : Outside.

Lemma cancelCalls_app (a b : list Call) :
  cancelCalls (a ++ b) = cancelCalls a ++ cancelCalls b.
Proof. unfold cancelCalls. apply flat_map_app. Qed.

Lemma cancelTrade_calls (d : Desk) (x : Trade) :
  cancelCalls (calls (cancelTrade o d x))
  = cancelCalls (calls d)
    ++ match trade_status x, MarketMappingModel.orNull (trade_order_id x) with
       | tradePending, Some orderId => [(trade_platform x, orderId)]
       | _, _ => []
       end.
Proof.
  unfold cancelTrade, writeStatus.
  destruct (trade_status x); try (symmetry; apply app_nil_r).
  destruct (MarketMappingModel.orNull (trade_order_id x)) as [orderId |];
    [| symmetry; apply app_nil_r].
  destruct (cancelOrder o _ _); [destruct (tradeUpdateFails o _) |];
    cbn [calls call]; rewrite ?cancelCalls_app; cbn; rewrite ?app_nil_r; reflexivity.
Qed.

Lemma fold_cancel_calls (l : list Trade) (d : Desk) :
  cancelCalls (calls (fold_left (cancelTrade o) l d))
  = cancelCalls (calls d)
    ++ flat_map (fun x =>
         match trade_status x, MarketMappingModel.orNull (trade_order_id x) with
         | tradePending, Some orderId => [(trade_platform x, orderId)]
         | _, _ => []
         end) l.
Proof.
  revert d. induction l as [| x l IH]; intros d; cbn [fold_left flat_map].
  - symmetry. apply app_nil_r.
  - rewrite IH, cancelTrade_calls, <- app_assoc. reflexivity.
Qed.

Lemma flat_map_filter {A B} (f : A -> bool) (g : A -> list B) (l : list A) :
  flat_map g (List.filter f l) = flat_map (fun a => if f a then g a else []) l.
Proof.
  induction l as [| a l IH]; [reflexivity |].
  cbn. destruct (f a); cbn; now rewrite IH.
Qed.

Lemma fold_opportunities (step : Desk -> Trade -> Desk) (l : list Trade) (d : Desk) :
  (forall d x, opportunities (step d x) = opportunities d) ->
  opportunities (fold_left step l d) = opportunities d.
Proof.
  intros H. revert d. induction l as [| x l IH]; intros d; [reflexivity |].
  cbn. now rewrite IH, H.
Qed.

Lemma cancelTrade_opportunities (d : Desk) (x : Trade) :
  opportunities (cancelTrade o d x) = opportunities d.
Proof.
  unfold cancelTrade, writeStatus.
  destruct (trade_status x); try reflexivity.
  destruct (MarketMappingModel.orNull _); [| reflexivity].
  destruct (cancelOrder o _ _); [destruct (tradeUpdateFails o _) |]; reflexivity.
Qed.

Lemma checkTrade_opportunities (d : Desk) (x : Trade) :
  opportunities (checkTrade o d x) = opportunities d.
Proof.
  unfold checkTrade, writeStatus.
  destruct (trade_status x); try reflexivity.
  destruct (MarketMappingModel.orNull _); [| reflexivity].
  destruct (getOrderStatus o _ _) as [[[] id] |]; try reflexivity;
    destruct (tradeUpdateFails o _); reflexivity.
Qed.

End TradeLoopCalls.

(** X29.  [cancelExecution] on a table whose trade ids are unique.  It
    fails exactly when the store refuses the query or the status write of
    the opportunity; a venue that refuses a cancel never makes it fail.
    One cancel is sent for every trade of the opportunity that is pending
    and has an order id, newest trade first.  Such a trade becomes
    [cancelled] when its cancel went through and the store accepted the
    update; every other row of the table is left as it was.  On success the
    opportunity's status is [expired]. *)
Theorem cancelExecution_effect (o : ExecutorTrades.Outside) (opportunityId : string)
    (d : ExecutorTrades.Desk)
    (Hids : NoDup (map ExecutorTrades.trade_id (ExecutorTrades.trades d))) :
  (fst (ExecutorTrades.cancelExecution o opportunityId d) = None
   <-> ExecutorTrades.queryFails o = false
       /\ ExecutorTrades.opportunityUpdateFails o = false)
  /\ ExecutorTrades.trades (snd (ExecutorTrades.cancelExecution o opportunityId d))
     = (if ExecutorTrades.queryFails o then ExecutorTrades.trades d
        else map (fun t =>
                    match ExecutorTrades.live opportunityId t with
                    | Some orderId =>
                        if ExecutorTrades.cancelOrder o (ExecutorTrades.trade_platform t)
                             orderId
                           && negb (ExecutorTrades.tradeUpdateFails o
                                      (ExecutorTrades.trade_id t))
                        then ExecutorTrades.setStatus tradeCancelled None t
                        else t
                    | None => t
                    end) (ExecutorTrades.trades d))
  /\ ExecutorTrades.cancelCalls
       (ExecutorTrades.calls (snd (ExecutorTrades.cancelExecution o opportunityId d)))
     = ExecutorTrades.cancelCalls (ExecutorTrades.calls d)
       ++ (if ExecutorTrades.queryFails o then []
           else flat_map (fun t =>
                            match ExecutorTrades.live opportunityId t with
                            | Some orderId => [(ExecutorTrades.trade_platform t, orderId)]
                            | None => []
                            end) (rev (ExecutorTrades.trades d)))
  /\ ExecutorTrades.opportunities
       (snd (ExecutorTrades.cancelExecution o opportunityId d))
     = (if ExecutorTrades.queryFails o || ExecutorTrades.opportunityUpdateFails o
        then ExecutorTrades.opportunities d
        else alter (fun _ => expired) opportunityId (ExecutorTrades.opportunities d)).
Proof.
  unfold ExecutorTrades.cancelExecution.
  destruct (ExecutorTrades.queryFails o) eqn:Eq.
  { cbn. repeat split; try discriminate; try tauto.
    - intros [[=] _].
    - rewrite cancelCalls_app. cbn. reflexivity. }
  set (l := ExecutorTrades.getByOpportunityId (ExecutorTrades.trades d) opportunityId).
  assert (Htrades :
    ExecutorTrades.trades (fold_left (ExecutorTrades.cancelTrade o) l d)
    = map (fun t =>
             match ExecutorTrades.live opportunityId t with
             | Some orderId =>
                 if ExecutorTrades.cancelOrder o (ExecutorTrades.trade_platform t) orderId
                    && negb (ExecutorTrades.tradeUpdateFails o (ExecutorTrades.trade_id t))
                 then ExecutorTrades.setStatus tradeCancelled None t
                 else t
             | None => t
             end) (ExecutorTrades.trades d)).
  { rewrite (fold_rowwise (ExecutorTrades.cancelTrade o)
               (fun x =>
                  match ExecutorTrades.trade_status x,
                        MarketMappingModel.orNull (ExecutorTrades.trade_order_id x) with
                  | tradePending, Some orderId =>
                      if ExecutorTrades.cancelOrder o (ExecutorTrades.trade_platform x)
                           orderId
                         && negb (ExecutorTrades.tradeUpdateFails o
                                    (ExecutorTrades.trade_id x))
                      then Some (ExecutorTrades.setStatus tradeCancelled None)
                      else None
                  | _, _ => None
                  end)).
    - apply map_ext_in. intros t Ht. subst l.
      rewrite (find_snapshot _ _ _ Hids Ht). unfold ExecutorTrades.live.
      destruct (bool_decide _); [| reflexivity].
      destruct (ExecutorTrades.trade_status t); try reflexivity.
      destruct (MarketMappingModel.orNull _); [| reflexivity].
      destruct (_ && _); reflexivity.
    - intros d0 x. unfold ExecutorTrades.cancelTrade.
      destruct (ExecutorTrades.trade_status x); try reflexivity.
      destruct (MarketMappingModel.orNull _) as [orderId |]; [| reflexivity].
      destruct (ExecutorTrades.cancelOrder o _ _); cbn [andb]; [| reflexivity].
      rewrite writeStatus_trades.
      destruct (ExecutorTrades.tradeUpdateFails o _); reflexivity.
    - intros x f t Hf.
      destruct (ExecutorTrades.trade_status x); try discriminate Hf.
      destruct (MarketMappingModel.orNull _); [| discriminate Hf].
      destruct (_ && _); [| discriminate Hf].
      injection Hf as <-. reflexivity.
    - subst l. now apply snapshot_NoDup. }
  assert (Hcalls :
    ExecutorTrades.cancelCalls
      (ExecutorTrades.calls (fold_left (ExecutorTrades.cancelTrade o) l d))
    = ExecutorTrades.cancelCalls (ExecutorTrades.calls d)
      ++ flat_map (fun t =>
                     match ExecutorTrades.live opportunityId t with
                     | Some orderId => [(ExecutorTrades.trade_platform t, orderId)]
                     | None => []
                     end) (rev (ExecutorTrades.trades d))).
  { rewrite fold_cancel_calls. f_equal. subst l.
    unfold ExecutorTrades.getByOpportunityId.
    rewrite <- List.filter_rev, flat_map_filter.
    apply flat_map_ext. intros t. unfold ExecutorTrades.live.
    destruct (bool_decide _); [| reflexivity].
    destruct (ExecutorTrades.trade_status t); reflexivity. }
  assert (Hopp :
    ExecutorTrades.opportunities (fold_left (ExecutorTrades.cancelTrade o) l d)
    = ExecutorTrades.opportunities d).
  { apply fold_opportunities. apply cancelTrade_opportunities. }
  destruct (ExecutorTrades.opportunityUpdateFails o); cbn.
  - rewrite Htrades, Hopp, !cancelCalls_app, Hcalls. cbn. rewrite !app_nil_r.
    repeat split; try discriminate. intros [_ [=]].
  - rewrite Htrades, Hopp, !cancelCalls_app, Hcalls. cbn. rewrite !app_nil_r.
    repeat split; reflexivity.
Qed.

Lemma cancelExecution_effect_witness :
  map ExecutorTrades.trade_status
      (ExecutorTrades.trades
         (snd (ExecutorTrades.cancelExecution ScenarioTrades.outside "opp-1"
                 ScenarioTrades.desk)))
  = [tradeFilled; tradeCancelled; tradePending]
  /\ ExecutorTrades.cancelCalls
       (ExecutorTrades.calls
          (snd (ExecutorTrades.cancelExecution ScenarioTrades.outside "opp-1"
                  ScenarioTrades.desk)))
     = [(polymarket, "OB1"%string); (opinion, "OA1"%string)].
Proof.
  assert (Hids : NoDup (map ExecutorTrades.trade_id
                          (ExecutorTrades.trades ScenarioTrades.desk))).
  { apply (bool_decide_unpack _). vm_compute. exact I. }
  destruct (cancelExecution_effect ScenarioTrades.outside "opp-1" ScenarioTrades.desk Hids)
    as (_ & Ht & Hc & _).
  rewrite Ht, Hc. split; vm_compute; reflexivity.
Defined.

(** X30.  [checkOrderStatuses] on a table whose trade ids are unique.  A
    trade of the opportunity that is pending and has an order id takes the
    status its venue reports when that status is [filled], [cancelled] or
    [failed] and the store accepts the update, together with the order id
    the venue reports (and [executed_at] when filled); when the venue
    reports [pending] or [open], when the status call throws, or when the
    store refuses the update, it is left as it was.  Every other row, in
    particular every trade that is no longer pending, is left as it was, and
    so are the opportunities. *)
Theorem checkOrderStatuses_effect (o : ExecutorTrades.Outside) (opportunityId : string)
    (d : ExecutorTrades.Desk)
    (Hids : NoDup (map ExecutorTrades.trade_id (ExecutorTrades.trades d))) :
  ExecutorTrades.trades (ExecutorTrades.checkOrderStatuses o opportunityId d)
  = (if ExecutorTrades.queryFails o then ExecutorTrades.trades d
     else map (fun t =>
                 match ExecutorTrades.live opportunityId t with
                 | Some orderId =>
                     if ExecutorTrades.tradeUpdateFails o (ExecutorTrades.trade_id t)
                     then t
                     else
                       match ExecutorTrades.getOrderStatus o
                               (ExecutorTrades.trade_platform t) orderId with
                       | Some (orderFilled, id) =>
                           ExecutorTrades.setStatus tradeFilled (Some id) t
                       | Some (orderCancelled, id) =>
                           ExecutorTrades.setStatus tradeCancelled (Some id) t
                       | Some (orderFailed, id) =>
                           ExecutorTrades.setStatus tradeFailed (Some id) t
                       | _ => t
                       end
                 | None => t
                 end) (ExecutorTrades.trades d))
  /\ ExecutorTrades.opportunities (ExecutorTrades.checkOrderStatuses o opportunityId d)
     = ExecutorTrades.opportunities d
  /\ (forall i t,
        ExecutorTrades.trades d !! i = Some t ->
        ExecutorTrades.trade_status t <> tradePending ->
        ExecutorTrades.trades (ExecutorTrades.checkOrderStatuses o opportunityId d) !! i
        = Some t).
Proof.
  assert (Hmain :
    ExecutorTrades.trades (ExecutorTrades.checkOrderStatuses o opportunityId d)
    = (if ExecutorTrades.queryFails o then ExecutorTrades.trades d
       else map (fun t =>
                   match ExecutorTrades.live opportunityId t with
                   | Some orderId =>
                       if ExecutorTrades.tradeUpdateFails o (ExecutorTrades.trade_id t)
                       then t
                       else
                         match ExecutorTrades.getOrderStatus o
                                 (ExecutorTrades.trade_platform t) orderId with
                         | Some (orderFilled, id) =>
                             ExecutorTrades.setStatus tradeFilled (Some id) t
                         | Some (orderCancelled, id) =>
                             ExecutorTrades.setStatus tradeCancelled (Some id) t
                         | Some (orderFailed, id) =>
                             ExecutorTrades.setStatus tradeFailed (Some id) t
                         | _ => t
                         end
                   | None => t
                   end) (ExecutorTrades.trades d))).
  { unfold ExecutorTrades.checkOrderStatuses.
    destruct (ExecutorTrades.queryFails o); [reflexivity |].
    rewrite (fold_rowwise (ExecutorTrades.checkTrade o)
               (fun x =>
                  match ExecutorTrades.trade_status x,
                        MarketMappingModel.orNull (ExecutorTrades.trade_order_id x) with
                  | tradePending, Some orderId =>
                      if ExecutorTrades.tradeUpdateFails o (ExecutorTrades.trade_id x)
                      then None
                      else
                        match ExecutorTrades.getOrderStatus o
                                (ExecutorTrades.trade_platform x) orderId with
                        | Some (orderFilled, id) =>
                            Some (ExecutorTrades.setStatus tradeFilled (Some id))
                        | Some (orderCancelled, id) =>
                            Some (ExecutorTrades.setStatus tradeCancelled (Some id))
                        | Some (orderFailed, id) =>
                            Some (ExecutorTrades.setStatus tradeFailed (Some id))
                        | _ => None
                        end
                  | _, _ => None
                  end)).
    - apply map_ext_in. intros t Ht.
      rewrite (find_snapshot _ _ _ Hids Ht). unfold ExecutorTrades.live.
      destruct (bool_decide _); [| reflexivity].
      destruct (ExecutorTrades.trade_status t); try reflexivity.
      destruct (MarketMappingModel.orNull _); [| reflexivity].
      destruct (ExecutorTrades.tradeUpdateFails o _); [reflexivity |].
      destruct (ExecutorTrades.getOrderStatus o _ _) as [[[] id] |]; reflexivity.
    - intros d0 x. unfold ExecutorTrades.checkTrade.
      destruct (ExecutorTrades.trade_status x); try reflexivity.
      destruct (MarketMappingModel.orNull _) as [orderId |]; [| reflexivity].
      destruct (ExecutorTrades.getOrderStatus o _ _) as [[[] id] |];
        rewrite ?writeStatus_trades;
        destruct (ExecutorTrades.tradeUpdateFails o _); reflexivity.
    - intros x f t Hf.
      destruct (ExecutorTrades.trade_status x); try discriminate Hf.
      destruct (MarketMappingModel.orNull _); [| discriminate Hf].
      destruct (ExecutorTrades.tradeUpdateFails o _); [discriminate Hf |].
      destruct (ExecutorTrades.getOrderStatus o _ _) as [[[] id] |];
        try discriminate Hf; injection Hf as <-; reflexivity.
    - now apply snapshot_NoDup. }
  split; [exact Hmain | split].
  - unfold ExecutorTrades.checkOrderStatuses.
    destruct (ExecutorTrades.queryFails o); [reflexivity |].
    apply fold_opportunities. apply checkTrade_opportunities.
  - intros i t Hi Hst. rewrite Hmain.
    destruct (ExecutorTrades.queryFails o); [exact Hi |].
    rewrite list_lookup_fmap, Hi. cbn. f_equal.
    unfold ExecutorTrades.live. destruct (bool_decide _); [| reflexivity].
    destruct (ExecutorTrades.trade_status t); try reflexivity. contradiction.
Qed.

Lemma checkOrderStatuses_effect_witness :
  map ExecutorTrades.trade_status
      (ExecutorTrades.trades
         (ExecutorTrades.checkOrderStatuses ScenarioTrades.outside "opp-1"
            ScenarioTrades.desk))
  = [tradeFilled; tradeFilled; tradePending].
Proof.
  assert (Hids : NoDup (map ExecutorTrades.trade_id
                          (ExecutorTrades.trades ScenarioTrades.desk))).
  { apply (bool_decide_unpack _). vm_compute. exact I. }
  destruct (checkOrderStatuses_effect ScenarioTrades.outside "opp-1"
              ScenarioTrades.desk Hids) as (Ht & _).
  rewrite Ht. vm_compute. reflexivity.
Defined.

(** X21.  [validateLiquidity] accepts a required size exactly when both
    the bid side and the ask side, each restricted by the price cap, hold
    at least that much; so it accepts every smaller size as well, a cap of
    [0] is no cap, and on a book it accepts without a cap the liquidity
    [extractMarketPrices] reports is at least twice the required size. *)
Theorem validateLiquidity_both_sides (b : Orderbook) (requiredSize : Q)
    (maxPrice : option Q) :
  (Calculator.validateLiquidity b requiredSize maxPrice = true
   <-> requiredSize <= Calculator.calculateLiquidity b bid maxPrice
       /\ requiredSize <= Calculator.calculateLiquidity b ask maxPrice)
  /\ (forall smaller,
        smaller <= requiredSize ->
        Calculator.validateLiquidity b requiredSize maxPrice = true ->
        Calculator.validateLiquidity b smaller maxPrice = true)
  /\ Calculator.validateLiquidity b requiredSize (Some 0)
     = Calculator.validateLiquidity b requiredSize None
  /\ (forall o r,
        Calculator.validateLiquidity b requiredSize None = true ->
        Calculator.extractMarketPrices b o = Some r ->
        2 * requiredSize <= Calculator.pl_liquidity r).
Proof.
  assert (Hiff : forall r cap,
            Calculator.validateLiquidity b r cap = true
            <-> r <= Calculator.calculateLiquidity b bid cap
                /\ r <= Calculator.calculateLiquidity b ask cap).
  { intros r cap. unfold Calculator.validateLiquidity.
    rewrite Qle_bool_iff. split.
    - intros H. split.
      + eapply Qle_trans; [exact H | apply Q.le_min_l].
      + eapply Qle_trans; [exact H | apply Q.le_min_r].
    - intros [H1 H2]. now apply Q.min_glb. }
  split; [apply Hiff | split; [| split]].
  - intros smaller Hle H. apply Hiff in H as [H1 H2]. apply Hiff. split; lra.
  - reflexivity.
  - intros o r H Hr. apply Hiff in H as [H1 H2].
    unfold Calculator.extractMarketPrices in Hr.
    destruct (Calculator.extractBestPrice b bid); [| discriminate Hr].
    destruct (Calculator.extractBestPrice b ask); [| discriminate Hr].
    injection Hr as <-. cbn [Calculator.pl_liquidity].
    change (Calculator.calculateLiquidity b bid None) with (Calculator.sumSizes (bids b)) in H1.
    change (Calculator.calculateLiquidity b ask None) with (Calculator.sumSizes (asks b)) in H2.
    lra.
Qed.
